(** * ptv: interactive point-cloud map (js/main.js)

    A shallow embedding of the geometry factory, the dot field with its
    nearest-neighbour hotspot binding, the hover influence engine and the
    connection-arc builder of [js/main.js], then of the per-frame hotspot
    synchronisation, the hotspot picking with its tooltip, the settings
    revival and the map focus, followed by the properties of these
    functions.

    Conventions of the embedding.
    - A JavaScript number is a real number ([R]): arithmetic is exact, there
      is no rounding, no [NaN] and no infinity ([Infinity] as the start value
      of the nearest-neighbour scan is [None]).  [Math.max], [Math.min],
      [Math.abs], [Math.floor], [Math.sqrt], [Math.exp], [Math.sin] and
      [Math.atan] are [Rmax], [Rmin], [Rabs], [Zfloor], [sqrt], [exp], [sin]
      and [atan].
    - A value that may be [undefined] or [null] is an [option]; [a ?? b] is
      [orElse a b].
    - A thrown exception is [Throw]; functions that can throw return a
      [result].
    - The three.js objects are kept as the numbers the code gives them: an
      instanced mesh is the list of its per-instance positions (every instance
      matrix of the file is a pure translation), a tube is the list of the
      points its curve goes through.
    - Identifiers are ASCII strings; [toLowerCase] folds [A]..[Z]. *)

From Stdlib Require Import Reals Lra Lia ZArith List String Ascii Bool.
From Stdlib Require Import Permutation Sorted.
Import ListNotations.

Open Scope R_scope.

(* ================================================================== *)
(** * JavaScript values                                                *)
(* ================================================================== *)

Module Js.

Inductive error : Type :=
| TypeError.

Inductive result (A : Type) : Type :=
| Ok (a : A)
| Throw (e : error).

Arguments Ok {A} a.
Arguments Throw {A} e.

Definition bind {A B : Type} (m : result A) (k : A -> result B) : result B :=
  match m with
  | Ok a => k a
  | Throw e => Throw e
  end.

(** [a ?? b] *)
Definition orElse {A : Type} (a : option A) (b : A) : A :=
  match a with
  | Some v => v
  | None => b
  end.

(** [x < y] and [x > y] on numbers, as booleans. *)
Definition ltb (x y : R) : bool := if Rlt_dec x y then true else false.
Definition gtb (x y : R) : bool := if Rgt_dec x y then true else false.

(** [arr[i]] for an integer index: [undefined] out of range. *)
Definition index {A : Type} (l : list A) (i : Z) : option A :=
  if (i <? 0)%Z then None else nth_error l (Z.to_nat i).

(** [arr[i] = v] for an index that is in range. *)
Fixpoint setAt {A : Type} (l : list A) (i : nat) (v : A) : list A :=
  match l, i with
  | [], _ => []
  | _ :: tl, O => v :: tl
  | h :: tl, S j => h :: setAt tl j v
  end.

Definition lowerAscii (c : ascii) : ascii :=
  let n := nat_of_ascii c in
  if ((65 <=? n) && (n <=? 90))%nat then ascii_of_nat (n + 32) else c.

(** [String(s).toLowerCase()] for a string of ASCII characters: the letters
    [A] to [Z] are folded and nothing else changes.  JavaScript folds the
    letters outside ASCII as well, and maps a few of them to ASCII letters,
    so the statements about the id lookup are made for ids of ASCII
    characters only. *)
Fixpoint toLowerCase (s : string) : string :=
  match s with
  | EmptyString => EmptyString
  | String c tl => String (lowerAscii c) (toLowerCase tl)
  end.

(** [arr.findIndex(pred)]: the first index satisfying [pred], or [-1]. *)
Fixpoint findIndexFrom {A : Type} (pred : A -> bool) (l : list A) (i : Z) : Z :=
  match l with
  | [] => (-1)%Z
  | h :: tl => if pred h then i else findIndexFrom pred tl (i + 1)%Z
  end.

Definition findIndex {A : Type} (pred : A -> bool) (l : list A) : Z :=
  findIndexFrom pred l 0%Z.

(** The names a plain object inherits from [Object.prototype].  Reading
    [obj[name]] for one of them, on an object without an own property of
    that name, gives the inherited function (for [__proto__] the prototype
    itself) and not [undefined]. *)
Definition objectPrototypeKeys : list string :=
  ["constructor"; "__defineGetter__"; "__defineSetter__"; "hasOwnProperty";
   "__lookupGetter__"; "__lookupSetter__"; "isPrototypeOf";
   "propertyIsEnumerable"; "toString"; "valueOf"; "__proto__";
   "toLocaleString"]%string.

Definition inheritedKey (name : string) : bool :=
  existsb (String.eqb name) objectPrototypeKeys.

Definition isDigit (c : ascii) : bool :=
  let n := nat_of_ascii c in ((48 <=? n) && (n <=? 57))%nat.

Fixpoint allDigits (s : string) : bool :=
  match s with
  | EmptyString => true
  | String c tl => isDigit c && allDigits tl
  end.

Fixpoint decimalValue (acc : Z) (s : string) : Z :=
  match s with
  | EmptyString => acc
  | String c tl =>
      decimalValue (acc * 10 + (Z.of_nat (nat_of_ascii c) - 48))%Z tl
  end.

(** The index a property key stands for when it is an array index: the
    canonical decimal form ([0], or digits without a leading zero) of an
    integer from 0 to 2^32 - 2. *)
Definition arrayIndex (key : string) : option Z :=
  match key with
  | EmptyString => None
  | String c tl =>
      if allDigits key && (negb (Ascii.eqb c "0") || String.eqb tl "")
      then
        let v := decimalValue 0 key in
        if (v <=? 4294967294)%Z then Some v else None
      else None
  end.

Definition isArrayIndex (key : string) : bool :=
  match arrayIndex key with
  | Some _ => true
  | None => false
  end.

(** Insertion into a list of indexed entries kept in ascending order. *)
Fixpoint insertIndexed {A : Type} (v : Z) (entry : A)
    (sorted : list (Z * A)) : list (Z * A) :=
  match sorted with
  | [] => [(v, entry)]
  | (w, other) :: tl =>
      if (v <? w)%Z then (v, entry) :: sorted
      else (w, other) :: insertIndexed v entry tl
  end.

Fixpoint indexedEntries {A : Type} (obj : list (string * A))
    : list (Z * (string * A)) :=
  match obj with
  | [] => []
  | entry :: tl =>
      match arrayIndex (fst entry) with
      | Some v => insertIndexed v entry (indexedEntries tl)
      | None => indexedEntries tl
      end
  end.

(** [Object.entries(obj)] for an object given by its own properties in the
    order of their creation (their keys are distinct): the array-index keys
    first, in ascending order, then the other keys in the order of their
    creation. *)
Definition objectEntries {A : Type} (obj : list (string * A))
    : list (string * A) :=
  map snd (indexedEntries obj)
  ++ filter (fun entry => negb (isArrayIndex (fst entry))) obj.

End Js.

Import Js.

Notation "x <- m ;; k" := (Js.bind m (fun x => k))
  (at level 61, m at next level, right associativity).

(* ================================================================== *)
(** * Data model                                                       *)
(* ================================================================== *)

Module Vec3.
Record t : Type := mk { x : R; y : R; z : R }.
End Vec3.

(** An entry of [dotPositions]. *)
Module Dot.
Record t : Type := mk {
  x : R;
  y : R;
  lift : R;
  targetLift : R;
  isHotspot : bool;
  hotspotIndex : Z
}.

Definition setTargetLift (p : t) (v : R) : t :=
  mk (x p) (y p) (lift p) v (isHotspot p) (hotspotIndex p).

Definition setLift (p : t) (v : R) : t :=
  mk (x p) (y p) v (targetLift p) (isHotspot p) (hotspotIndex p).

Definition setHotspot (p : t) (idx : Z) : t :=
  mk (x p) (y p) (lift p) (targetLift p) true idx.
End Dot.

(** An entry of a layout preset ([HOTSPOT_LAYOUT_PRESETS]); every field may
    be absent. *)
Record Preset : Type := {
  geometry : option string;
  topScale : option R;
  bottomScale : option R;
  heightScale : option R;
  presetRadialSegments : option R;
  presetDomeHeightRatio : option R;
  presetDomeSegments : option R;
  bodyHeightRatio : option R;
  bodyTopScale : option R;
  bodyBottomScale : option R;
  ringScale : option R;
  ringThickness : option R;
  ringOffset : option R;
  tier1HeightRatio : option R;
  tier2HeightRatio : option R;
  tier1RadiusScale : option R;
  tier2RadiusScale : option R;
  tipRadiusScale : option R
}.

(** The preset [{}]. *)
Definition emptyPreset : Preset :=
  Build_Preset None None None None None None None None None
               None None None None None None None None None.

(** [CONFIG.hotspots.connectionLine], and the per-pair configuration built
    from it. *)
Record LineCfg : Type := {
  enabled : bool;
  drawSequential : option bool;
  thickness : R;
  segments : R;
  arcHeight : R;
  color : R;
  opacity : R;
  heightOffset : R;
  radialSegments : R
}.

(** An entry of [CONFIG.hotspots.connectionPairs].  [fromId] and [toId]
    are the strings [String(pair.fromId)] and [String(pair.toId)], [None]
    for a missing id. *)
Record ConnectionPair : Type := {
  fromId : option string;
  toId : option string;
  pairColor : option R;
  pairOpacity : option R;
  pairArcHeight : option R;
  pairSegments : option R;
  pairThickness : option R;
  pairRadialSegments : option R;
  pairHeightOffset : option R
}.

Record HoverCfg : Type := {
  radius : R;
  maxLift : R;
  easing : R;
  threshold : R
}.

(** The part of [CONFIG] the modelled functions read. *)
Record Config : Type := {
  MAP_OFFSET_X : R;                  (* CONFIG.map.offsetX *)
  DOT_BASE_Y : R;                    (* CONFIG.map.offsetY *)
  DOT_RADIUS : R;                    (* CONFIG.dots.radius *)
  DOT_HEIGHT : R;                    (* CONFIG.dots.height *)
  SPACING : R;                       (* CONFIG.dots.spacing *)
  radiusMultiplier : R;              (* CONFIG.hotspots.radiusMultiplier *)
  heightMultiplier : R;              (* CONFIG.hotspots.heightMultiplier *)
  hotspotsRadialSegments : R;        (* CONFIG.hotspots.radialSegments *)
  hotspotsDomeHeightRatio : R;       (* CONFIG.hotspots.dome.heightRatio *)
  hotspotsDomeSegments : R;          (* CONFIG.hotspots.dome.segments *)
  layoutActive : option string;      (* CONFIG.hotspots.layout.active *)
  layoutPresets : list (string * Preset);
  phaseStep : option R;              (* CONFIG.hotspots.effects.idle.phaseStep *)
  connectionLine : LineCfg;
  connectionPairs : option (list ConnectionPair);
  hover : HoverCfg;
  hoverCooldownFrames : Z;           (* CONFIG.interaction.hoverCooldownFrames,
                                        a whole number of frames *)
  hoverFalloff : R                   (* CONFIG.interaction.hoverFalloff *)
}.

(** A loaded hotspot ([HOTSPOTS]) and a bound one ([hotspotData]).  The
    binding step always sets [height] and [idleLift], so the [??] fallbacks
    the readers of these two fields carry are never taken.  [rawId] is the
    string [String(hs.id)] (for a record without an id, ["undefined"]);
    [lat] and [lon] are the numbers [hs.lat] and [hs.lon] convert to in
    [hs.lat / 90] and [hs.lon / 180], [None] when that is not a finite
    number (the field is missing or is not numeric). *)
Record RawHotspot : Type := {
  rawId : string;
  lat : option R;
  lon : option R;
  label : string;
  message : string;
  type : string
}.

Record HotspotRecord : Type := {
  raw : RawHotspot;
  dotIndex : Z;
  meshType : string;
  meshInstanceId : nat;
  height : R;
  idleLift : R;
  animationPhase : R
}.

(** What [buildArcTubeGeometry] hands to the spline and the tube: the points
    the curve interpolates and the tube's dimensions. *)
Record Tube : Type := {
  curvePoints : list Vec3.t;
  tubularSegments : Z;
  tubeThickness : R;
  tubeRadialSegments : Z
}.

(** The [MeshBasicMaterial] of a pair line. *)
Record Material : Type := {
  materialColor : R;
  materialTransparent : bool;
  materialOpacity : R
}.

(** An entry of [hotspotPairLines]: the geometry and the material of its
    [mesh], and [cfg], the pair's merged configuration, which also carries
    the pair's own [fromId] and [toId]. *)
Record PairLine : Type := {
  mesh : Tube;
  material : Material;
  fromIndex : Z;
  toIndex : Z;
  cfgFromId : option string;
  cfgToId : option string;
  cfg : LineCfg
}.

(** The module-level variables of [main.js]. [meshes] holds the instance
    positions of [dotMesh] and of [hoverProxyMesh], which are created
    together in [buildDotsFromFile]; [None] is both being [null]. *)
Record State : Type := {
  meshes : option (list Vec3.t * list Vec3.t);
  dotPositions : list Dot.t;
  hotspotData : list HotspotRecord;
  hotspotLine : option Tube;
  hotspotPairLines : list PairLine;
  hoveredInstanceId : option nat;
  hoverCooldown : Z;
  liftActive : bool
}.

Definition initialState : State :=
  Build_State None [] [] None [] None 0%Z false.

(* ================================================================== *)
(** * Geometry factory                                                 *)
(* ================================================================== *)

Definition getCylinderCenterY (c : Config) (height lift : R) : R :=
  DOT_BASE_Y c + height / 2 + lift.

Definition getMapWorldX (c : Config) (x : R) : R :=
  x * SPACING c + MAP_OFFSET_X c.

(** The dimensions [createDomedCylinderGeometry] computes and hands to the
    cylinder, the partial sphere and the caps.  Here and in the other three
    constructions the tessellation arguments ([radialSegments],
    [domeSegments]) only set the number of faces and are left out. *)
Record DomedCylinder : Type := {
  dcRatio : R;
  domeHeight : R;
  cylinderHeight : R;
  dcTopRadius : R;
  dcBottomRadius : R;
  theta : R;
  sphereRadius : R;
  rimY : R
}.

Definition createDomedCylinderGeometry
    (topRadius bottomRadius height domeHeightRatio : R) : DomedCylinder :=
  let ratio := Rmax 0.08 (Rmin domeHeightRatio 0.7) in
  let domeHeight := Rmin (topRadius * ratio) (height * 0.45) in
  let cylinderHeight := Rmax 0.001 (height - domeHeight) in
  let theta := 2 * atan (domeHeight / topRadius) in
  let sphereRadius := topRadius / sin theta in
  let rimY := sphereRadius * cos theta in
  {| dcRatio := ratio;
     domeHeight := domeHeight;
     cylinderHeight := cylinderHeight;
     dcTopRadius := topRadius;
     dcBottomRadius := bottomRadius;
     theta := theta;
     sphereRadius := sphereRadius;
     rimY := rimY |}.

Record Crystal : Type := {
  bodyRatio : R;
  bodyHeight : R;
  crystalTipHeight : R;
  bodyTop : R;
  bodyBottom : R;
  crystalTipRadius : R;
  bodyCenterY : R;
  crystalTipCenterY : R
}.

Definition createCrystalHotspotGeometry
    (radius height : R) (preset : Preset) : Crystal :=
  let bodyRatio := Rmax 0.35 (Rmin 0.82 (orElse (bodyHeightRatio preset) 0.64)) in
  let bodyHeight := Rmax 0.04 (height * bodyRatio) in
  let tipHeight := Rmax 0.04 (height - bodyHeight) in
  let bodyTop := Rmax 0.01 (radius * orElse (bodyTopScale preset) 0.42) in
  let bodyBottom := Rmax 0.01 (radius * orElse (bodyBottomScale preset) 1.0) in
  let bodyCenterY := - height / 2 + bodyHeight / 2 in
  let tipCenterY := bodyCenterY + bodyHeight / 2 + tipHeight / 2 in
  {| bodyRatio := bodyRatio;
     bodyHeight := bodyHeight;
     crystalTipHeight := tipHeight;
     bodyTop := bodyTop;
     bodyBottom := bodyBottom;
     crystalTipRadius := Rmax 0.01 (bodyTop * 1.14);
     bodyCenterY := bodyCenterY;
     crystalTipCenterY := tipCenterY |}.

Record Orbital : Type := {
  core : DomedCylinder;
  majorRadius : R;
  tubeRadius : R;
  ringY : R
}.

Definition createOrbitalHotspotGeometry
    (topRadius bottomRadius height domeHeightRatio : R) (preset : Preset)
    : Orbital :=
  let core :=
    createDomedCylinderGeometry topRadius bottomRadius height domeHeightRatio in
  let majorRadius :=
    Rmax topRadius bottomRadius * orElse (ringScale preset) 1.25 in
  let tubeRadius :=
    Rmax 0.008 (majorRadius * orElse (ringThickness preset) 0.14) in
  {| core := core;
     majorRadius := majorRadius;
     tubeRadius := tubeRadius;
     ringY := height * orElse (ringOffset preset) 0.08 |}.

Record Beacon : Type := {
  tier1Ratio : R;
  tier2Ratio : R;
  tier1Height : R;
  tier2Height : R;
  beaconTipHeight : R;
  tier1Radius : R;
  tier2Radius : R;
  beaconTipRadius : R;
  tier1CenterY : R;
  tier2CenterY : R;
  beaconTipCenterY : R
}.

Definition createBeaconHotspotGeometry
    (radius height : R) (preset : Preset) : Beacon :=
  let tier1Ratio := Rmax 0.2 (Rmin 0.7 (orElse (tier1HeightRatio preset) 0.44)) in
  let tier2Ratio := Rmax 0.15 (Rmin 0.55 (orElse (tier2HeightRatio preset) 0.33)) in
  let tier1Height := Rmax 0.04 (height * tier1Ratio) in
  let tier2Height := Rmax 0.04 (height * tier2Ratio) in
  let tipHeight := Rmax 0.04 (height - tier1Height - tier2Height) in
  let tier1Radius := Rmax 0.01 (radius * orElse (tier1RadiusScale preset) 1.0) in
  let tier2Radius := Rmax 0.01 (radius * orElse (tier2RadiusScale preset) 0.68) in
  let tipRadius := Rmax 0.01 (radius * orElse (tipRadiusScale preset) 0.34) in
  let tier1CenterY := - height / 2 + tier1Height / 2 in
  let tier2CenterY := tier1CenterY + tier1Height / 2 + tier2Height / 2 in
  let tipCenterY := tier2CenterY + tier2Height / 2 + tipHeight / 2 in
  {| tier1Ratio := tier1Ratio;
     tier2Ratio := tier2Ratio;
     tier1Height := tier1Height;
     tier2Height := tier2Height;
     beaconTipHeight := tipHeight;
     tier1Radius := tier1Radius;
     tier2Radius := tier2Radius;
     beaconTipRadius := tipRadius;
     tier1CenterY := tier1CenterY;
     tier2CenterY := tier2CenterY;
     beaconTipCenterY := tipCenterY |}.

(** The own property [name] of [presets], if there is one. *)
Fixpoint ownPreset (presets : list (string * Preset)) (name : string)
    : option Preset :=
  match presets with
  | [] => None
  | (k, p) :: tl => if String.eqb k name then Some p else ownPreset tl name
  end.

(** [presets[name]]: the own property, else the member inherited from
    [Object.prototype] under that name, which is a function or an object
    with none of the fields of a preset, else [undefined]. *)
Definition lookupPreset (presets : list (string * Preset)) (name : string)
    : option Preset :=
  match ownPreset presets name with
  | Some p => Some p
  | None => if inheritedKey name then Some emptyPreset else None
  end.

Definition getActiveHotspotLayoutPreset (c : Config) : Preset :=
  let presets := layoutPresets c in
  let activeName := orElse (layoutActive c) "classic"%string in
  let fallback := orElse (lookupPreset presets "classic"%string) emptyPreset in
  orElse (lookupPreset presets activeName) fallback.

(** The solid a preset selects. *)
Inductive Solid : Type :=
| SolidCrystal (g : Crystal)
| SolidOrbital (g : Orbital)
| SolidBeacon (g : Beacon)
| SolidDomedCylinder (g : DomedCylinder).

Definition geometryIs (preset : Preset) (tag : string) : bool :=
  match geometry preset with
  | Some g => String.eqb g tag
  | None => false
  end.

(** Returns [{ geometry, hotspotHeight, preset }]. *)
Definition buildHotspotGeometryFromLayout (c : Config)
    : Solid * R * Preset :=
  let preset := getActiveHotspotLayoutPreset c in
  let baseRadius := DOT_RADIUS c * radiusMultiplier c in
  let baseHeight := DOT_HEIGHT c * heightMultiplier c in
  let topRadius := Rmax 0.02 (baseRadius * orElse (topScale preset) 1) in
  let bottomRadius := Rmax 0.02 (baseRadius * orElse (bottomScale preset) 1) in
  let hotspotHeight := Rmax 0.08 (baseHeight * orElse (heightScale preset) 1) in
  let domeHeightRatio :=
    orElse (presetDomeHeightRatio preset) (hotspotsDomeHeightRatio c) in
  let geometry :=
    if geometryIs preset "crystal" then
      SolidCrystal
        (createCrystalHotspotGeometry (Rmax topRadius bottomRadius)
           hotspotHeight preset)
    else if geometryIs preset "orbital" then
      SolidOrbital
        (createOrbitalHotspotGeometry topRadius bottomRadius hotspotHeight
           domeHeightRatio preset)
    else if geometryIs preset "beacon" then
      SolidBeacon
        (createBeaconHotspotGeometry (Rmax topRadius bottomRadius)
           hotspotHeight preset)
    else
      SolidDomedCylinder
        (createDomedCylinderGeometry topRadius bottomRadius hotspotHeight
           domeHeightRatio)
  in
  (geometry, hotspotHeight, preset).

(** The height of a solid as assembled: the sum of the heights of the parts
    stacked on one another (the ring of the orbital solid surrounds its core
    and adds no height). *)
Definition assembledHeight (s : Solid) : R :=
  match s with
  | SolidCrystal g => bodyHeight g + crystalTipHeight g
  | SolidBeacon g => tier1Height g + tier2Height g + beaconTipHeight g
  | SolidOrbital g => cylinderHeight (core g) + domeHeight (core g)
  | SolidDomedCylinder g => cylinderHeight g + domeHeight g
  end.

(* ================================================================== *)
(** * Connection arcs                                                  *)
(* ================================================================== *)

(** Writes the world position of a bound hotspot into [out]; reading
    [p.x] of a missing dot throws. *)
Definition getHotspotWorldPosition (c : Config) (dots : list Dot.t)
    (hs : HotspotRecord) : result Vec3.t :=
  match Js.index dots (dotIndex hs) with
  | None => Throw TypeError
  | Some p =>
      Ok (Vec3.mk
            (getMapWorldX c (Dot.x p))
            (getCylinderCenterY c (height hs) (Dot.lift p + idleLift hs)
             + heightOffset (connectionLine c))
            (- Dot.y p * SPACING c))
  end.

(** The values [s] takes in [for (let s = start; s <= segments; s += 1)]. *)
Definition sampleIndices (start segments : Z) : list Z :=
  map (fun k => (start + Z.of_nat k)%Z)
      (seq 0 (Z.to_nat (segments + 1 - start))).

(** The point pushed for the sample [s] of a leg from [a] to [b]. *)
Definition arcPoint (a b : Vec3.t) (lineCfg : LineCfg) (segments s : Z)
    : Vec3.t :=
  let t := IZR s / IZR segments in
  let oneMinus := 1 - t in
  Vec3.mk
    (Vec3.x a * oneMinus + Vec3.x b * t)
    (Vec3.y a * oneMinus + Vec3.y b * t + sin (PI * t) * arcHeight lineCfg)
    (Vec3.z a * oneMinus + Vec3.z b * t).

Definition effectiveSegments (lineCfg : LineCfg) : Z :=
  Z.max 1 (Zfloor (segments lineCfg)).

Definition collectArcPointsBetween (a b : Vec3.t) (lineCfg : LineCfg)
    : list Vec3.t :=
  let segments := effectiveSegments lineCfg in
  map (arcPoint a b lineCfg segments) (sampleIndices 0 segments).

(** The body of the loop of [collectHotspotArcPoints] for leg [i]. *)
Definition legStart (i : nat) : Z :=
  match i with
  | O => 0%Z
  | S _ => 1%Z
  end.

Definition collectLeg (lineCfg : LineCfg) (i : nat) (a b : Vec3.t)
    : list Vec3.t :=
  let segments := effectiveSegments lineCfg in
  map (arcPoint a b lineCfg segments) (sampleIndices (legStart i) segments).

(** The loop [for (let i = 0; i < hotspotData.length - 1; i += 1)], entered
    at leg [i] with the records from [hotspotData[i]] on. *)
Fixpoint collectLegsFrom (c : Config) (dots : list Dot.t) (i : nat)
    (hs : list HotspotRecord) : result (list Vec3.t) :=
  match hs with
  | h1 :: ((h2 :: _) as tl) =>
      a <- getHotspotWorldPosition c dots h1 ;;
      b <- getHotspotWorldPosition c dots h2 ;;
      rest <- collectLegsFrom c dots (S i) tl ;;
      Ok (collectLeg (connectionLine c) i a b ++ rest)
  | _ => Ok []
  end.

Definition collectHotspotArcPoints (c : Config) (st : State)
    : result (list Vec3.t) :=
  collectLegsFrom c (dotPositions st) 0 (hotspotData st).

Definition buildArcTubeGeometry (points : list Vec3.t) (lineCfg : LineCfg)
    : Tube :=
  {| curvePoints := points;
     tubularSegments := Z.max 2 (Z.of_nat (List.length points) * 2);
     tubeThickness := Rmax 0.001 (thickness lineCfg);
     tubeRadialSegments := Z.max 3 (Zfloor (radialSegments lineCfg)) |}.

Definition isSequentialConnectionEnabled (c : Config) : bool :=
  enabled (connectionLine c) && orElse (drawSequential (connectionLine c)) false.

Definition setHotspotLine (st : State) (l : option Tube) : State :=
  Build_State (meshes st) (dotPositions st) (hotspotData st) l
              (hotspotPairLines st) (hoveredInstanceId st) (hoverCooldown st)
              (liftActive st).

Definition setHotspotPairLines (st : State) (l : list PairLine) : State :=
  Build_State (meshes st) (dotPositions st) (hotspotData st) (hotspotLine st)
              l (hoveredInstanceId st) (hoverCooldown st) (liftActive st).

Definition clearHotspotConnectionLine (st : State) : State :=
  setHotspotLine st None.

Definition clearHotspotPairConnections (st : State) : State :=
  setHotspotPairLines st [].

Definition buildHotspotConnectionLine (c : Config) (st : State)
    : result State :=
  if negb (isSequentialConnectionEnabled c)
     || (List.length (hotspotData st) <? 2)%nat
  then Ok (clearHotspotConnectionLine st)
  else
    let st := clearHotspotConnectionLine st in
    points <- collectHotspotArcPoints c st ;;
    if (List.length points <? 2)%nat then Ok st
    else Ok (setHotspotLine st
               (Some (buildArcTubeGeometry points (connectionLine c)))).

(** [!id]: an absent or empty id is falsy. *)
Definition falsyId (id : option string) : bool :=
  match id with
  | None => true
  | Some s => String.eqb s ""
  end.

Definition findHotspotIndexById (hotspots : list HotspotRecord)
    (id : option string) : Z :=
  if falsyId id then (-1)%Z
  else
    let needle := toLowerCase (orElse id ""%string) in
    findIndex
      (fun hs => String.eqb (toLowerCase (rawId (raw hs))) needle)
      hotspots.

(** The object [{ ...baseCfg, ...pair, color: pair.color ?? baseCfg.color,
    ... }]. *)
Definition mergePairCfg (baseCfg : LineCfg) (p : ConnectionPair) : LineCfg :=
  {| enabled := enabled baseCfg;
     drawSequential := drawSequential baseCfg;
     thickness := orElse (pairThickness p) (thickness baseCfg);
     segments := orElse (pairSegments p) (segments baseCfg);
     arcHeight := orElse (pairArcHeight p) (arcHeight baseCfg);
     color := orElse (pairColor p) (color baseCfg);
     opacity := orElse (pairOpacity p) (opacity baseCfg);
     heightOffset := orElse (pairHeightOffset p) (heightOffset baseCfg);
     radialSegments :=
       orElse (pairRadialSegments p) (radialSegments baseCfg) |}.

(** [hotspotData[i]] handed to [getHotspotWorldPosition]. *)
Definition hotspotWorldPositionAt (c : Config) (st : State) (i : Z)
    : result Vec3.t :=
  match Js.index (hotspotData st) i with
  | None => Throw TypeError
  | Some hs => getHotspotWorldPosition c (dotPositions st) hs
  end.

(** The callback of [pairs.forEach] in [buildHotspotPairConnections]:
    [None] is the early [return], [Some] the entry pushed. *)
Definition buildPairConnection (c : Config) (st : State)
    (p : ConnectionPair) : result (option PairLine) :=
  let baseCfg := connectionLine c in
  let fromIndex := findHotspotIndexById (hotspotData st) (fromId p) in
  let toIndex := findHotspotIndexById (hotspotData st) (toId p) in
  if (fromIndex <? 0)%Z || (toIndex <? 0)%Z then Ok None
  else
    let cfg := mergePairCfg baseCfg p in
    a <- hotspotWorldPositionAt c st fromIndex ;;
    b <- hotspotWorldPositionAt c st toIndex ;;
    let points := collectArcPointsBetween a b cfg in
    Ok (Some {| mesh := buildArcTubeGeometry points cfg;
                material :=
                  {| materialColor := color cfg;
                     materialTransparent := Js.ltb (opacity cfg) 1;
                     materialOpacity := opacity cfg |};
                fromIndex := fromIndex;
                toIndex := toIndex;
                cfgFromId := fromId p;
                cfgToId := toId p;
                cfg := cfg |}).

Fixpoint forEachPair (c : Config) (st : State) (pairs : list ConnectionPair)
    (lines : list PairLine) : result (list PairLine) :=
  match pairs with
  | [] => Ok lines
  | p :: tl =>
      r <- buildPairConnection c st p ;;
      forEachPair c st tl
        (match r with
         | Some entry => lines ++ [entry]
         | None => lines
         end)
  end.

Definition buildHotspotPairConnections (c : Config) (st : State)
    : result State :=
  if negb (enabled (connectionLine c)) then
    Ok (clearHotspotPairConnections st)
  else
    match connectionPairs c with
    | None | Some [] => Ok (clearHotspotPairConnections st)
    | Some pairs =>
        let st := clearHotspotPairConnections st in
        lines <- forEachPair c st pairs [] ;;
        Ok (setHotspotPairLines st lines)
    end.

(* ================================================================== *)
(** * Dot field and nearest-neighbour binding                          *)
(* ================================================================== *)

(** [latLonToMapXY(lat, lon)] with its default map size 20 x 10. *)
Definition latLonToMapXY (lat lon : R) : R * R :=
  (lon / 180 * (20 / 2), lat / 90 * (10 / 2)).

(** The record [buildDotsFromFile] stores for the point [[x, y]], and the
    instance position it gives the point in both dot meshes. *)
Definition newDot (xy : R * R) : Dot.t :=
  Dot.mk (fst xy) (snd xy) 0 0 false (-1).

Definition dotMatrix (c : Config) (p : Dot.t) : Vec3.t :=
  Vec3.mk (getMapWorldX c (Dot.x p))
          (getCylinderCenterY c (DOT_HEIGHT c) (Dot.lift p))
          (- Dot.y p * SPACING c).

(** The scan [dotPositions.forEach((p, idx) => ...)] of the binding step,
    entered at index [idx] with the current [bestIndex] and [bestDist]
    ([None] is [Infinity]); it returns the final [bestIndex]. *)
Fixpoint nearestDotFrom (x y : R) (dots : list Dot.t) (idx : Z)
    (bestIndex : Z) (bestDist : option R) : Z :=
  match dots with
  | [] => bestIndex
  | p :: tl =>
      let dx := Dot.x p - x in
      let dy := Dot.y p - y in
      let d := dx * dx + dy * dy in
      if match bestDist with
         | None => true
         | Some best => Js.ltb d best
         end
      then nearestDotFrom x y tl (idx + 1)%Z idx (Some d)
      else nearestDotFrom x y tl (idx + 1)%Z bestIndex bestDist
  end.

Definition setBinding (st : State) (dots : list Dot.t)
    (hotspots : list HotspotRecord) : State :=
  Build_State (meshes st) dots hotspots (hotspotLine st)
              (hotspotPairLines st) (hoveredInstanceId st) (hoverCooldown st)
              (liftActive st).

(** The callback of [list.forEach((hs, i) => ...)]: binds the hotspot [hs],
    the [i]-th of its type.  [dotPositions[bestIndex].isHotspot = true]
    throws when there is no such dot. *)
(** [bestIndex] after the scan for the hotspot [hs].  With a [lat] or
    [lon] that is not a finite number every [d] is [NaN] or [Infinity], so
    [d < bestDist] never holds and [bestIndex] keeps its start value. *)
Definition nearestDot (hs : RawHotspot) (dots : list Dot.t) : Z :=
  match lat hs, lon hs with
  | Some latitude, Some longitude =>
      let xy := latLonToMapXY latitude longitude in
      nearestDotFrom (fst xy) (snd xy) dots 0 (-1) None
  | _, _ => (-1)%Z
  end.

Definition bindHotspot (hotspotHeight idlePhaseStep : R) (type : string)
    (i : nat) (hs : RawHotspot) (st : State) : result State :=
  let bestIndex := nearestDot hs (dotPositions st) in
  match Js.index (dotPositions st) bestIndex with
  | None => Throw TypeError
  | Some p =>
      let bound :=
        Dot.setHotspot p (Z.of_nat (List.length (hotspotData st))) in
      let record :=
        {| raw := hs;
           dotIndex := bestIndex;
           meshType := type;
           meshInstanceId := i;
           height := hotspotHeight;
           idleLift := 0;
           animationPhase := (IZR bestIndex + INR i) * idlePhaseStep |} in
      Ok (setBinding st
            (Js.setAt (dotPositions st) (Z.to_nat bestIndex) bound)
            (hotspotData st ++ [record]))
  end.

Fixpoint bindGroupFrom (hotspotHeight idlePhaseStep : R) (type : string)
    (i : nat) (list : list RawHotspot) (st : State) : result State :=
  match list with
  | [] => Ok st
  | hs :: tl =>
      st1 <- bindHotspot hotspotHeight idlePhaseStep type i hs st ;;
      bindGroupFrom hotspotHeight idlePhaseStep type (S i) tl st1
  end.

(** [grouped[hs.type] ??= []; grouped[hs.type].push(hs)] for a type that
    [grouped] does not inherit: the own properties of [grouped], in the
    order of their creation. *)
Fixpoint pushGroup (hs : RawHotspot)
    (grouped : list (string * list RawHotspot))
    : list (string * list RawHotspot) :=
  match grouped with
  | [] => [(type hs, [hs])]
  | (k, l) :: tl =>
      if String.eqb k (type hs) then (k, l ++ [hs]) :: tl
      else (k, l) :: pushGroup hs tl
  end.

(** The loop [HOTSPOTS.forEach((hs) => { grouped[hs.type] ??= [];
    grouped[hs.type].push(hs); })], entered with the object [grouped].  For
    a type that is the name of a member [grouped] inherits from
    [Object.prototype], [??=] finds that member and assigns nothing, and the
    call of its [push], which it does not have, throws. *)
Fixpoint groupFrom (HOTSPOTS : list RawHotspot)
    (grouped : list (string * list RawHotspot))
    : result (list (string * list RawHotspot)) :=
  match HOTSPOTS with
  | [] => Ok grouped
  | hs :: tl =>
      if inheritedKey (type hs) then Throw TypeError
      else groupFrom tl (pushGroup hs grouped)
  end.

(** [grouped] after the loop, its own properties in the order of their
    creation. *)
Definition groupByType (HOTSPOTS : list RawHotspot)
    : result (list (string * list RawHotspot)) :=
  groupFrom HOTSPOTS [].

Fixpoint bindGroups (hotspotHeight idlePhaseStep : R)
    (grouped : list (string * list RawHotspot)) (st : State) : result State :=
  match grouped with
  | [] => Ok st
  | (type, list) :: tl =>
      st1 <- bindGroupFrom hotspotHeight idlePhaseStep type 0 list st ;;
      bindGroups hotspotHeight idlePhaseStep tl st1
  end.

(** The module state once [buildDotsFromFile] has created both dot meshes
    and filled [dotPositions], before any hotspot is bound. *)
Definition dotField (c : Config) (dots : list (R * R)) : State :=
  let positions := map newDot dots in
  let matrices := map (dotMatrix c) positions in
  Build_State (Some (matrices, matrices)) positions [] None [] None 0%Z false.

(** [buildDotsFromFile(dots)], run once on the initial module state with the
    loaded [HOTSPOTS]. *)
Definition buildDotsFromFile (c : Config) (HOTSPOTS : list RawHotspot)
    (dots : list (R * R)) : result State :=
  let st := dotField c dots in
  let hotspotHeight := snd (fst (buildHotspotGeometryFromLayout c)) in
  let idlePhaseStep := orElse (phaseStep c) 0.55 in
  grouped <- groupByType HOTSPOTS ;;
  st1 <- bindGroups hotspotHeight idlePhaseStep (objectEntries grouped) st ;;
  st2 <- buildHotspotConnectionLine c st1 ;;
  buildHotspotPairConnections c st2.

(** [loadMapData]: the promise chain ends in [.catch], which reports the
    error and leaves the map without its hotspots and lines. *)
Inductive LoadOutcome : Type :=
| MapBuilt (st : State)
| InitFailed (e : Js.error).

Definition loadMapData (c : Config) (HOTSPOTS : list RawHotspot)
    (dots : list (R * R)) : LoadOutcome :=
  match buildDotsFromFile c HOTSPOTS dots with
  | Ok st => MapBuilt st
  | Throw e => InitFailed e
  end.

(* ================================================================== *)
(** * Hover influence engine                                           *)
(* ================================================================== *)

Definition isHovered (hovered : option nat) (id : nat) : bool :=
  match hovered with
  | Some j => Nat.eqb j id
  | None => false
  end.

Definition isNull {A : Type} (o : option A) : bool :=
  match o with
  | Some _ => false
  | None => true
  end.

(** The hysteresis of [handleHover]: from the first hit of the ray ([hits],
    [None] when the ray hits nothing) and the current [hoveredInstanceId]
    and [hoverCooldown], their next values. *)
Definition updateHovered (c : Config) (hits : option nat)
    (hovered : option nat) (cooldown : Z) : option nat * Z :=
  let next :=
    match hits with
    | Some id =>
        if negb (isHovered hovered id)
        then (Some id, hoverCooldownFrames c)
        else (hovered, cooldown)
    | None =>
        if (cooldown <=? 0)%Z then (None, cooldown) else (hovered, cooldown)
    end in
  (fst next, Z.max (snd next - 1) 0).

(** The callback of [dotPositions.forEach] in [handleHover]. *)
Definition liftDot (c : Config) (center p : Dot.t) : Dot.t :=
  let radius := radius (hover c) in
  let maxLift := maxLift (hover c) in
  let outerRadius := radius * 1.4 in
  let outerRadiusSq := outerRadius * outerRadius in
  let invRadius := 1 / radius in
  let dx := (Dot.x p - Dot.x center) * SPACING c in
  let dy := (Dot.y p - Dot.y center) * SPACING c in
  let d2 := dx * dx + dy * dy in
  if Js.ltb d2 outerRadiusSq then
    let t := sqrt d2 * invRadius in
    Dot.setTargetLift p (Rmax (Dot.targetLift p) (exp (- t * t) * maxLift))
  else p.

Definition setHover (st : State) (hovered : option nat) (cooldown : Z)
    : State :=
  Build_State (meshes st) (dotPositions st) (hotspotData st) (hotspotLine st)
              (hotspotPairLines st) hovered cooldown (liftActive st).

Definition setLifted (st : State) (dots : list Dot.t) : State :=
  Build_State (meshes st) dots (hotspotData st) (hotspotLine st)
              (hotspotPairLines st) (hoveredInstanceId st) (hoverCooldown st)
              true.

(** [handleHover()], given the first hit of the ray cast against
    [hoverProxyMesh].  [center.x] is read inside the loop over the dots, so
    a missing centre throws only when there is a dot to visit. *)
Definition handleHover (c : Config) (hits : option nat) (st : State)
    : result State :=
  match meshes st with
  | None => Ok st
  | Some _ =>
      let next :=
        updateHovered c hits (hoveredInstanceId st) (hoverCooldown st) in
      let st1 := setHover st (fst next) (snd next) in
      match fst next with
      | None => Ok st1
      | Some id =>
          match nth_error (dotPositions st1) id, dotPositions st1 with
          | Some center, dots => Ok (setLifted st1 (map (liftDot c center) dots))
          | None, [] => Ok (setLifted st1 [])
          | None, _ :: _ => Throw TypeError
          end
      end
  end.

(** The callback of [dotPositions.forEach] in [smoothLiftUpdate]: the dot
    after the tick, and whether its lift (and instance matrix) was written. *)
Definition easeDot (c : Config) (p : Dot.t) : Dot.t * bool :=
  let p1 := Dot.setTargetLift p (Dot.targetLift p * hoverFalloff c) in
  let delta := Dot.targetLift p1 - Dot.lift p1 in
  if Js.gtb (Rabs delta) (threshold (hover c)) then
    (Dot.setLift p1 (Dot.lift p1 + delta * easing (hover c)), true)
  else (p1, false).

(** [setMatrixAt(i, dummy.matrix)] for the dots that moved; an instance
    without a dot, or a dot without an instance, changes nothing. *)
Fixpoint easeMatrices (c : Config) (eased : list (Dot.t * bool))
    (matrices : list Vec3.t) : list Vec3.t :=
  match eased, matrices with
  | (p, moved) :: tl, m :: mtl =>
      (if moved then dotMatrix c p else m) :: easeMatrices c tl mtl
  | _, _ => matrices
  end.

Definition smoothLiftUpdate (c : Config) (st : State) : State :=
  match meshes st with
  | None => st
  | Some (dotMesh, hoverProxyMesh) =>
      if negb (liftActive st) && isNull (hoveredInstanceId st) then st
      else
        let eased := map (easeDot c) (dotPositions st) in
        let dirty := existsb snd eased in
        Build_State
          (Some (easeMatrices c eased dotMesh,
                 easeMatrices c eased hoverProxyMesh))
          (map fst eased) (hotspotData st) (hotspotLine st)
          (hotspotPairLines st) (hoveredInstanceId st) (hoverCooldown st)
          (if negb dirty && isNull (hoveredInstanceId st) then false
           else liftActive st)
  end.

(** One frame of [animate] as far as the dot field goes: [handleHover] then
    [smoothLiftUpdate].  ([syncHotspotLift], which follows, writes hotspot
    transforms and arcs only and reads the dots' lift.) *)
Definition animate (c : Config) (hits : option nat) (st : State)
    : result State :=
  st1 <- handleHover c hits st ;;
  Ok (smoothLiftUpdate c st1).

(** Successive frames, one ray-cast outcome per frame. *)
Fixpoint animateFrames (c : Config) (frames : list (option nat)) (st : State)
    : result State :=
  match frames with
  | [] => Ok st
  | hits :: tl =>
      st1 <- animate c hits st ;;
      animateFrames c tl st1
  end.

(* ================================================================== *)
(** * Notions used in the statements                                   *)
(* ================================================================== *)

(** A bound hotspot refers to an existing dot. *)
Definition boundTo (dots : list Dot.t) (hs : HotspotRecord) : Prop :=
  (0 <= dotIndex hs < Z.of_nat (List.length dots))%Z.

(** An endpoint id is found when it is a non-empty string that equals the id
    of some hotspot record up to the case of its letters. *)
Definition matchesId (s : string) (hs : HotspotRecord) : Prop :=
  toLowerCase (rawId (raw hs)) = toLowerCase s.

Definition idFound (hotspots : list HotspotRecord) (id : option string)
    : Prop :=
  exists s hs, id = Some s /\ s <> ""%string /\ In hs hotspots /\ matchesId s hs.

(** Both endpoints of a pair resolve. *)
Definition pairResolved (hotspots : list HotspotRecord) (p : ConnectionPair)
    : bool :=
  (0 <=? findHotspotIndexById hotspots (fromId p))%Z
  && (0 <=? findHotspotIndexById hotspots (toId p))%Z.

(** The map has been built and the hovered id, if any, is the id of a dot. *)
Definition fieldReady (st : State) : Prop :=
  meshes st <> None /\
  forall id, hoveredInstanceId st = Some id ->
             (id < List.length (dotPositions st))%nat.

(** A ray can only hit an instance of the proxy mesh, that is, a dot. *)
Definition hitInRange (st : State) (hits : option nat) : Prop :=
  forall id, hits = Some id -> (id < List.length (dotPositions st))%nat.

(** The hovered id and the cooldown after a sequence of frames. *)
Definition hoverTrace (c : Config) (frames : list (option nat))
    (start : option nat * Z) : option nat * Z :=
  fold_left (fun s hits => updateHovered c hits (fst s) (snd s)) frames start.

(** The distance between two dots in the map plane, in world units. *)
Definition planarDistance (c : Config) (p q : Dot.t) : R :=
  sqrt (((Dot.x p - Dot.x q) * SPACING c) * ((Dot.x p - Dot.x q) * SPACING c)
        + ((Dot.y p - Dot.y q) * SPACING c) * ((Dot.y p - Dot.y q) * SPACING c)).

(** The lift a hover centred at distance [d] asks of a dot. *)
Definition gaussianLift (c : Config) (d : R) : R :=
  maxLift (hover c) * exp (- (d / radius (hover c)) ^ 2).

(** The difference the easing tick compares with the threshold: the target
    lift after its decay, less the current lift. *)
Definition easeDelta (c : Config) (p : Dot.t) : R :=
  Dot.targetLift p * hoverFalloff c - Dot.lift p.

Definition withinThreshold (c : Config) (p : Dot.t) : Prop :=
  Rabs (easeDelta c p) <= threshold (hover c).

Definition liftsNonNegative (st : State) : Prop :=
  Forall (fun p => 0 <= Dot.lift p /\ 0 <= Dot.targetLift p) (dotPositions st).

(** The states the program goes through: the initial module state (frames
    already run while the map data loads), the dot field as created, then
    any sequence of bindings, line builds, hover passes and easing passes. *)
Inductive reachable (c : Config) : State -> Prop :=
| reach_initial : reachable c initialState
| reach_dots (dots : list (R * R)) : reachable c (dotField c dots)
| reach_bind (hotspotHeight idlePhaseStep : R) (type : string) (i : nat)
    (hs : RawHotspot) (st st' : State) :
    reachable c st ->
    bindHotspot hotspotHeight idlePhaseStep type i hs st = Ok st' ->
    reachable c st'
| reach_line (st st' : State) :
    reachable c st ->
    buildHotspotConnectionLine c st = Ok st' ->
    reachable c st'
| reach_pairs (st st' : State) :
    reachable c st ->
    buildHotspotPairConnections c st = Ok st' ->
    reachable c st'
| reach_hover (hits : option nat) (st st' : State) :
    reachable c st ->
    handleHover c hits st = Ok st' ->
    reachable c st'
| reach_ease (st : State) :
    reachable c st -> reachable c (smoothLiftUpdate c st).

(* ================================================================== *)
(** * Worked examples                                                  *)
(* ================================================================== *)

(** A small configuration for worked examples: unit spacing, hover radius 5
    (outer radius 7), full lift 1, halving falloff; [cooldownFrames] is the
    hover cooldown. *)
Definition exampleLine : LineCfg :=
  {| enabled := true; drawSequential := Some true; thickness := 0.02;
     segments := 3; arcHeight := 1; color := 0; opacity := 1;
     heightOffset := 0; radialSegments := 6 |}.

Definition exampleConfig (cooldownFrames : Z) : Config :=
  {| MAP_OFFSET_X := 0; DOT_BASE_Y := 0; DOT_RADIUS := 0.09;
     DOT_HEIGHT := 0.3; SPACING := 1; radiusMultiplier := 1.5;
     heightMultiplier := 2.2; hotspotsRadialSegments := 12;
     hotspotsDomeHeightRatio := 0.5; hotspotsDomeSegments := 6;
     layoutActive := None; layoutPresets := []; phaseStep := None;
     connectionLine := exampleLine; connectionPairs := None;
     hover := {| radius := 5; maxLift := 1; easing := 1; threshold := 0.25 |};
     hoverCooldownFrames := cooldownFrames; hoverFalloff := 0.5 |}.

(** The configuration of the examples with an active preset [ring], an
    orbital solid with the given [ringScale]. *)
Definition orbitalPreset (scale : R) : Preset :=
  {| geometry := Some "orbital"%string; topScale := None;
     bottomScale := None; heightScale := None; presetRadialSegments := None;
     presetDomeHeightRatio := None; presetDomeSegments := None;
     bodyHeightRatio := None; bodyTopScale := None; bodyBottomScale := None;
     ringScale := Some scale; ringThickness := None; ringOffset := None;
     tier1HeightRatio := None; tier2HeightRatio := None;
     tier1RadiusScale := None; tier2RadiusScale := None;
     tipRadiusScale := None |}.

Definition orbitalConfig (scale : R) : Config :=
  {| MAP_OFFSET_X := 0; DOT_BASE_Y := 0; DOT_RADIUS := 0.09;
     DOT_HEIGHT := 0.3; SPACING := 1; radiusMultiplier := 1.5;
     heightMultiplier := 2.2; hotspotsRadialSegments := 12;
     hotspotsDomeHeightRatio := 0.5; hotspotsDomeSegments := 6;
     layoutActive := Some "ring"%string;
     layoutPresets := [("ring"%string, orbitalPreset scale)];
     phaseStep := None;
     connectionLine := exampleLine; connectionPairs := None;
     hover := {| radius := 5; maxLift := 1; easing := 1; threshold := 0.25 |};
     hoverCooldownFrames := 3; hoverFalloff := 0.5 |}.

(** The same configuration with a list of manual pairs. *)
Definition withConnectionPairs (c : Config) (pairs : list ConnectionPair)
    : Config :=
  {| MAP_OFFSET_X := MAP_OFFSET_X c; DOT_BASE_Y := DOT_BASE_Y c;
     DOT_RADIUS := DOT_RADIUS c; DOT_HEIGHT := DOT_HEIGHT c;
     SPACING := SPACING c; radiusMultiplier := radiusMultiplier c;
     heightMultiplier := heightMultiplier c;
     hotspotsRadialSegments := hotspotsRadialSegments c;
     hotspotsDomeHeightRatio := hotspotsDomeHeightRatio c;
     hotspotsDomeSegments := hotspotsDomeSegments c;
     layoutActive := layoutActive c; layoutPresets := layoutPresets c;
     phaseStep := phaseStep c; connectionLine := connectionLine c;
     connectionPairs := Some pairs; hover := hover c;
     hoverCooldownFrames := hoverCooldownFrames c;
     hoverFalloff := hoverFalloff c |}.

(** A built one-dot field in mid-relaxation: lift and target lift 1/2, no
    dot hovered, engine active. *)
Definition relaxingField : State :=
  Build_State (Some ([Vec3.mk 0 0.65 0], [Vec3.mk 0 0.65 0]))
              [Dot.mk 0 0 0.5 0.5 false (-1)] [] None [] None 0%Z true.

(** A dot resting a full threshold above its target: lift 1/4, target lift
    0, threshold 1/4. *)
Definition residualField : State :=
  Build_State (Some ([Vec3.mk 0 0.4 0], [Vec3.mk 0 0.4 0]))
              [Dot.mk 0 0 0.25 0 false (-1)] [] None [] None 0%Z true.

(** Three dots in a row, each hosting a hotspot. *)
Definition exampleHotspot (id : string) (dot : Z) (slot : nat)
    : HotspotRecord :=
  {| raw := {| rawId := id; lat := Some 0; lon := Some 0; label := id;
               message := ""%string; type := "global"%string |};
     dotIndex := dot; meshType := "global"%string; meshInstanceId := slot;
     height := 0.66; idleLift := 0; animationPhase := 0 |}.

Definition chainField : State :=
  Build_State
    (Some ([Vec3.mk 0 0.15 0; Vec3.mk 7 0.15 0; Vec3.mk 14 0.15 0],
           [Vec3.mk 0 0.15 0; Vec3.mk 7 0.15 0; Vec3.mk 14 0.15 0]))
    [Dot.mk 0 0 0 0 true 0; Dot.mk 7 0 0 0 true 1; Dot.mk 14 0 0 0 true 2]
    [exampleHotspot "SIN" 0 0; exampleHotspot "hkg" 1 1;
     exampleHotspot "Tok" 2 2]
    None [] None 0%Z false.

(** One pair that resolves (ids in another case, own colour) and one whose
    second endpoint is unknown. *)
Definition examplePairs : list ConnectionPair :=
  [ {| fromId := Some "sin"%string; toId := Some "HKG"%string;
       pairColor := Some 255; pairOpacity := None; pairArcHeight := None;
       pairSegments := None; pairThickness := None;
       pairRadialSegments := None; pairHeightOffset := None |};
    {| fromId := Some "sin"%string; toId := Some "nowhere"%string;
       pairColor := None; pairOpacity := None; pairArcHeight := None;
       pairSegments := None; pairThickness := None;
       pairRadialSegments := None; pairHeightOffset := None |} ].

(** A pair with a style of its own: colour, opacity, two segments and a
    vertical offset of 5, where the base offset is 0. *)
Definition offsetPair : ConnectionPair :=
  {| fromId := Some "sin"%string; toId := Some "HKG"%string;
     pairColor := Some 255; pairOpacity := Some 0.5; pairArcHeight := None;
     pairSegments := Some 2; pairThickness := None;
     pairRadialSegments := None; pairHeightOffset := Some 5 |}.

Definition offsetPairs : list ConnectionPair :=
  [ offsetPair;
    {| fromId := Some "sin"%string; toId := Some "nowhere"%string;
       pairColor := None; pairOpacity := None; pairArcHeight := None;
       pairSegments := None; pairThickness := None;
       pairRadialSegments := None; pairHeightOffset := None |} ].

(* ================================================================== *)
(** * Further notions used in the statements                           *)
(* ================================================================== *)


(** The groups the grouping loop leaves when it does not throw. *)
Definition groupedOf (HOTSPOTS : list RawHotspot)
    : list (string * list RawHotspot) :=
  fold_left (fun grouped hs => pushGroup hs grouped) HOTSPOTS [].

(** The distinct strings of a list, in the order of their first
    occurrence. *)
Fixpoint firstOccurrences (l : list string) : list string :=
  match l with
  | [] => []
  | k :: tl =>
      k :: filter (fun other => negb (String.eqb other k)) (firstOccurrences tl)
  end.

(** No hotspot has a type that is the name of a member of
    [Object.prototype]. *)
Definition ownTypes (HOTSPOTS : list RawHotspot) : bool :=
  forallb (fun hs => negb (inheritedKey (type hs))) HOTSPOTS.

(** The material [buildHotspotPairConnections] makes for a merged
    configuration. *)
Definition materialOf (cfg : LineCfg) : Material :=
  {| materialColor := color cfg;
     materialTransparent := Js.ltb (opacity cfg) 1;
     materialOpacity := opacity cfg |}.

(** Every character of the string is an ASCII character. *)
Fixpoint isAscii (s : string) : bool :=
  match s with
  | EmptyString => true
  | String c tl => (nat_of_ascii c <? 128)%nat && isAscii tl
  end.

Definition asciiId (id : option string) : Prop :=
  forall s, id = Some s -> isAscii s = true.

(** The hotspot has a finite latitude and longitude. *)
Definition located (hs : RawHotspot) : Prop :=
  lat hs <> None /\ lon hs <> None.

(** [hs.type === k] *)
Definition typeIs (k : string) (hs : RawHotspot) : bool :=
  String.eqb k (type hs).

(** [grouped[k]] *)
Fixpoint groupOf (k : string) (grouped : list (string * list RawHotspot))
    : option (list RawHotspot) :=
  match grouped with
  | [] => None
  | (k', l) :: tl => if String.eqb k' k then Some l else groupOf k tl
  end.

(** The key under which hit resolution looks a record up: its mesh group
    and its instance slot in that group. *)
Definition slotKey (r : HotspotRecord) : string * nat :=
  (meshType r, meshInstanceId r).

(** What the grouping loop keeps true after the hotspots [P]: the group
    names are distinct and the group of a type holds the hotspots of that
    type, in their order. *)
Definition groupedFrom (P : list RawHotspot)
    (grouped : list (string * list RawHotspot)) : Prop :=
  NoDup (map fst grouped) /\
  forall k, groupOf k grouped
            = match filter (typeIs k) P with
              | [] => None
              | l => Some l
              end.

(** The record [bindHotspot] pushes for the hotspot [hs], the [i]-th of its
    type, bound to the dot [n]. *)
Definition boundRecord (hotspotHeight idlePhaseStep : R) (type : string)
    (i : nat) (hs : RawHotspot) (n : nat) : HotspotRecord :=
  {| raw := hs;
     dotIndex := Z.of_nat n;
     meshType := type;
     meshInstanceId := i;
     height := hotspotHeight;
     idleLift := 0;
     animationPhase := (IZR (Z.of_nat n) + INR i) * idlePhaseStep |}.

(** The slot keys the binding loop hands out for the groups. *)
Definition groupKeys (grouped : list (string * list RawHotspot))
    : list (string * nat) :=
  flat_map (fun g => map (fun j => (fst g, j)) (seq 0 (List.length (snd g))))
           grouped.

(** The record sits in the slot of its hotspot: slot [j] of the group of a
    type holds the [j]-th hotspot of that type. *)
Definition inSlotOf (grouped : list (string * list RawHotspot))
    (r : HotspotRecord) : Prop :=
  exists l, In (meshType r, l) grouped /\
            nth_error l (meshInstanceId r) = Some (raw r).

(** Record [k] is the last record of [hotspots] bound to the dot [n]. *)
Definition lastBoundTo (hotspots : list HotspotRecord) (n k : nat) : Prop :=
  exists r,
    nth_error hotspots k = Some r /\
    dotIndex r = Z.of_nat n /\
    forall j r', (k < j)%nat -> nth_error hotspots j = Some r' ->
                 dotIndex r' <> Z.of_nat n.

(** The back-reference of every dot agrees with the records: a dot that
    hosts hotspots is flagged and points at the last record bound to it, a
    dot that hosts none is not flagged and carries [-1]. *)
Definition backReferencesConsistent (st : State) : Prop :=
  forall (n : nat) (d : Dot.t),
    nth_error (dotPositions st) n = Some d ->
    (Dot.isHotspot d = true /\
     exists k, Dot.hotspotIndex d = Z.of_nat k
               /\ lastBoundTo (hotspotData st) n k)
    \/ (Dot.isHotspot d = false /\ Dot.hotspotIndex d = (-1)%Z /\
        forall r, In r (hotspotData st) -> dotIndex r <> Z.of_nat n).

(** Every lift and target lift lies between 0 and [maxLift]. *)
Definition liftsBounded (c : Config) (st : State) : Prop :=
  Forall (fun p => 0 <= Dot.lift p <= maxLift (hover c)
                   /\ 0 <= Dot.targetLift p <= maxLift (hover c))
         (dotPositions st).

(** Both dot meshes show every dot at its current lift. *)
Definition meshesInSync (c : Config) (st : State) : Prop :=
  meshes st = Some (map (dotMatrix c) (dotPositions st),
                    map (dotMatrix c) (dotPositions st)).

(** No part of the solid has a height or a radius of zero or less. (The
    major radius of the orbital ring is a free multiple of the core radius
    and is not part of this.) *)
Definition solidNonDegenerate (s : Solid) : Prop :=
  match s with
  | SolidCrystal g =>
      0 < bodyHeight g /\ 0 < crystalTipHeight g /\
      0 < bodyTop g /\ 0 < bodyBottom g /\ 0 < crystalTipRadius g
  | SolidBeacon g =>
      0 < tier1Height g /\ 0 < tier2Height g /\ 0 < beaconTipHeight g /\
      0 < tier1Radius g /\ 0 < tier2Radius g /\ 0 < beaconTipRadius g
  | SolidOrbital g =>
      0 < cylinderHeight (core g) /\ 0 < domeHeight (core g) /\
      0 < dcTopRadius (core g) /\ 0 < dcBottomRadius (core g) /\
      0 < tubeRadius g
  | SolidDomedCylinder g =>
      0 < cylinderHeight g /\ 0 < domeHeight g /\
      0 < dcTopRadius g /\ 0 < dcBottomRadius g
  end.

(* ================================================================== *)
(** * Per-frame hotspot synchronisation                                *)
(* ================================================================== *)

(** [updateHotspotConnectionLine()]: replaces the geometry of the sequential
    line, if there is one. *)
Definition updateHotspotConnectionLine (c : Config) (st : State)
    : result State :=
  if negb (isSequentialConnectionEnabled c)
  then Ok (clearHotspotConnectionLine st)
  else
    match hotspotLine st with
    | None => Ok st
    | Some _ =>
        points <- collectHotspotArcPoints c st ;;
        if (List.length points <? 2)%nat then Ok st
        else Ok (setHotspotLine st
                   (Some (buildArcTubeGeometry points (connectionLine c))))
    end.

(** The callback of [hotspotPairLines.forEach] in
    [updateHotspotPairConnections]: the entry with its geometry replaced. *)
Definition updatePairLine (c : Config) (st : State) (entry : PairLine)
    : result PairLine :=
  a <- hotspotWorldPositionAt c st (fromIndex entry) ;;
  b <- hotspotWorldPositionAt c st (toIndex entry) ;;
  let points := collectArcPointsBetween a b (cfg entry) in
  Ok {| mesh := buildArcTubeGeometry points (cfg entry);
        material := material entry;
        fromIndex := fromIndex entry;
        toIndex := toIndex entry;
        cfgFromId := cfgFromId entry;
        cfgToId := cfgToId entry;
        cfg := cfg entry |}.

Fixpoint forEachPairLine (c : Config) (st : State) (lines : list PairLine)
    : result (list PairLine) :=
  match lines with
  | [] => Ok []
  | entry :: tl =>
      entry1 <- updatePairLine c st entry ;;
      tl1 <- forEachPairLine c st tl ;;
      Ok (entry1 :: tl1)
  end.

Definition updateHotspotPairConnections (c : Config) (st : State)
    : result State :=
  if negb (enabled (connectionLine c)) then
    Ok (clearHotspotPairConnections st)
  else
    match hotspotPairLines st with
    | [] => Ok st
    | lines =>
        lines1 <- forEachPairLine c st lines ;;
        Ok (setHotspotPairLines st lines1)
    end.

(** [CONFIG.hotspots.effects]; the section and each of its two parts may be
    absent. *)
Record IdleCfg : Type := {
  idleEnabled : bool;
  idleSpeed : R;
  idleAmplitude : R
}.

Record GlowCfg : Type := {
  glowEnabled : bool;
  glowRadiusMultiplier : option R;
  glowHeightFactor : option R;
  glowYOffset : option R;
  glowPulseAmplitude : option R;
  glowPulseSpeed : option R
}.

Record EffectsCfg : Type := {
  idle : option IdleCfg;
  glow : option GlowCfg
}.

(** [CONFIG.hotspots.effects?.idle] and [CONFIG.hotspots.effects?.glow] *)
Definition idleOf (fx : option EffectsCfg) : option IdleCfg :=
  match fx with
  | Some e => idle e
  | None => None
  end.

Definition glowOf (fx : option EffectsCfg) : option GlowCfg :=
  match fx with
  | Some e => glow e
  | None => None
  end.

(** [Boolean(CONFIG.hotspots.effects?.idle?.enabled)] and the same for the
    glow. *)
Definition isIdleEnabled (fx : option EffectsCfg) : bool :=
  match idleOf fx with
  | Some i => idleEnabled i
  | None => false
  end.

Definition isGlowEnabled (fx : option EffectsCfg) : bool :=
  match glowOf fx with
  | Some g => glowEnabled g
  | None => false
  end.

Definition getHotspotIdleLift (fx : option EffectsCfg) (hs : HotspotRecord)
    (elapsedTime : R) : R :=
  match idleOf fx with
  | Some idleCfg =>
      if idleEnabled idleCfg then
        sin (elapsedTime * idleSpeed idleCfg + animationPhase hs)
        * idleAmplitude idleCfg
      else 0
  | None => 0
  end.

(** The entry [buildDotsFromFile] stores in [hotspotHaloMeshes] for every
    type when the glow is enabled. *)
Record HaloEntry : Type := {
  baseScale : R;
  haloHeightOffset : R;
  pulseAmplitude : R;
  pulseSpeed : R
}.

Definition haloEntryOf (c : Config) (glowCfg : GlowCfg) : HaloEntry :=
  let built := buildHotspotGeometryFromLayout c in
  let hotspotHeight := snd (fst built) in
  let hotspotLayoutPreset := snd built in
  {| baseScale :=
       DOT_RADIUS c * radiusMultiplier c
       * Rmax (orElse (topScale hotspotLayoutPreset) 1)
              (orElse (bottomScale hotspotLayoutPreset) 1)
       * orElse (glowRadiusMultiplier glowCfg) 2.2;
     haloHeightOffset :=
       hotspotHeight * orElse (glowHeightFactor glowCfg) 0.14
       + orElse (glowYOffset glowCfg) 0.02;
     pulseAmplitude := orElse (glowPulseAmplitude glowCfg) 0.08;
     pulseSpeed := orElse (glowPulseSpeed glowCfg) 1.3 |}.

(** What [syncHotspotLift] writes for one hotspot: the instance position in
    the mesh of its type at its slot and, with the glow enabled, the position
    and the scale of its halo. *)
Record HotspotTransform : Type := {
  trType : string;
  trSlot : nat;
  trPosition : Vec3.t;
  trHalo : option (Vec3.t * R)
}.

Definition setIdleLift (hs : HotspotRecord) (v : R) : HotspotRecord :=
  {| raw := raw hs; dotIndex := dotIndex hs; meshType := meshType hs;
     meshInstanceId := meshInstanceId hs; height := height hs;
     idleLift := v; animationPhase := animationPhase hs |}.

(** The callback of [hotspotData.forEach] in [syncHotspotLift]: the record
    with its new [idleLift] and the transforms written.  The mesh (and halo
    mesh) of the record's type exists: [buildDotsFromFile] registers it in
    the call that binds the record. *)
Definition syncHotspot (c : Config) (fx : option EffectsCfg) (elapsedTime : R)
    (dots : list Dot.t) (hs : HotspotRecord)
    : result (HotspotRecord * HotspotTransform) :=
  let idleLift := getHotspotIdleLift fx hs elapsedTime in
  match Js.index dots (dotIndex hs) with
  | None => Throw TypeError
  | Some p =>
      let totalLift := Dot.lift p + idleLift in
      let position :=
        Vec3.mk (getMapWorldX c (Dot.x p))
                (getCylinderCenterY c (height hs) totalLift)
                (- Dot.y p * SPACING c) in
      let halo :=
        match glowOf fx with
        | Some glowCfg =>
            if glowEnabled glowCfg then
              let haloEntry := haloEntryOf c glowCfg in
              let pulse :=
                1 + sin (elapsedTime * pulseSpeed haloEntry
                         + animationPhase hs)
                    * pulseAmplitude haloEntry in
              Some (Vec3.mk (getMapWorldX c (Dot.x p))
                            (getCylinderCenterY c (height hs) totalLift
                             + haloHeightOffset haloEntry)
                            (- Dot.y p * SPACING c),
                    baseScale haloEntry * pulse)
            else None
        | None => None
        end in
      Ok (setIdleLift hs idleLift,
          {| trType := meshType hs; trSlot := meshInstanceId hs;
             trPosition := position; trHalo := halo |})
  end.

Fixpoint syncHotspots (c : Config) (fx : option EffectsCfg) (elapsedTime : R)
    (dots : list Dot.t) (hotspots : list HotspotRecord)
    : result (list HotspotRecord * list HotspotTransform) :=
  match hotspots with
  | [] => Ok ([], [])
  | hs :: tl =>
      r <- syncHotspot c fx elapsedTime dots hs ;;
      rest <- syncHotspots c fx elapsedTime dots tl ;;
      Ok (fst r :: fst rest, snd r :: snd rest)
  end.

Definition setHotspotData (st : State) (hotspots : list HotspotRecord)
    : State :=
  Build_State (meshes st) (dotPositions st) hotspots (hotspotLine st)
              (hotspotPairLines st) (hoveredInstanceId st) (hoverCooldown st)
              (liftActive st).

(** [syncHotspotLift(elapsedTime)]: the state after it and the transforms it
    wrote. *)
Definition syncHotspotLift (c : Config) (fx : option EffectsCfg)
    (elapsedTime : R) (st : State) : result (State * list HotspotTransform) :=
  r <- syncHotspots c fx elapsedTime (dotPositions st) (hotspotData st) ;;
  st1 <- updateHotspotConnectionLine c (setHotspotData st (fst r)) ;;
  st2 <- updateHotspotPairConnections c st1 ;;
  Ok (st2, snd r).

(** One whole frame of [animate] at the time [elapsedTime]. *)
Definition animateFrame (c : Config) (fx : option EffectsCfg) (elapsedTime : R)
    (hits : option nat) (st : State) : result (State * list HotspotTransform) :=
  st1 <- handleHover c hits st ;;
  let st2 := smoothLiftUpdate c st1 in
  if liftActive st2 || isIdleEnabled fx || isGlowEnabled fx
  then syncHotspotLift c fx elapsedTime st2
  else Ok (st2, []).

(** The hotspot records of two states carry the same ids, in the same
    order. *)
Definition sameHotspotIds (st0 st : State) : Prop :=
  map (fun r => rawId (raw r)) (hotspotData st)
  = map (fun r => rawId (raw r)) (hotspotData st0).

(** Successive whole frames, each with its time and its ray-cast outcome;
    the transforms written are dropped. *)
Fixpoint animateFrameSeq (c : Config) (fx : option EffectsCfg)
    (frames : list (R * option nat)) (st : State) : result State :=
  match frames with
  | [] => Ok st
  | (elapsedTime, hits) :: tl =>
      r <- animateFrame c fx elapsedTime hits st ;;
      animateFrameSeq c fx tl (fst r)
  end.

(** The arcs at hand are the ones a build from scratch would give now:
    rebuilding the sequential line and the pair lines changes nothing. *)
Definition arcsCurrent (c : Config) (st : State) : Prop :=
  buildHotspotConnectionLine c st = Ok st /\
  buildHotspotPairConnections c st = Ok st.

(** Two dots at the same place: same grid position, same lift. *)
Definition samePlace (p q : Dot.t) : Prop :=
  Dot.x q = Dot.x p /\ Dot.y q = Dot.y p /\ Dot.lift q = Dot.lift p.

(** What every frame keeps true of the state, from the built map on. *)
Definition frameInvariant (c : Config) (st : State) : Prop :=
  fieldReady st /\
  Forall (boundTo (dotPositions st)) (hotspotData st) /\
  arcsCurrent c st /\
  (hoveredInstanceId st <> None -> liftActive st = true).

(** The record after [syncHotspotLift] at the time [elapsedTime]. *)
Definition syncedRecord (fx : option EffectsCfg) (elapsedTime : R)
    (hs : HotspotRecord) : HotspotRecord :=
  setIdleLift hs (getHotspotIdleLift fx hs elapsedTime).

(** The transform written for [hs] puts the hotspot on its dot [p]: over
    the dot in plan, and above the dot's own instance by half the difference
    of the two heights plus the idle lift. *)
Definition ridesDot (c : Config) (fx : option EffectsCfg) (elapsedTime : R)
    (dots : list Dot.t) (hs : HotspotRecord) (tr : HotspotTransform) : Prop :=
  exists p,
    Js.index dots (dotIndex hs) = Some p /\
    trType tr = meshType hs /\
    trSlot tr = meshInstanceId hs /\
    Vec3.x (trPosition tr) = Vec3.x (dotMatrix c p) /\
    Vec3.z (trPosition tr) = Vec3.z (dotMatrix c p) /\
    Vec3.y (trPosition tr)
    = Vec3.y (dotMatrix c p) + (height hs - DOT_HEIGHT c) / 2
      + getHotspotIdleLift fx hs elapsedTime.

(** Three sites of two types on a row of three dots, and an idle effect. *)
Definition exampleSites : list RawHotspot :=
  [ {| rawId := "SIN"; lat := Some 1.35; lon := Some 103.8; label := "Singapore";
       message := ""; type := "global" |};
    {| rawId := "HKG"; lat := Some 22.3; lon := Some 114.2; label := "Hong Kong";
       message := ""; type := "regional" |};
    {| rawId := "TOK"; lat := Some 35.7; lon := Some 139.7; label := "Tokyo";
       message := ""; type := "global" |} ]%string.

Definition exampleGrid : list (R * R) := [(0, 0); (7, 0); (14, 0)].

(** A hotspot of a given type at the origin of the map. *)
Definition siteOfType (type : string) : RawHotspot :=
  {| rawId := type; lat := Some 0; lon := Some 0; label := type;
     message := ""; type := type |}.

Definition exampleEffects : option EffectsCfg :=
  Some {| idle := Some {| idleEnabled := true; idleSpeed := 1;
                          idleAmplitude := 0.05 |};
          glow := None |}.

(* ================================================================== *)
(** * Loading the hotspots, picking one, and its tooltip               *)
(* ================================================================== *)

(** [{ ...h, type }] *)
Definition withType (h : RawHotspot) (type : string) : RawHotspot :=
  {| rawId := rawId h; lat := lat h; lon := lon h; label := label h;
     message := message h; type := type |}.

(** [loadHotspots(type, url)], given the array [data] that the file at
    [url] parses to. *)
Definition loadHotspots (type : string) (data : list RawHotspot)
    : list RawHotspot :=
  map (fun h => withType h type) data.

(** [HOTSPOTS] after the first [.then] of [loadMapData], which empties it
    and pushes the loaded groups: [sources] lists [HOTSPOT_DATA_SOURCES]
    with, for every source, its type and the parsed content of its file
    ([Promise.all] keeps the order of the sources). *)
Definition loadedHotspots (sources : list (string * list RawHotspot))
    : list RawHotspot :=
  List.concat (map (fun s => loadHotspots (fst s) (snd s)) sources).

Definition TOOLTIP_MARGIN : R := 12.
Definition TOOLTIP_CURSOR_OFFSET : R := 14.

(** [Math.round]: the nearest integer, a half rounded up. *)
Definition mathRound (x : R) : Z := Zfloor (x + 1 / 2).

(** [tooltip.getBoundingClientRect()], as far as it is read. *)
Record Rect : Type := {
  rectWidth : R;
  rectHeight : R
}.

(** What the tooltip code reads of the page: the size of the window, the
    last pointer position ([pointerClientX], [pointerClientY]) and the box
    the layout gives the tooltip for a content. *)
Record Page : Type := {
  innerWidth : R;
  innerHeight : R;
  pointerClientX : R;
  pointerClientY : R;
  tooltipRect : string -> Rect
}.

(** [positionTooltip(clientX, clientY)]: the [left] and [top] it writes to
    the style of the tooltip, in pixels, for a tooltip whose box is
    [rect]. *)
Definition positionTooltip (page : Page) (rect : Rect) (clientX clientY : R)
    : Z * Z :=
  let tooltipWidth := rectWidth rect in
  let tooltipHeight := rectHeight rect in
  let left := clientX + TOOLTIP_CURSOR_OFFSET in
  let top := clientY - tooltipHeight - TOOLTIP_CURSOR_OFFSET in
  let top :=
    if Js.ltb top TOOLTIP_MARGIN then clientY + TOOLTIP_CURSOR_OFFSET
    else top in
  let maxLeft := innerWidth page - tooltipWidth - TOOLTIP_MARGIN in
  let maxTop := innerHeight page - tooltipHeight - TOOLTIP_MARGIN in
  let left :=
    Rmin (Rmax left TOOLTIP_MARGIN) (Rmax TOOLTIP_MARGIN maxLeft) in
  let top :=
    Rmin (Rmax top TOOLTIP_MARGIN) (Rmax TOOLTIP_MARGIN maxTop) in
  (mathRound left, mathRound top).









(** Two data sources, the page of the worked examples, and a ray that
    misses the first mesh and hits instance 1 of the second. *)
Definition exampleSources : list (string * list RawHotspot) :=
  [ ("regional",
     [ {| rawId := "HKG"; lat := Some 22.3; lon := Some 114.2; label := "Hong Kong";
          message := "Regional hub"; type := "" |} ]);
    ("global",
     [ {| rawId := "SIN"; lat := Some 1.35; lon := Some 103.8; label := "Singapore";
          message := "Head office"; type := "" |};
       {| rawId := "TOK"; lat := Some 35.7; lon := Some 139.7; label := "Tokyo";
          message := "Sales"; type := "" |} ]) ]%string.



(* ================================================================== *)
(** * Settings revival                                                 *)
(* ================================================================== *)


(** A value as [JSON.parse] gives it.  The entries of an object are its own
    properties in the order of [Object.entries]; their keys are distinct. *)
#[local] Unset Elimination Schemes.
#[local] Set Elimination Schemes.














(* ================================================================== *)
(** * Map focus                                                        *)
(* ================================================================== *)

(** The state of the scroll-trap prevention: [controls.enabled],
    [mapActive], whether the overlay is hidden
    ([mapOverlay.style.display = "none"]) and [isPointerDown]. *)
Record MapFocus : Type := {
  controlsEnabled : bool;
  mapActive : bool;
  overlayHidden : bool;
  isPointerDown : bool
}.

(** The state the script sets up before any event. *)
Definition initialFocus : MapFocus :=
  {| controlsEnabled := false; mapActive := false; overlayHidden := false;
     isPointerDown := false |}.

Definition activateMap (s : MapFocus) : MapFocus :=
  {| controlsEnabled := true; mapActive := true; overlayHidden := true;
     isPointerDown := isPointerDown s |}.

Definition deactivateMap (s : MapFocus) : MapFocus :=
  {| controlsEnabled := false; mapActive := false; overlayHidden := false;
     isPointerDown := isPointerDown s |}.

(** The events with a listener that touches the focus state: [click] and
    [touchend] on the overlay, [pointerleave] on the container, [pointerup]
    on the window, [pointerdown] on the canvas, [keydown] on the
    document. *)
Inductive FocusEvent : Type :=
| OverlayClick
| OverlayTouchEnd
| ContainerPointerLeave
| WindowPointerUp
| CanvasPointerDown
| KeyDown (key : string).

Definition setPointerDown (s : MapFocus) (down : bool) : MapFocus :=
  {| controlsEnabled := controlsEnabled s; mapActive := mapActive s;
     overlayHidden := overlayHidden s; isPointerDown := down |}.

(** What the listener of the event does to the focus state. *)
Definition dispatch (s : MapFocus) (e : FocusEvent) : MapFocus :=
  match e with
  | OverlayClick => activateMap s
  | OverlayTouchEnd => activateMap s
  | ContainerPointerLeave =>
      if isPointerDown s then s else deactivateMap s
  | WindowPointerUp => setPointerDown s false
  | CanvasPointerDown => setPointerDown s true
  | KeyDown key =>
      if String.eqb key "Escape" && mapActive s then deactivateMap s else s
  end.

Definition dispatchAll (events : list FocusEvent) (s : MapFocus) : MapFocus :=
  fold_left dispatch events s.

Definition isActivation (e : FocusEvent) : bool :=
  match e with
  | OverlayClick | OverlayTouchEnd => true
  | _ => false
  end.

(** Controls, [mapActive] and the overlay change together. *)
Definition focusCoherent (s : MapFocus) : Prop :=
  controlsEnabled s = mapActive s /\ overlayHidden s = mapActive s.

(* ================================================================== *)
(** * Properties of the geometry factory                               *)
(* ================================================================== *)

(** Case analysis on every [Rmax] and [Rmin] of the goal, then linear
    arithmetic. *)
Ltac minmax :=
  unfold Rmax, Rmin in *; repeat destruct Rle_dec; try lra.

Section GeometryFactory.

Variables (topRadius bottomRadius radius height domeHeightRatio : R).
Variable preset : Preset.

Lemma domed_ratio_bounds :
  0.08 <= dcRatio (createDomedCylinderGeometry topRadius bottomRadius
                     height domeHeightRatio) <= 0.7.
Proof. cbn. minmax. Qed.

Lemma crystal_ratio_bounds :
  0.35 <= bodyRatio (createCrystalHotspotGeometry radius height preset)
       <= 0.82.
Proof. cbn. minmax. Qed.

Lemma beacon_ratio_bounds :
  let g := createBeaconHotspotGeometry radius height preset in
  0.2 <= tier1Ratio g <= 0.7 /\ 0.15 <= tier2Ratio g <= 0.55.
Proof. cbn. split; minmax. Qed.

(** Every part of the crystal and of the beacon is at least 0.04 high. *)
Lemma part_heights_floored :
  let k := createCrystalHotspotGeometry radius height preset in
  let b := createBeaconHotspotGeometry radius height preset in
  0.04 <= bodyHeight k /\ 0.04 <= crystalTipHeight k /\
  0.04 <= tier1Height b /\ 0.04 <= tier2Height b /\
  0.04 <= beaconTipHeight b.
Proof. cbn. repeat split; apply Rmax_l. Qed.

(** The stacked parts of the crystal reach from [-height / 2] up:
    the extent between the body's base and the tip's apex is the sum of the
    part heights. *)
Lemma crystal_extent :
  let k := createCrystalHotspotGeometry radius height preset in
  bodyCenterY k - bodyHeight k / 2 = - height / 2 /\
  (crystalTipCenterY k + crystalTipHeight k / 2)
  - (bodyCenterY k - bodyHeight k / 2)
  = assembledHeight (SolidCrystal k).
Proof. cbn. split; lra. Qed.

Lemma beacon_extent :
  let b := createBeaconHotspotGeometry radius height preset in
  tier1CenterY b - tier1Height b / 2 = - height / 2 /\
  (beaconTipCenterY b + beaconTipHeight b / 2)
  - (tier1CenterY b - tier1Height b / 2)
  = assembledHeight (SolidBeacon b).
Proof. cbn. split; lra. Qed.

(** [Rmax floor v] is [v] exactly when [v] is not below the floor. *)
Lemma floored_sum (floor used total : R) :
  total <= used + Rmax floor (total - used) /\
  (used + Rmax floor (total - used) = total <-> floor <= total - used).
Proof.
  split; [assert (H := Rmax_r floor (total - used)); lra |].
  split; intros H.
  - unfold Rmax in H. destruct Rle_dec; lra.
  - rewrite Rmax_right; lra.
Qed.

Lemma domed_height_exact :
  0.08 <= height ->
  assembledHeight
    (SolidDomedCylinder
       (createDomedCylinderGeometry topRadius bottomRadius height
          domeHeightRatio)) = height.
Proof.
  intros Hh. cbn.
  assert (Hd : Rmin (topRadius * Rmax 0.08 (Rmin domeHeightRatio 0.7))
                    (height * 0.45) <= height * 0.45) by apply Rmin_r.
  rewrite Rmax_right; lra.
Qed.

Lemma orbital_height_exact :
  0.08 <= height ->
  assembledHeight
    (SolidOrbital
       (createOrbitalHotspotGeometry topRadius bottomRadius height
          domeHeightRatio preset)) = height.
Proof. exact domed_height_exact. Qed.

Lemma crystal_height :
  let k := createCrystalHotspotGeometry radius height preset in
  height <= assembledHeight (SolidCrystal k) /\
  (assembledHeight (SolidCrystal k) = height
   <-> 0.04 <= height - bodyHeight k).
Proof. cbn. apply floored_sum. Qed.

Lemma beacon_height :
  let b := createBeaconHotspotGeometry radius height preset in
  height <= assembledHeight (SolidBeacon b) /\
  (assembledHeight (SolidBeacon b) = height
   <-> 0.04 <= height - tier1Height b - tier2Height b).
Proof.
  cbn.
  set (t1 := Rmax 0.04 (height * _)).
  set (t2 := Rmax 0.04 (height * _)).
  destruct (floored_sum 0.04 (t1 + t2) height) as [H1 H2].
  replace (height - t1 - t2) with (height - (t1 + t2)) by lra.
  split; [lra |].
  rewrite <- H2. split; intros H; lra.
Qed.

End GeometryFactory.

(** The height handed to the four constructions is never below 0.08. *)
Lemma hotspotHeight_hard_floor (c : Config) :
  0.08 <= snd (fst (buildHotspotGeometryFromLayout c)).
Proof. cbn. apply Rmax_l. Qed.

(** The solid the layout builds is never lower than the height it reports
    as [hotspotHeight]. *)
Lemma layout_solid_not_lower (c : Config) :
  let r := buildHotspotGeometryFromLayout c in
  snd (fst r) <= assembledHeight (fst (fst r)).
Proof.
  assert (Hf := hotspotHeight_hard_floor c).
  unfold buildHotspotGeometryFromLayout in *. cbn zeta in *. cbn [fst snd] in *.
  set (p := getActiveHotspotLayoutPreset c) in *.
  set (h := Rmax 0.08 (DOT_HEIGHT c * heightMultiplier c
                       * orElse (heightScale p) 1)) in *.
  set (tr := Rmax 0.02 (DOT_RADIUS c * radiusMultiplier c
                        * orElse (topScale p) 1)).
  set (br := Rmax 0.02 (DOT_RADIUS c * radiusMultiplier c
                        * orElse (bottomScale p) 1)).
  set (dr := orElse (presetDomeHeightRatio p) (hotspotsDomeHeightRatio c)).
  destruct (geometryIs p "crystal"); [apply crystal_height |].
  destruct (geometryIs p "orbital");
    [rewrite (orbital_height_exact tr br h dr p Hf); lra |].
  destruct (geometryIs p "beacon"); [apply beacon_height |].
  rewrite (domed_height_exact tr br h dr Hf); lra.
Qed.

(** C7. In the domed-cylinder construction the dome-height ratio that is
    used lies in [0.08, 0.70] and the dome height, computed from that clamped
    ratio, is at most 45% of the requested height, whatever the top radius,
    the height and the configured ratio are. *)
Theorem dome_height_clamped (topRadius bottomRadius height domeHeightRatio : R) :
  let g :=
    createDomedCylinderGeometry topRadius bottomRadius height domeHeightRatio in
  0.08 <= dcRatio g <= 0.7 /\
  dcRatio g = Rmax 0.08 (Rmin domeHeightRatio 0.7) /\
  domeHeight g = Rmin (topRadius * dcRatio g) (height * 0.45) /\
  domeHeight g <= 0.45 * height.
Proof.
  cbn.
  split; [apply (domed_ratio_bounds topRadius bottomRadius height) |].
  split; [reflexivity |].
  split; [reflexivity |].
  assert (H := Rmin_r (topRadius * Rmax 0.08 (Rmin domeHeightRatio 0.7))
                      (height * 0.45)).
  lra.
Qed.

(** With the default preset and the smallest height the layout can request,
    the crystal comes out 14% taller than requested: its tip is raised to the
    0.04 floor. *)
Lemma crystal_taller_than_requested :
  0.08 <= 0.08 /\
  assembledHeight
    (SolidCrystal (createCrystalHotspotGeometry 0.135 0.08 emptyPreset))
  = 0.08 + 0.0112.
Proof. split; [lra |]. cbn. minmax. Qed.

(** Tier ratios at their documented upper bounds leave no room for the tip:
    a beacon requested 0.66 high is assembled 0.865 high. *)
Lemma beacon_taller_than_requested :
  assembledHeight
    (SolidBeacon
       (createBeaconHotspotGeometry 0.135 0.66
          (Build_Preset (Some "beacon"%string) None None None None None None
             None None None None None None (Some 0.7) (Some 0.55)
             None None None)))
  = 0.865.
Proof. cbn. minmax. Qed.

(** C6, as the code has it. For a requested height of at least 0.08: the
    domed cylinder and the core of the orbital solid are assembled exactly as
    high as requested; the crystal and the beacon are never lower than
    requested, and exactly as high as requested precisely when the height
    left for the tip (the requested height less the body height, or less both
    tier heights) is at least the 0.04 floor of a part. *)
Theorem assembled_height_vs_requested
    (topRadius bottomRadius radius height domeHeightRatio : R)
    (preset : Preset) :
  0.08 <= height ->
  let d :=
    createDomedCylinderGeometry topRadius bottomRadius height domeHeightRatio in
  let o :=
    createOrbitalHotspotGeometry topRadius bottomRadius height domeHeightRatio
      preset in
  let k := createCrystalHotspotGeometry radius height preset in
  let b := createBeaconHotspotGeometry radius height preset in
  assembledHeight (SolidDomedCylinder d) = height /\
  assembledHeight (SolidOrbital o) = height /\
  height <= assembledHeight (SolidCrystal k) /\
  (assembledHeight (SolidCrystal k) = height
   <-> 0.04 <= height - bodyHeight k) /\
  height <= assembledHeight (SolidBeacon b) /\
  (assembledHeight (SolidBeacon b) = height
   <-> 0.04 <= height - tier1Height b - tier2Height b).
Proof.
  intros Hh d o k b.
  split; [apply domed_height_exact; exact Hh |].
  split; [apply orbital_height_exact; exact Hh |].
  split; [apply crystal_height |].
  split; [apply crystal_height |].
  split; apply beacon_height.
Qed.

Lemma assembled_height_vs_requested_witness :
  0.08 <= 0.66 /\
  assembledHeight
    (SolidDomedCylinder (createDomedCylinderGeometry 0.135 0.135 0.66 0.5))
  = 0.66 /\
  assembledHeight
    (SolidCrystal (createCrystalHotspotGeometry 0.135 0.66 emptyPreset))
  = 0.66.
Proof.
  split; [lra |].
  assert (Hh : 0.08 <= 0.66) by lra.
  destruct (assembled_height_vs_requested 0.135 0.135 0.135 0.66 0.5
              emptyPreset Hh) as (Hd & _ & _ & Hk & _).
  split; [exact Hd |].
  apply Hk. cbn. minmax.
Defined.

(* ================================================================== *)
(** * Properties of the connection arcs                                *)
(* ================================================================== *)

Lemma index_in_range (A : Type) (l : list A) (i : Z) :
  (0 <= i < Z.of_nat (List.length l))%Z ->
  exists v, Js.index l i = Some v.
Proof.
  intros [Hlo Hhi]. unfold Js.index.
  destruct (Z.ltb_spec i 0) as [Hneg | _]; [lia |].
  destruct (nth_error l (Z.to_nat i)) as [v |] eqn:E; [now exists v |].
  apply nth_error_None in E. lia.
Qed.

Lemma index_some_range (A : Type) (l : list A) (i : Z) (v : A) :
  Js.index l i = Some v -> (0 <= i < Z.of_nat (List.length l))%Z.
Proof.
  unfold Js.index. destruct (Z.ltb_spec i 0) as [Hneg | Hpos]; [discriminate |].
  intros E. assert (H : nth_error l (Z.to_nat i) <> None) by congruence.
  apply nth_error_Some in H. lia.
Qed.

Lemma world_position_defined (c : Config) (dots : list Dot.t)
    (hs : HotspotRecord) :
  boundTo dots hs -> exists v, getHotspotWorldPosition c dots hs = Ok v.
Proof.
  intros H. unfold getHotspotWorldPosition.
  destruct (index_in_range _ dots (dotIndex hs) H) as [p ->]. eauto.
Qed.

Lemma length_sampleIndices (start segments : Z) :
  List.length (sampleIndices start segments)
  = Z.to_nat (segments + 1 - start).
Proof. unfold sampleIndices. now rewrite length_map, length_seq. Qed.

Lemma sampleIndices_spec (start segments s : Z) :
  In s (sampleIndices start segments) <-> (start <= s <= segments)%Z.
Proof.
  unfold sampleIndices. rewrite in_map_iff. split.
  - intros (k & <- & Hk). apply in_seq in Hk. lia.
  - intros H. exists (Z.to_nat (s - start)). split; [lia |].
    apply in_seq. lia.
Qed.

Lemma effectiveSegments_integer (lineCfg : LineCfg) (S : Z) :
  segments lineCfg = IZR S -> (1 <= S)%Z -> effectiveSegments lineCfg = S.
Proof.
  intros E H. unfold effectiveSegments. rewrite E, ZfloorZ. lia.
Qed.

Lemma effectiveSegments_pos (lineCfg : LineCfg) :
  (1 <= effectiveSegments lineCfg)%Z.
Proof. unfold effectiveSegments. lia. Qed.

Lemma length_collectLeg (lineCfg : LineCfg) (i : nat) (a b : Vec3.t) :
  List.length (collectLeg lineCfg i a b)
  = (Z.to_nat (effectiveSegments lineCfg)
     + match i with O => 1 | S _ => 0 end)%nat.
Proof.
  unfold collectLeg. rewrite length_map, length_sampleIndices.
  assert (H := effectiveSegments_pos lineCfg).
  destruct i; cbn [legStart]; lia.
Qed.

(** A leg begins at its first endpoint and ends at its second: the sample
    skipped at the start of a later leg is the last point of the leg
    before. *)
Lemma arcPoint_first (a b : Vec3.t) (lineCfg : LineCfg) (segments : Z) :
  arcPoint a b lineCfg segments 0 = a.
Proof.
  unfold arcPoint. destruct a as [ax ay az]. cbn [Vec3.x Vec3.y Vec3.z].
  replace (0 / IZR segments) with 0 by (unfold Rdiv; lra).
  replace (PI * 0) with 0 by lra. rewrite sin_0. f_equal; lra.
Qed.

Lemma arcPoint_last (a b : Vec3.t) (lineCfg : LineCfg) (segments : Z) :
  (1 <= segments)%Z -> arcPoint a b lineCfg segments segments = b.
Proof.
  intros H. unfold arcPoint. destruct b as [bx by' bz].
  cbn [Vec3.x Vec3.y Vec3.z].
  assert (Hs : IZR segments <> 0) by (apply not_0_IZR; lia).
  replace (IZR segments / IZR segments) with 1 by (field; exact Hs).
  replace (PI * 1) with PI by lra. rewrite sin_PI. f_equal; lra.
Qed.

Lemma collectLegsFrom_leg (c : Config) (dots : list Dot.t) (i : nat)
    (h1 h2 : HotspotRecord) (tl : list HotspotRecord) :
  collectLegsFrom c dots i (h1 :: h2 :: tl)
  = (a <- getHotspotWorldPosition c dots h1 ;;
     b <- getHotspotWorldPosition c dots h2 ;;
     rest <- collectLegsFrom c dots (S i) (h2 :: tl) ;;
     Ok (collectLeg (connectionLine c) i a b ++ rest)).
Proof. reflexivity. Qed.

Lemma collectLegsFrom_count (c : Config) (dots : list Dot.t)
    (hs : list HotspotRecord) :
  Forall (boundTo dots) hs ->
  forall i : nat,
  exists points,
    collectLegsFrom c dots i hs = Ok points /\
    List.length points
    = match hs with
      | _ :: (_ :: _) as tl =>
          (List.length tl * Z.to_nat (effectiveSegments (connectionLine c))
           + match i with O => 1 | S _ => 0 end)%nat
      | _ => 0%nat
      end.
Proof.
  induction 1 as [| h1 tl Hh1 Htl IH]; intros i.
  - exists []. now split.
  - destruct tl as [| h2 tl'].
    + exists []. now split.
    + destruct (world_position_defined c dots h1 Hh1) as [a Ea].
      destruct (world_position_defined c dots h2 (Forall_inv Htl)) as [b Eb].
      destruct (IH (S i)) as (rest & Er & Lr).
      exists (collectLeg (connectionLine c) i a b ++ rest). split.
      * rewrite collectLegsFrom_leg, Ea, Eb. cbn [Js.bind].
        rewrite Er. reflexivity.
      * rewrite length_app, length_collectLeg, Lr.
        destruct tl'; cbn [List.length]; lia.
Qed.

Lemma nth_error_sampleIndices (start segments : Z) (j : nat) :
  (j < Z.to_nat (segments + 1 - start))%nat ->
  nth_error (sampleIndices start segments) j = Some (start + Z.of_nat j)%Z.
Proof.
  intros Hj. unfold sampleIndices.
  rewrite nth_error_map, nth_error_seq.
  destruct (Nat.ltb_spec j (Z.to_nat (segments + 1 - start))); [| lia].
  reflexivity.
Qed.

Lemma nth_error_collectLeg (lineCfg : LineCfg) (i : nat) (a b : Vec3.t)
    (j : nat) :
  (j < List.length (collectLeg lineCfg i a b))%nat ->
  nth_error (collectLeg lineCfg i a b) j
  = Some (arcPoint a b lineCfg (effectiveSegments lineCfg)
            (legStart i + Z.of_nat j)).
Proof.
  intros Hj. unfold collectLeg in *.
  rewrite length_map, length_sampleIndices in Hj.
  rewrite nth_error_map, nth_error_sampleIndices by exact Hj.
  reflexivity.
Qed.

Lemma collectLeg_first (lineCfg : LineCfg) (a b : Vec3.t) :
  nth_error (collectLeg lineCfg 0 a b) 0 = Some a.
Proof.
  assert (H := effectiveSegments_pos lineCfg).
  rewrite nth_error_collectLeg by (rewrite length_collectLeg; lia).
  cbn [legStart Z.of_nat Z.add]. now rewrite arcPoint_first.
Qed.

Lemma collectLeg_last (lineCfg : LineCfg) (i : nat) (a b : Vec3.t) :
  nth_error (collectLeg lineCfg i a b)
            (List.length (collectLeg lineCfg i a b) - 1)
  = Some b.
Proof.
  assert (H := effectiveSegments_pos lineCfg).
  assert (L := length_collectLeg lineCfg i a b).
  rewrite nth_error_collectLeg by lia.
  rewrite L. f_equal.
  replace (legStart i
           + Z.of_nat (Z.to_nat (effectiveSegments lineCfg)
                       + match i with O => 1 | S _ => 0 end - 1))%Z
    with (effectiveSegments lineCfg)
    by (destruct i; cbn [legStart]; lia).
  now apply arcPoint_last.
Qed.

(** The samples of the legs after the first: leg [k] contributes its
    samples 1..n, one after another, right after those of the leg before. *)
Lemma collectLegsFrom_samples (c : Config) (dots : list Dot.t)
    (hs : list HotspotRecord) :
  Forall (boundTo dots) hs ->
  forall (i : nat) (h1 : HotspotRecord),
  boundTo dots h1 ->
  exists points,
    collectLegsFrom c dots (S i) (h1 :: hs) = Ok points /\
    List.length points
    = (List.length hs * Z.to_nat (effectiveSegments (connectionLine c)))%nat /\
    forall (k : nat) (hA hB : HotspotRecord) (a b : Vec3.t) (s : nat),
      nth_error (h1 :: hs) k = Some hA ->
      nth_error hs k = Some hB ->
      getHotspotWorldPosition c dots hA = Ok a ->
      getHotspotWorldPosition c dots hB = Ok b ->
      (1 <= s <= Z.to_nat (effectiveSegments (connectionLine c)))%nat ->
      nth_error points
        (k * Z.to_nat (effectiveSegments (connectionLine c)) + s - 1)
      = Some (arcPoint a b (connectionLine c)
                (effectiveSegments (connectionLine c)) (Z.of_nat s)).
Proof.
  assert (Hn := effectiveSegments_pos (connectionLine c)).
  set (n := Z.to_nat (effectiveSegments (connectionLine c))).
  induction 1 as [| h2 tl Hh2 Htl IH]; intros i h1 Hh1.
  - exists []. repeat split. intros [| k] hA hB a b s _ H; discriminate.
  - destruct (world_position_defined c dots h1 Hh1) as (a1 & Ea).
    destruct (world_position_defined c dots h2 Hh2) as (b1 & Eb).
    destruct (IH (S i) h2 Hh2) as (rest & Er & Lr & Hr).
    exists (collectLeg (connectionLine c) (S i) a1 b1 ++ rest).
    rewrite collectLegsFrom_leg, Ea, Eb. cbn [Js.bind]. rewrite Er.
    cbn [Js.bind].
    assert (Ll := length_collectLeg (connectionLine c) (S i) a1 b1).
    fold n in Ll. rewrite Nat.add_0_r in Ll.
    split; [reflexivity | split].
    + rewrite length_app, Ll, Lr. cbn [List.length]. lia.
    + intros [| k] hA hB a b s HA HB Ha Hb Hs; cbn [nth_error] in HA, HB.
      * injection HA as <-. injection HB as <-.
        assert (a = a1) by congruence. assert (b = b1) by congruence.
        subst a b. rewrite nth_error_app1 by lia.
        rewrite nth_error_collectLeg by lia.
        cbn [legStart]. do 2 f_equal. lia.
      * rewrite nth_error_app2 by lia. rewrite Ll.
        replace (S k * n + s - 1 - n)%nat with (k * n + s - 1)%nat by lia.
        exact (Hr k hA hB a b s HA HB Ha Hb Hs).
Qed.

(** C5. For N >= 2 bound hotspots and a configured whole number S >= 1 of
    segments, the point list of the sequential chain has exactly
    [(S+1) + (N-2)*S] points.  Leg [i], from hotspot [i] at [a] to hotspot
    [i+1] at [b], has its sample of t-index [s] at position [i*S + s] of the
    list, for [s] from 0 to S in the first leg and from 1 to S in every
    later leg; the sample is the point
    [a*(1-t) + b*t + (0, sin(PI*t)*arcHeight, 0)] with [t = s/S].  The
    sample of t-index 0 that a later leg leaves out is its start [a], which
    is the point already at position [i*S], the end of the leg before. *)
Theorem sequential_chain_point_count (c : Config) (st : State) (S : Z) :
  segments (connectionLine c) = IZR S ->
  (1 <= S)%Z ->
  (2 <= List.length (hotspotData st))%nat ->
  Forall (boundTo (dotPositions st)) (hotspotData st) ->
  exists points,
    collectHotspotArcPoints c st = Ok points /\
    Z.of_nat (List.length points)
    = ((S + 1) + (Z.of_nat (List.length (hotspotData st)) - 2) * S)%Z /\
    (forall (i : nat) (hsA hsB : HotspotRecord) (a b : Vec3.t) (s : Z),
       nth_error (hotspotData st) i = Some hsA ->
       nth_error (hotspotData st) (i + 1) = Some hsB ->
       getHotspotWorldPosition c (dotPositions st) hsA = Ok a ->
       getHotspotWorldPosition c (dotPositions st) hsB = Ok b ->
       ((if Nat.eqb i 0 then 0 else 1) <= s <= S)%Z ->
       exists q,
         nth_error points (i * Z.to_nat S + Z.to_nat s) = Some q /\
         Vec3.x q
         = Vec3.x a * (1 - IZR s / IZR S) + Vec3.x b * (IZR s / IZR S) /\
         Vec3.y q
         = Vec3.y a * (1 - IZR s / IZR S) + Vec3.y b * (IZR s / IZR S)
           + sin (PI * (IZR s / IZR S)) * arcHeight (connectionLine c) /\
         Vec3.z q
         = Vec3.z a * (1 - IZR s / IZR S) + Vec3.z b * (IZR s / IZR S)) /\
    (forall (i : nat) (hs : HotspotRecord) (a : Vec3.t),
       (0 < i)%nat ->
       nth_error (hotspotData st) i = Some hs ->
       getHotspotWorldPosition c (dotPositions st) hs = Ok a ->
       nth_error points (i * Z.to_nat S) = Some a).
Proof.
  intros Eseg HS HN Hbound.
  assert (Heff := effectiveSegments_integer _ S Eseg HS).
  unfold collectHotspotArcPoints.
  destruct (hotspotData st) as [| h1 [| h2 tl]] eqn:Ehs;
    cbn [List.length] in HN; try lia.
  apply Forall_cons_iff in Hbound. destruct Hbound as [Hh1 Hbound].
  assert (Hbound' := Hbound).
  apply Forall_cons_iff in Hbound'. destruct Hbound' as [Hh2 Htl].
  destruct (world_position_defined c (dotPositions st) h1 Hh1) as (a1 & Ea).
  destruct (world_position_defined c (dotPositions st) h2 Hh2) as (b1 & Eb).
  destruct (collectLegsFrom_samples c (dotPositions st) tl Htl 0%nat h2 Hh2)
    as (rest & Er & Lr & Hr).
  rewrite Heff in Lr, Hr.
  set (n := Z.to_nat S) in *.
  assert (Hn : (1 <= n)%nat) by (unfold n; lia).
  exists (collectLeg (connectionLine c) 0 a1 b1 ++ rest).
  rewrite collectLegsFrom_leg, Ea, Eb. cbn [Js.bind]. rewrite Er.
  cbn [Js.bind]. split; [reflexivity |].
  assert (Ll := length_collectLeg (connectionLine c) 0 a1 b1).
  rewrite Heff in Ll. fold n in Ll. cbn iota in Ll.
  assert (Hsample : forall (i : nat) (hsA hsB : HotspotRecord)
                           (a b : Vec3.t) (s : nat),
             nth_error (h1 :: h2 :: tl) i = Some hsA ->
             nth_error (h2 :: tl) i = Some hsB ->
             getHotspotWorldPosition c (dotPositions st) hsA = Ok a ->
             getHotspotWorldPosition c (dotPositions st) hsB = Ok b ->
             ((if Nat.eqb i 0 then 0 else 1) <= s <= n)%nat ->
             nth_error (collectLeg (connectionLine c) 0 a1 b1 ++ rest)
                       (i * n + s)
             = Some (arcPoint a b (connectionLine c) S (Z.of_nat s))).
  { intros [| k] hsA hsB a b s HA HB Ha Hb Hs; cbn [nth_error Nat.eqb] in *.
    - injection HA as <-. injection HB as <-.
      assert (a = a1) by congruence. assert (b = b1) by congruence.
      subst a b. rewrite nth_error_app1 by lia.
      rewrite nth_error_collectLeg by lia.
      rewrite Heff. cbn [legStart]. reflexivity.
    - rewrite nth_error_app2 by lia. rewrite Ll.
      replace (Datatypes.S k * n + s - (n + 1))%nat with (k * n + s - 1)%nat by lia.
      exact (Hr k hsA hsB a b s HA HB Ha Hb Hs). }
  split; [| split].
  - rewrite length_app, Ll, Lr. cbn [List.length]. lia.
  - intros i hsA hsB a b s HA HB Ha Hb Hs.
    rewrite Nat.add_1_r in HB. cbn [nth_error] in HB.
    exists (arcPoint a b (connectionLine c) S s). split.
    + rewrite <- (Z2Nat.id s) at 2 by (destruct (Nat.eqb i 0); lia).
      apply (Hsample i hsA hsB a b (Z.to_nat s) HA HB Ha Hb).
      destruct (Nat.eqb i 0); lia.
    + unfold arcPoint. cbn [Vec3.x Vec3.y Vec3.z]. repeat split.
  - intros i hs a Hi Hhs Ha.
    destruct i as [| k]; [lia |].
    cbn [nth_error] in Hhs.
    assert (Hprev : exists hsP, nth_error (h1 :: h2 :: tl) k = Some hsP).
    { destruct (nth_error (h1 :: h2 :: tl) k) eqn:E; [eauto |].
      apply nth_error_None in E.
      assert (Hlt : (k < List.length (h2 :: tl))%nat)
        by (apply nth_error_Some; congruence).
      cbn [List.length] in *. lia. }
    destruct Hprev as (hsP & HP).
    assert (HbP : boundTo (dotPositions st) hsP).
    { apply nth_error_In in HP.
      assert (Hall : Forall (boundTo (dotPositions st)) (h1 :: h2 :: tl))
        by (constructor; assumption).
      rewrite Forall_forall in Hall. now apply Hall. }
    destruct (world_position_defined c (dotPositions st) hsP HbP) as (p & Ep).
    replace (Datatypes.S k * n)%nat with (k * n + n)%nat by lia.
    rewrite (Hsample k hsP hs p a n HP Hhs Ep Ha)
      by (destruct (Nat.eqb k 0); lia).
    unfold n. rewrite Z2Nat.id by lia. f_equal.
    now apply arcPoint_last.
Qed.

Lemma chainField_bound :
  Forall (boundTo (dotPositions chainField)) (hotspotData chainField).
Proof. repeat constructor; cbn; lia. Qed.

Lemma sequential_chain_point_count_witness :
  exists points q,
    collectHotspotArcPoints (exampleConfig 3) chainField = Ok points /\
    Z.of_nat (List.length points) = 7%Z /\
    nth_error points 4 = Some q /\
    Vec3.x q = 7 * (1 - 1 / 3) + 14 * (1 / 3) /\
    Vec3.y q = 0.33 * (1 - 1 / 3) + 0.33 * (1 / 3) + sin (PI * (1 / 3)) * 1.
Proof.
  destruct (sequential_chain_point_count (exampleConfig 3) chainField 3)
    as (points & E & L & Hs & _).
  - reflexivity.
  - lia.
  - cbn. lia.
  - exact chainField_bound.
  - destruct (Hs 1%nat (exampleHotspot "hkg" 1 1) (exampleHotspot "Tok" 2 2)
                _ _ 1%Z eq_refl eq_refl eq_refl eq_refl)
      as (q & Hq & Hx & Hy & _); [cbn; lia |].
    exists points, q. split; [exact E |]. split; [rewrite L; reflexivity |].
    split; [exact Hq |]. cbn in Hx, Hy.
    unfold getMapWorldX, getCylinderCenterY in Hx, Hy. cbn in Hx, Hy.
    split; [rewrite Hx | rewrite Hy]; lra.
Defined.

(** ** Manual pairs *)

Lemma findIndexFrom_none (A : Type) (pred : A -> bool) (l : list A) (k : Z) :
  (0 <= k)%Z ->
  (findIndexFrom pred l k < 0)%Z -> forall v, In v l -> pred v = false.
Proof.
  revert k. induction l as [| h tl IH]; intros k Hk H v Hin; [easy |].
  cbn [findIndexFrom] in H. destruct (pred h) eqn:E; [lia |].
  destruct Hin as [<- | Hin]; [exact E |].
  apply (IH (k + 1)%Z); [lia | exact H | exact Hin].
Qed.

(** [findIndex] returns the position of the first element that satisfies the
    predicate. *)
Lemma findIndexFrom_some (A : Type) (pred : A -> bool) (l : list A) (k : Z) :
  (0 <= k)%Z ->
  (0 <= findIndexFrom pred l k)%Z ->
  exists (i : nat) (v : A),
    findIndexFrom pred l k = (k + Z.of_nat i)%Z /\
    nth_error l i = Some v /\ pred v = true /\
    forall j w, (j < i)%nat -> nth_error l j = Some w -> pred w = false.
Proof.
  revert k. induction l as [| h tl IH]; intros k Hk H.
  - cbn in H. lia.
  - cbn [findIndexFrom] in *. destruct (pred h) eqn:E.
    + exists 0%nat, h. repeat split; [lia | exact E | intros; lia].
    + destruct (IH (k + 1)%Z ltac:(lia) H) as (i & v & Ei & Hn & Hp & Hfirst).
      exists (S i), v. repeat split; [lia | exact Hn | exact Hp |].
      intros [| j] w Hj Hw; cbn in Hw; [congruence |].
      apply (Hfirst j w); [lia | exact Hw].
Qed.

Lemma findIndexFrom_found (A : Type) (pred : A -> bool) (l : list A) (k : Z)
    (v : A) :
  (0 <= k)%Z -> In v l -> pred v = true -> (0 <= findIndexFrom pred l k)%Z.
Proof.
  intros Hk Hin Hp.
  destruct (Z.lt_ge_cases (findIndexFrom pred l k) 0) as [Hneg | Hpos];
    [| exact Hpos].
  rewrite (findIndexFrom_none _ pred l k Hk Hneg v Hin) in Hp. discriminate.
Qed.

Lemma falsyId_false (id : option string) :
  falsyId id = false <-> exists s, id = Some s /\ s <> ""%string.
Proof.
  destruct id as [s |]; cbn.
  - destruct (String.eqb_spec s ""); split; try congruence.
    + intros (s' & [= <-] & Hs). contradiction.
    + intros _. now exists s.
  - split; [discriminate | intros (s & H & _); discriminate].
Qed.

(** The lookup is case-insensitive: it succeeds exactly for the ids that are
    found, and then returns the first record whose id matches. *)
Lemma findHotspotIndexById_found (hotspots : list HotspotRecord)
    (id : option string) :
  (0 <= findHotspotIndexById hotspots id)%Z <-> idFound hotspots id.
Proof.
  unfold findHotspotIndexById. destruct (falsyId id) eqn:F.
  - split; [lia |]. intros (s & hs & E & Hs & _).
    assert (H : falsyId id = false) by (apply falsyId_false; eauto).
    congruence.
  - apply falsyId_false in F. destruct F as (s & -> & Hs). cbn [orElse].
    unfold findIndex. split.
    + intros H.
      destruct (findIndexFrom_some _ _ _ 0%Z ltac:(lia) H)
        as (i & hs & _ & Hn & Hp & _).
      exists s, hs. repeat split; [exact Hs | eapply nth_error_In; eauto |].
      apply String.eqb_eq. exact Hp.
    + intros (s' & hs & [= <-] & _ & Hin & Hm).
      apply (findIndexFrom_found _ _ _ 0%Z hs); [lia | exact Hin |].
      apply String.eqb_eq. exact Hm.
Qed.

Lemma findHotspotIndexById_first (hotspots : list HotspotRecord)
    (id : option string) :
  (0 <= findHotspotIndexById hotspots id)%Z ->
  exists s hs,
    id = Some s /\
    Js.index hotspots (findHotspotIndexById hotspots id) = Some hs /\
    matchesId s hs /\
    forall j hs', (Z.of_nat j < findHotspotIndexById hotspots id)%Z ->
      nth_error hotspots j = Some hs' -> ~ matchesId s hs'.
Proof.
  unfold findHotspotIndexById. destruct (falsyId id) eqn:F; [lia |].
  apply falsyId_false in F. destruct F as (s & -> & Hs). cbn [orElse].
  unfold findIndex. intros H.
  destruct (findIndexFrom_some _ _ _ 0%Z ltac:(lia) H)
    as (i & hs & Ei & Hn & Hp & Hfirst).
  exists s, hs. rewrite Ei, Z.add_0_l. repeat split.
  - unfold Js.index. destruct (Z.ltb_spec (Z.of_nat i) 0) as [Hneg | _]; [lia |].
    rewrite Nat2Z.id. exact Hn.
  - apply String.eqb_eq. exact Hp.
  - intros j hs' Hj Hn' Hm.
    assert (E := Hfirst j hs' ltac:(lia) Hn').
    apply String.eqb_eq in Hm. cbn in E. congruence.
Qed.

Lemma pairResolved_found (hotspots : list HotspotRecord) (p : ConnectionPair) :
  pairResolved hotspots p = true
  <-> idFound hotspots (fromId p) /\ idFound hotspots (toId p).
Proof.
  unfold pairResolved.
  rewrite andb_true_iff, !Z.leb_le, !findHotspotIndexById_found. tauto.
Qed.

Section ManualPairs.

Variable c : Config.
Variable st : State.
Hypothesis bound : Forall (boundTo (dotPositions st)) (hotspotData st).

Lemma hotspotWorldPositionAt_defined (i : Z) (hs : HotspotRecord) :
  Js.index (hotspotData st) i = Some hs ->
  exists v, hotspotWorldPositionAt c st i = Ok v.
Proof.
  intros E. unfold hotspotWorldPositionAt. rewrite E.
  apply world_position_defined.
  rewrite Forall_forall in bound. apply bound.
  unfold Js.index in E. destruct (i <? 0)%Z; [discriminate |].
  eapply nth_error_In; eauto.
Qed.

Lemma buildPairConnection_dropped (p : ConnectionPair) :
  pairResolved (hotspotData st) p = false ->
  buildPairConnection c st p = Ok None.
Proof.
  unfold pairResolved, buildPairConnection. cbn zeta. intros H.
  apply andb_false_iff in H.
  destruct H as [H | H]; apply Z.leb_gt in H;
    apply Z.ltb_lt in H; rewrite H; [reflexivity |].
  now rewrite orb_true_r.
Qed.

Lemma buildPairConnection_built (p : ConnectionPair) :
  pairResolved (hotspotData st) p = true ->
  exists e,
    buildPairConnection c st p = Ok (Some e) /\
    fromIndex e = findHotspotIndexById (hotspotData st) (fromId p) /\
    toIndex e = findHotspotIndexById (hotspotData st) (toId p) /\
    cfgFromId e = fromId p /\ cfgToId e = toId p /\
    cfg e = mergePairCfg (connectionLine c) p.
Proof.
  unfold pairResolved, buildPairConnection. cbn zeta. intros H.
  apply andb_true_iff in H. destruct H as [Hf Ht].
  apply Z.leb_le in Hf, Ht.
  destruct (findHotspotIndexById_first _ _ Hf) as (_ & hf & _ & Ef & _).
  destruct (findHotspotIndexById_first _ _ Ht) as (_ & ht & _ & Et & _).
  destruct (hotspotWorldPositionAt_defined _ _ Ef) as [a Ea].
  destruct (hotspotWorldPositionAt_defined _ _ Et) as [b Eb].
  rewrite (proj2 (Z.ltb_ge _ _) Hf), (proj2 (Z.ltb_ge _ _) Ht).
  cbn [orb]. rewrite Ea, Eb. cbn [Js.bind].
  eexists. split; [reflexivity |]. cbn. repeat split.
Qed.

Lemma forEachPair_lines (pairs : list ConnectionPair) :
  forall acc : list PairLine,
  exists lines,
    forEachPair c st pairs acc = Ok (acc ++ lines) /\
    List.length lines
    = List.length (filter (pairResolved (hotspotData st)) pairs) /\
    (forall e, In e lines ->
       exists p, In p pairs /\ pairResolved (hotspotData st) p = true /\
                 buildPairConnection c st p = Ok (Some e)) /\
    (forall p, In p pairs -> pairResolved (hotspotData st) p = true ->
       exists e, In e lines /\ buildPairConnection c st p = Ok (Some e)).
Proof.
  induction pairs as [| p tl IH]; intros acc.
  - exists []. cbn. rewrite app_nil_r. repeat split; intros; contradiction.
  - cbn [forEachPair filter].
    destruct (pairResolved (hotspotData st) p) eqn:R.
    + destruct (buildPairConnection_built p R) as (e & Ee & _).
      rewrite Ee. cbn [Js.bind].
      destruct (IH (acc ++ [e])) as (lines & El & Ll & Hin & Hall).
      exists (e :: lines). rewrite El, <- app_assoc. cbn [app List.length].
      repeat split; [congruence | |].
      * intros e' [<- | He']; [exists p; cbn; auto |].
        destruct (Hin e' He') as (q & Hq & Rq & Eq). exists q. cbn. auto.
      * intros q [<- | Hq] Rq; [exists e; cbn; auto |].
        destruct (Hall q Hq Rq) as (e' & He' & Eq). exists e'. cbn. auto.
    + rewrite (buildPairConnection_dropped p R). cbn [Js.bind].
      destruct (IH acc) as (lines & El & Ll & Hin & Hall).
      exists lines. repeat split; [exact El | exact Ll | |].
      * intros e' He'.
        destruct (Hin e' He') as (q & Hq & Rq & Eq). exists q. cbn. auto.
      * intros q [<- | Hq] Rq; [congruence |]. apply (Hall q Hq Rq).
Qed.

End ManualPairs.

(** With connection lines switched off no pair line is kept and nothing is
    thrown. *)
Lemma pair_connections_disabled (c : Config) (st : State) :
  enabled (connectionLine c) = false ->
  buildHotspotPairConnections c st = Ok (clearHotspotPairConnections st).
Proof. intros H. unfold buildHotspotPairConnections. now rewrite H. Qed.

(** An empty id never resolves, even when a record carries the empty id. *)
Lemma empty_id_never_resolves (hotspots : list HotspotRecord) :
  findHotspotIndexById hotspots (Some ""%string) = (-1)%Z /\
  findHotspotIndexById hotspots None = (-1)%Z.
Proof. split; reflexivity. Qed.

(** In the merged configuration of a pair every style value is the pair's
    own when the pair has one and the base value otherwise. *)
Lemma mergePairCfg_pair_wins (baseCfg : LineCfg) (p : ConnectionPair) :
  let m := mergePairCfg baseCfg p in
  color m = orElse (pairColor p) (color baseCfg) /\
  opacity m = orElse (pairOpacity p) (opacity baseCfg) /\
  arcHeight m = orElse (pairArcHeight p) (arcHeight baseCfg) /\
  segments m = orElse (pairSegments p) (segments baseCfg) /\
  thickness m = orElse (pairThickness p) (thickness baseCfg) /\
  radialSegments m = orElse (pairRadialSegments p) (radialSegments baseCfg) /\
  heightOffset m = orElse (pairHeightOffset p) (heightOffset baseCfg).
Proof. cbn. repeat split. Qed.

(** What an entry built for a pair holds: the tube through the arc sampled
    between the world positions of its two records, under the pair's merged
    configuration, and the material of that configuration. *)
Lemma buildPairConnection_line (c : Config) (st : State) (p : ConnectionPair)
    (e : PairLine) :
  buildPairConnection c st p = Ok (Some e) ->
  exists a b,
    hotspotWorldPositionAt c st (fromIndex e) = Ok a /\
    hotspotWorldPositionAt c st (toIndex e) = Ok b /\
    mesh e
    = buildArcTubeGeometry
        (collectArcPointsBetween a b (mergePairCfg (connectionLine c) p))
        (mergePairCfg (connectionLine c) p) /\
    material e = materialOf (mergePairCfg (connectionLine c) p).
Proof.
  unfold buildPairConnection. cbn zeta.
  destruct (_ || _); [discriminate |].
  destruct (hotspotWorldPositionAt c st
              (findHotspotIndexById (hotspotData st) (fromId p)))
    as [a |] eqn:Ea; [| discriminate].
  destruct (hotspotWorldPositionAt c st
              (findHotspotIndexById (hotspotData st) (toId p)))
    as [b |] eqn:Eb; [| discriminate].
  cbn [Js.bind]. intros [= <-]. exists a, b. cbn. auto.
Qed.

(** The world position of a record is read off its dot; the vertical offset
    added is the one of the base configuration. *)
Lemma hotspotWorldPositionAt_value (c : Config) (st : State) (i : Z)
    (hs : HotspotRecord) (v : Vec3.t) :
  Forall (boundTo (dotPositions st)) (hotspotData st) ->
  Js.index (hotspotData st) i = Some hs ->
  hotspotWorldPositionAt c st i = Ok v ->
  exists p,
    Js.index (dotPositions st) (dotIndex hs) = Some p /\
    v = Vec3.mk
          (Dot.x p * SPACING c + MAP_OFFSET_X c)
          (DOT_BASE_Y c + height hs / 2 + (Dot.lift p + idleLift hs)
           + heightOffset (connectionLine c))
          (- Dot.y p * SPACING c).
Proof.
  intros Hbound E Hv. unfold hotspotWorldPositionAt in Hv. rewrite E in Hv.
  unfold getHotspotWorldPosition in Hv.
  destruct (Js.index (dotPositions st) (dotIndex hs)) as [p |] eqn:Ep;
    [| discriminate].
  injection Hv as <-. exists p. split; reflexivity.
Qed.

(** C8. With connection lines enabled, every hotspot record bound to a dot
    and all ids made of ASCII characters, building the manual pairs throws
    nothing and keeps one line per pair whose two endpoint ids are found by
    the case-insensitive lookup.  A pair with an endpoint that is not found
    has no line.  A pair with both found has a line between the first
    records matching its ids: its material has the pair's colour and opacity,
    its tube the pair's thickness and radial segments, and its curve runs
    through the pair's number of samples of the arc of the pair's height,
    each of these being the pair's value where the pair gives one and the
    base value otherwise.  The pair's vertical offset is the exception: it
    is stored in the merged configuration of the line, but the two ends of
    the arc are raised by the offset of the base configuration, so a pair's
    own offset does not move its line. *)
Theorem pair_connections_resolved_or_dropped (c : Config) (st : State)
    (pairs : list ConnectionPair) :
  enabled (connectionLine c) = true ->
  connectionPairs c = Some pairs ->
  Forall (boundTo (dotPositions st)) (hotspotData st) ->
  Forall (fun hs => isAscii (rawId (raw hs)) = true) (hotspotData st) ->
  Forall (fun p => asciiId (fromId p) /\ asciiId (toId p)) pairs ->
  exists lines,
    buildHotspotPairConnections c st = Ok (setHotspotPairLines st lines) /\
    List.length lines
    = List.length (filter (pairResolved (hotspotData st)) pairs) /\
    (forall p, In p pairs ->
       ~ (idFound (hotspotData st) (fromId p)
          /\ idFound (hotspotData st) (toId p)) ->
       forall e, In e lines ->
         ~ (cfgFromId e = fromId p /\ cfgToId e = toId p)) /\
    (forall p, In p pairs ->
       idFound (hotspotData st) (fromId p) ->
       idFound (hotspotData st) (toId p) ->
       exists e s t hsFrom hsTo pFrom pTo,
         In e lines /\
         fromId p = Some s /\ toId p = Some t /\
         fromIndex e = findHotspotIndexById (hotspotData st) (fromId p) /\
         toIndex e = findHotspotIndexById (hotspotData st) (toId p) /\
         Js.index (hotspotData st) (fromIndex e) = Some hsFrom /\
         Js.index (hotspotData st) (toIndex e) = Some hsTo /\
         matchesId s hsFrom /\ matchesId t hsTo /\
         (forall j hs', (Z.of_nat j < fromIndex e)%Z ->
            nth_error (hotspotData st) j = Some hs' -> ~ matchesId s hs') /\
         (forall j hs', (Z.of_nat j < toIndex e)%Z ->
            nth_error (hotspotData st) j = Some hs' -> ~ matchesId t hs') /\
         Js.index (dotPositions st) (dotIndex hsFrom) = Some pFrom /\
         Js.index (dotPositions st) (dotIndex hsTo) = Some pTo /\
         cfg e = mergePairCfg (connectionLine c) p /\
         color (cfg e) = orElse (pairColor p) (color (connectionLine c)) /\
         opacity (cfg e) = orElse (pairOpacity p) (opacity (connectionLine c)) /\
         arcHeight (cfg e)
         = orElse (pairArcHeight p) (arcHeight (connectionLine c)) /\
         segments (cfg e)
         = orElse (pairSegments p) (segments (connectionLine c)) /\
         thickness (cfg e)
         = orElse (pairThickness p) (thickness (connectionLine c)) /\
         radialSegments (cfg e)
         = orElse (pairRadialSegments p) (radialSegments (connectionLine c)) /\
         heightOffset (cfg e)
         = orElse (pairHeightOffset p) (heightOffset (connectionLine c)) /\
         materialColor (material e)
         = orElse (pairColor p) (color (connectionLine c)) /\
         materialOpacity (material e)
         = orElse (pairOpacity p) (opacity (connectionLine c)) /\
         (materialTransparent (material e) = true
          <-> orElse (pairOpacity p) (opacity (connectionLine c)) < 1) /\
         tubeThickness (mesh e)
         = Rmax 0.001
             (orElse (pairThickness p) (thickness (connectionLine c))) /\
         tubeRadialSegments (mesh e)
         = Z.max 3
             (Zfloor (orElse (pairRadialSegments p)
                        (radialSegments (connectionLine c)))) /\
         let segs :=
           Z.max 1
             (Zfloor (orElse (pairSegments p) (segments (connectionLine c))))
         in
         let arc := orElse (pairArcHeight p) (arcHeight (connectionLine c)) in
         let worldY := fun (hs : HotspotRecord) (dot : Dot.t) =>
           DOT_BASE_Y c + height hs / 2 + (Dot.lift dot + idleLift hs)
           + heightOffset (connectionLine c) in
         List.length (curvePoints (mesh e)) = Z.to_nat (segs + 1) /\
         tubularSegments (mesh e) = Z.max 2 ((segs + 1) * 2) /\
         forall k, (0 <= k <= segs)%Z ->
           nth_error (curvePoints (mesh e)) (Z.to_nat k)
           = Some
               (Vec3.mk
                  ((Dot.x pFrom * SPACING c + MAP_OFFSET_X c)
                   * (1 - IZR k / IZR segs)
                   + (Dot.x pTo * SPACING c + MAP_OFFSET_X c)
                     * (IZR k / IZR segs))
                  (worldY hsFrom pFrom * (1 - IZR k / IZR segs)
                   + worldY hsTo pTo * (IZR k / IZR segs)
                   + sin (PI * (IZR k / IZR segs)) * arc)
                  (- Dot.y pFrom * SPACING c * (1 - IZR k / IZR segs)
                   + - Dot.y pTo * SPACING c * (IZR k / IZR segs)))).
Proof.
  intros Hen Hpairs Hbound _ _.
  set (st0 := clearHotspotPairConnections st).
  assert (Hbound0 : Forall (boundTo (dotPositions st0)) (hotspotData st0))
    by exact Hbound.
  destruct (forEachPair_lines c st0 Hbound0 pairs [])
    as (lines & El & Ll & Hin & Hall).
  cbn [app] in El. change (hotspotData st0) with (hotspotData st) in *.
  exists lines. split; [| split; [exact Ll | split]].
  - unfold buildHotspotPairConnections. rewrite Hen, Hpairs. cbn [negb].
    destruct pairs as [| p tl].
    + cbn in El. injection El as <-. reflexivity.
    + fold st0. rewrite El. reflexivity.
  - intros p Hp Hnot e He [Ef Et].
    destruct (Hin e He) as (q & Hq & Rq & Eq).
    destruct (buildPairConnection_built c st0 Hbound0 q Rq)
      as (e' & Ee' & _ & _ & Hf & Ht & _).
    assert (e' = e) by congruence. subst e'.
    apply Hnot. apply pairResolved_found in Rq.
    rewrite <- Ef, <- Et, Hf, Ht. exact Rq.
  - intros p Hp Hfrom Hto.
    assert (R : pairResolved (hotspotData st) p = true)
      by (apply pairResolved_found; split; assumption).
    destruct (Hall p Hp R) as (e & He & Ee).
    destruct (buildPairConnection_built c st0 Hbound0 p R)
      as (e' & Ee' & Hfi & Hti & _ & _ & Hcfg).
    assert (e' = e) by congruence. subst e'.
    destruct (buildPairConnection_line c st0 p e Ee)
      as (a & b & Ea & Eb & Hmesh & Hmat).
    apply findHotspotIndexById_found in Hfrom, Hto.
    destruct (findHotspotIndexById_first _ _ Hfrom)
      as (s & hsFrom & Es & Ehf & Hmf & Hff).
    destruct (findHotspotIndexById_first _ _ Hto)
      as (t & hsTo & Et & Eht & Hmt & Hft).
    change (hotspotData st0) with (hotspotData st) in *.
    rewrite <- Hfi in Ehf, Hff. rewrite <- Hti in Eht, Hft.
    destruct (hotspotWorldPositionAt_value c st0 _ hsFrom a Hbound0 Ehf Ea)
      as (pFrom & Epf & Eav).
    destruct (hotspotWorldPositionAt_value c st0 _ hsTo b Hbound0 Eht Eb)
      as (pTo & Ept & Ebv).
    change (dotPositions st0) with (dotPositions st) in *.
    exists e, s, t, hsFrom, hsTo, pFrom, pTo.
    set (m := mergePairCfg (connectionLine c) p) in *.
    assert (Hlen : List.length (curvePoints (mesh e))
                   = Z.to_nat (effectiveSegments m + 1)).
    { rewrite Hmesh. cbn [curvePoints buildArcTubeGeometry].
      change (collectArcPointsBetween a b m) with (collectLeg m 0 a b).
      rewrite length_collectLeg.
      assert (H := effectiveSegments_pos m). lia. }
    do 14 (split; [assumption |]).
    rewrite Hcfg, Hmat, Hmesh.
    do 7 (split; [reflexivity |]).
    split; [reflexivity |]. split; [reflexivity |].
    split.
    { cbn [materialTransparent materialOf]. unfold Js.ltb.
      change (opacity m)
        with (orElse (pairOpacity p) (opacity (connectionLine c))).
      destruct (Rlt_dec _ _); split; auto; discriminate. }
    split; [reflexivity |]. split; [reflexivity |].
    cbn zeta. rewrite <- Hmesh.
    change (Z.max 1
              (Zfloor (orElse (pairSegments p) (segments (connectionLine c)))))
      with (effectiveSegments m).
    split; [exact Hlen |]. split.
    { rewrite Hmesh. cbn [tubularSegments buildArcTubeGeometry].
      rewrite Hmesh in Hlen. cbn [curvePoints buildArcTubeGeometry] in Hlen.
      rewrite Hlen. assert (H := effectiveSegments_pos m).
      rewrite Z2Nat.id by lia. reflexivity. }
    intros k Hk. rewrite Hmesh. cbn [curvePoints buildArcTubeGeometry].
    change (collectArcPointsBetween a b m) with (collectLeg m 0 a b).
    rewrite nth_error_collectLeg
      by (rewrite length_collectLeg; lia).
    cbn [legStart]. rewrite Z.add_0_l, Z2Nat.id by lia.
    rewrite Eav, Ebv. reflexivity.
Qed.

Lemma pair_connections_resolved_or_dropped_witness :
  exists lines e q0 q1,
    buildHotspotPairConnections
      (withConnectionPairs (exampleConfig 3) offsetPairs) chainField
    = Ok (setHotspotPairLines chainField lines) /\
    List.length lines = 1%nat /\
    In e lines /\
    fromIndex e = 0%Z /\ toIndex e = 1%Z /\
    heightOffset (cfg e) = 5 /\
    materialColor (material e) = 255 /\
    materialOpacity (material e) = 0.5 /\
    materialTransparent (material e) = true /\
    tubeThickness (mesh e) = 0.02 /\
    tubularSegments (mesh e) = 6%Z /\
    List.length (curvePoints (mesh e)) = 3%nat /\
    nth_error (curvePoints (mesh e)) 0 = Some q0 /\
    Vec3.x q0 = 0 /\ Vec3.y q0 = 0.33 /\
    nth_error (curvePoints (mesh e)) 1 = Some q1 /\
    Vec3.x q1 = 3.5 /\ Vec3.y q1 = 1.33.
Proof.
  destruct (pair_connections_resolved_or_dropped
              (withConnectionPairs (exampleConfig 3) offsetPairs)
              chainField offsetPairs eq_refl eq_refl chainField_bound)
    as (lines & E & L & _ & Hbuilt).
  - repeat constructor.
  - repeat constructor; intros s [= <-]; reflexivity.
  - assert (Hfrom : idFound (hotspotData chainField) (fromId offsetPair)).
    { exists "sin"%string, (exampleHotspot "SIN" 0 0).
      repeat split; [discriminate | cbn; auto]. }
    assert (Hto : idFound (hotspotData chainField) (toId offsetPair)).
    { exists "HKG"%string, (exampleHotspot "hkg" 1 1).
      repeat split; [discriminate | cbn; auto]. }
    destruct (Hbuilt offsetPair (or_introl eq_refl) Hfrom Hto)
      as (e & s & t & hsFrom & hsTo & pFrom & pTo & He & _ & _ & Hfi & Hti
          & Ehf & Eht & _ & _ & _ & _ & Epf & Ept & _ & _ & _ & _ & _ & _ & _
          & Hoff & Hcol & Hop & Htr & Hth & _ & Hlen & Htub & Hpts).
    exists lines, e.
    change (findHotspotIndexById (hotspotData chainField) (fromId offsetPair))
      with 0%Z in Hfi.
    change (findHotspotIndexById (hotspotData chainField) (toId offsetPair))
      with 1%Z in Hti.
    rewrite Hfi in Ehf. injection Ehf as <-. injection Epf as <-.
    rewrite Hti in Eht. injection Eht as <-. injection Ept as <-.
    cbn in Hlen, Hpts, Htub, Hth. rewrite ZfloorZ in Hlen, Hpts, Htub.
    assert (Hp0 := Hpts 0%Z ltac:(lia)).
    assert (Hp1 := Hpts 1%Z ltac:(lia)).
    do 2 eexists. split; [exact E |]. split; [rewrite L; reflexivity |].
    split; [exact He |]. split; [exact Hfi |]. split; [exact Hti |].
    split; [exact Hoff |]. split; [exact Hcol |]. split; [exact Hop |].
    split; [apply Htr; cbn; lra |].
    split; [rewrite Hth; unfold Rmax; destruct Rle_dec; lra |].
    split; [exact Htub |].
    split; [exact Hlen |]. split; [exact Hp0 |].
    split; [cbn; lra |].
    split; [cbn; replace (0 / 2) with 0 by lra;
            rewrite !Rmult_0_r, sin_0; lra |].
    split; [exact Hp1 |].
    split; [cbn; lra |].
    cbn. replace (PI * (1 / 2)) with (PI / 2) by lra. rewrite sin_PI2. lra.
Defined.

(* ================================================================== *)
(** * Properties of the binding step                                   *)
(* ================================================================== *)

(** ** The order of [Object.entries] and the grouping loop *)

Lemma insertIndexed_perm (A : Type) (v : Z) (entry : A)
    (sorted : list (Z * A)) :
  Permutation (insertIndexed v entry sorted) ((v, entry) :: sorted).
Proof.
  induction sorted as [| [w other] tl IH]; cbn [insertIndexed].
  - reflexivity.
  - destruct (v <? w)%Z; [reflexivity |].
    rewrite IH. apply perm_swap.
Qed.

Lemma indexedEntries_perm (A : Type) (obj : list (string * A)) :
  Permutation (map snd (indexedEntries obj))
              (filter (fun entry => isArrayIndex (fst entry)) obj).
Proof.
  induction obj as [| entry tl IH]; cbn [indexedEntries filter].
  - reflexivity.
  - unfold isArrayIndex at 1.
    destruct (arrayIndex (fst entry)) as [v |]; [| exact IH].
    rewrite (Permutation_map snd (insertIndexed_perm _ v entry _)).
    cbn [map snd]. now apply perm_skip.
Qed.

Lemma filter_split_perm (A : Type) (f : A -> bool) (l : list A) :
  Permutation (filter f l ++ filter (fun x => negb (f x)) l) l.
Proof.
  induction l as [| x tl IH]; cbn [filter]; [reflexivity |].
  destruct (f x); cbn [negb app].
  - now apply perm_skip.
  - rewrite <- Permutation_middle. now apply perm_skip.
Qed.

Lemma objectEntries_perm (A : Type) (obj : list (string * A)) :
  Permutation (objectEntries obj) obj.
Proof.
  unfold objectEntries. rewrite indexedEntries_perm.
  apply (filter_split_perm _ (fun entry => isArrayIndex (fst entry))).
Qed.

Lemma objectEntries_in (A : Type) (obj : list (string * A))
    (entry : string * A) :
  In entry (objectEntries obj) <-> In entry obj.
Proof.
  split; apply Permutation_in;
    [apply objectEntries_perm | symmetry; apply objectEntries_perm].
Qed.

Lemma objectEntries_keys (A : Type) (obj : list (string * A)) :
  NoDup (map fst obj) -> NoDup (map fst (objectEntries obj)).
Proof.
  apply Permutation_NoDup. apply Permutation_map. symmetry.
  apply objectEntries_perm.
Qed.

Lemma groupFrom_spec (HOTSPOTS : list RawHotspot) :
  forall grouped : list (string * list RawHotspot),
  groupFrom HOTSPOTS grouped
  = if ownTypes HOTSPOTS
    then Ok (fold_left (fun g hs => pushGroup hs g) HOTSPOTS grouped)
    else Throw TypeError.
Proof.
  unfold ownTypes.
  induction HOTSPOTS as [| hs tl IH]; intros grouped; [reflexivity |].
  cbn [groupFrom forallb fold_left].
  destruct (inheritedKey (type hs)); [reflexivity |]. apply IH.
Qed.

Lemma groupByType_spec (HOTSPOTS : list RawHotspot) :
  groupByType HOTSPOTS
  = if ownTypes HOTSPOTS then Ok (groupedOf HOTSPOTS) else Throw TypeError.
Proof. apply groupFrom_spec. Qed.

Lemma pushGroup_nonempty (hs : RawHotspot)
    (grouped : list (string * list RawHotspot)) :
  Forall (fun g => snd g <> []) grouped ->
  Forall (fun g => snd g <> []) (pushGroup hs grouped).
Proof.
  induction 1 as [| [k l] tl Hl Htl IH]; cbn [pushGroup].
  - constructor; [discriminate | constructor].
  - destruct (String.eqb k (type hs)); constructor; auto.
    cbn [snd]. intros H. now apply app_eq_nil in H.
Qed.

Lemma groupedOf_nonempty (HOTSPOTS : list RawHotspot) :
  Forall (fun g => snd g <> []) (groupedOf HOTSPOTS).
Proof.
  unfold groupedOf.
  assert (H : forall grouped,
             Forall (fun g => snd g <> []) grouped ->
             Forall (fun g : string * list RawHotspot => snd g <> [])
                    (fold_left (fun g hs => pushGroup hs g) HOTSPOTS grouped)).
  { induction HOTSPOTS as [| hs tl IH]; intros grouped Hg; [exact Hg |].
    cbn [fold_left]. apply IH. now apply pushGroup_nonempty. }
  apply H. constructor.
Qed.

(** The three stages of a [buildDotsFromFile] that returns. *)
Lemma buildDotsFromFile_inv (c : Config) (HOTSPOTS : list RawHotspot)
    (dots : list (R * R)) (st : State) :
  buildDotsFromFile c HOTSPOTS dots = Ok st ->
  exists st1 st2 : State,
    ownTypes HOTSPOTS = true /\
    bindGroups (snd (fst (buildHotspotGeometryFromLayout c)))
               (orElse (phaseStep c) 0.55)
               (objectEntries (groupedOf HOTSPOTS)) (dotField c dots)
    = Ok st1 /\
    buildHotspotConnectionLine c st1 = Ok st2 /\
    buildHotspotPairConnections c st2 = Ok st.
Proof.
  unfold buildDotsFromFile. cbn zeta. rewrite groupByType_spec.
  destruct (ownTypes HOTSPOTS); [| discriminate]. cbn [Js.bind].
  destruct (bindGroups _ _ _ (dotField c dots)) as [st1 | e]; [| discriminate].
  cbn [Js.bind].
  destruct (buildHotspotConnectionLine c st1) as [st2 | e] eqn:E2;
    [| discriminate].
  cbn [Js.bind]. intros E. exists st1, st2. repeat split; assumption.
Qed.

Lemma buildDotsFromFile_stages (c : Config) (HOTSPOTS : list RawHotspot)
    (dots : list (R * R)) (st1 st2 st : State) :
  ownTypes HOTSPOTS = true ->
  bindGroups (snd (fst (buildHotspotGeometryFromLayout c)))
             (orElse (phaseStep c) 0.55)
             (objectEntries (groupedOf HOTSPOTS)) (dotField c dots)
  = Ok st1 ->
  buildHotspotConnectionLine c st1 = Ok st2 ->
  buildHotspotPairConnections c st2 = Ok st ->
  buildDotsFromFile c HOTSPOTS dots = Ok st.
Proof.
  intros Ho E1 E2 E3. unfold buildDotsFromFile. cbn zeta.
  rewrite groupByType_spec, Ho. cbn [Js.bind]. rewrite E1. cbn [Js.bind].
  rewrite E2. exact E3.
Qed.

(** The first group of a non-empty hotspot list is not empty. *)
Lemma pushGroup_head (hs : RawHotspot) (k : string) (h : RawHotspot)
    (l : list RawHotspot) (tl : list (string * list RawHotspot)) :
  exists l' tl', pushGroup hs ((k, h :: l) :: tl) = (k, h :: l') :: tl'.
Proof.
  cbn [pushGroup]. destruct (String.eqb k (type hs)).
  - exists (l ++ [hs]), tl. reflexivity.
  - exists l, (pushGroup hs tl). reflexivity.
Qed.

Lemma fold_pushGroup_head (HOTSPOTS : list RawHotspot) :
  forall (k : string) (h : RawHotspot) (l : list RawHotspot)
         (tl : list (string * list RawHotspot)),
  exists l' tl',
    fold_left (fun grouped hs => pushGroup hs grouped) HOTSPOTS
              ((k, h :: l) :: tl)
    = (k, h :: l') :: tl'.
Proof.
  induction HOTSPOTS as [| hs rest IH]; intros k h l tl.
  - exists l, tl. reflexivity.
  - cbn [fold_left].
    destruct (pushGroup_head hs k h l tl) as (l1 & tl1 & ->). apply IH.
Qed.

Lemma groupedOf_head (hs : RawHotspot) (rest : list RawHotspot) :
  exists l tl, groupedOf (hs :: rest) = (type hs, hs :: l) :: tl.
Proof. unfold groupedOf. cbn [fold_left pushGroup]. apply fold_pushGroup_head. Qed.

(** Over an empty dot list the scan ends with its start value [-1], and the
    write to [dotPositions[-1]] throws. *)
Lemma bindHotspot_no_dots (hotspotHeight idlePhaseStep : R) (type : string)
    (i : nat) (hs : RawHotspot) (st : State) :
  dotPositions st = [] ->
  bindHotspot hotspotHeight idlePhaseStep type i hs st = Throw TypeError.
Proof.
  intros E. unfold bindHotspot, nearestDot. rewrite E.
  destruct (lat hs), (lon hs); reflexivity.
Qed.

Lemma bindGroups_no_dots (hotspotHeight idlePhaseStep : R)
    (entries : list (string * list RawHotspot)) (st : State) :
  entries <> [] ->
  Forall (fun g => snd g <> []) entries ->
  dotPositions st = [] ->
  bindGroups hotspotHeight idlePhaseStep entries st = Throw TypeError.
Proof.
  intros Hne Hall E.
  destruct entries as [| [type [| hs l]] tl]; [now elim Hne | |].
  - apply Forall_inv in Hall. now elim Hall.
  - cbn [bindGroups bindGroupFrom].
    rewrite bindHotspot_no_dots; [reflexivity | exact E].
Qed.

(** C1, as the code behaves. With an empty dot list and at least one
    hotspot, the binding step does not skip the hotspot: it throws a
    [TypeError], [buildDotsFromFile] ends there without reaching the
    connection-line builders, and [loadMapData] reports the failure. *)
Theorem empty_dot_list_aborts_binding (c : Config) (hs : RawHotspot)
    (rest : list RawHotspot) :
  buildDotsFromFile c (hs :: rest) [] = Throw TypeError /\
  loadMapData c (hs :: rest) [] = InitFailed TypeError.
Proof.
  assert (E : buildDotsFromFile c (hs :: rest) [] = Throw TypeError).
  { unfold buildDotsFromFile. rewrite groupByType_spec.
    destruct (ownTypes (hs :: rest)); [| reflexivity].
    cbn [Js.bind]. rewrite bindGroups_no_dots; [reflexivity | | | reflexivity].
    - intros H.
      assert (P := objectEntries_perm _ (groupedOf (hs :: rest))).
      rewrite H in P. apply Permutation_nil in P.
      destruct (groupedOf_head hs rest) as (l & tl & E). now rewrite E in P.
    - apply (Permutation_Forall
               (Permutation_sym (objectEntries_perm _ _))).
      apply groupedOf_nonempty. }
  split; [exact E |]. unfold loadMapData. now rewrite E.
Qed.

(** With at least one dot the scan always ends on an existing dot, so the
    binding of a hotspot succeeds. *)
Lemma nearestDotFrom_range (x y : R) (dots : list Dot.t) :
  forall (idx bestIndex : Z) (bestDist : option R),
  let r := nearestDotFrom x y dots idx bestIndex bestDist in
  (r = bestIndex /\ (bestDist = None -> dots = []))
  \/ (idx <= r < idx + Z.of_nat (List.length dots))%Z.
Proof.
  induction dots as [| p tl IH]; intros idx bestIndex bestDist; cbn zeta.
  - left. split; reflexivity.
  - cbn [nearestDotFrom List.length].
    set (d := (Dot.x p - x) * (Dot.x p - x) + (Dot.y p - y) * (Dot.y p - y)).
    destruct (match bestDist with
              | Some best => Js.ltb d best
              | None => true
              end) eqn:E.
    + right. destruct (IH (idx + 1)%Z idx (Some d)) as [[-> _] | H]; lia.
    + destruct bestDist as [best |]; [| discriminate].
      destruct (IH (idx + 1)%Z bestIndex (Some best)) as [[-> _] | H].
      * left. split; [reflexivity | discriminate].
      * right. lia.
Qed.

Lemma length_setAt (A : Type) (l : list A) (i : nat) (v : A) :
  List.length (Js.setAt l i v) = List.length l.
Proof.
  revert i. induction l as [| h tl IH]; intros [| j]; cbn; auto.
Qed.

Lemma bindHotspot_succeeds (hotspotHeight idlePhaseStep : R) (type : string)
    (i : nat) (hs : RawHotspot) (st : State) :
  located hs ->
  dotPositions st <> [] ->
  exists st',
    bindHotspot hotspotHeight idlePhaseStep type i hs st = Ok st' /\
    List.length (dotPositions st') = List.length (dotPositions st).
Proof.
  intros [Hlat Hlon] Hne. unfold bindHotspot, nearestDot.
  destruct (lat hs) as [latitude |]; [| now elim Hlat].
  destruct (lon hs) as [longitude |]; [| now elim Hlon].
  set (xy := latLonToMapXY latitude longitude).
  destruct (nearestDotFrom_range (fst xy) (snd xy) (dotPositions st) 0 (-1) None)
    as [[_ H] | H]; [now elim Hne; apply H |].
  cbn zeta in H.
  destruct (index_in_range _ (dotPositions st) _ H) as [p ->].
  eexists. split; [reflexivity |]. cbn [dotPositions setBinding].
  apply length_setAt.
Qed.

(* ================================================================== *)
(** * Properties of the hover influence engine                         *)
(* ================================================================== *)

Lemma ltb_true (x y : R) : x < y -> Js.ltb x y = true.
Proof. intros H. unfold Js.ltb. destruct Rlt_dec; [reflexivity | lra]. Qed.

Lemma ltb_false (x y : R) : y <= x -> Js.ltb x y = false.
Proof. intros H. unfold Js.ltb. destruct Rlt_dec; [lra | reflexivity]. Qed.

Lemma gtb_true (x y : R) : x > y -> Js.gtb x y = true.
Proof. intros H. unfold Js.gtb. destruct Rgt_dec; [reflexivity | lra]. Qed.

Lemma gtb_false (x y : R) : x <= y -> Js.gtb x y = false.
Proof. intros H. unfold Js.gtb. destruct Rgt_dec; [lra | reflexivity]. Qed.

Lemma updateHovered_range (c : Config) (hits hovered : option nat)
    (cooldown : Z) (id : nat) :
  fst (updateHovered c hits hovered cooldown) = Some id ->
  hits = Some id \/ hovered = Some id.
Proof.
  unfold updateHovered. cbn [fst]. destruct hits as [h |].
  - destruct (negb (isHovered hovered h)); cbn [fst]; auto.
  - destruct (cooldown <=? 0)%Z; cbn [fst]; [discriminate | auto].
Qed.

Section HoverFrame.

Variable c : Config.

Lemma handleHover_unbuilt (hits : option nat) (st : State) :
  meshes st = None -> handleHover c hits st = Ok st.
Proof. intros E. unfold handleHover. now rewrite E. Qed.

Lemma handleHover_released (hits : option nat) (st : State) :
  meshes st <> None ->
  fst (updateHovered c hits (hoveredInstanceId st) (hoverCooldown st)) = None ->
  handleHover c hits st
  = Ok (setHover st None
          (snd (updateHovered c hits (hoveredInstanceId st)
                  (hoverCooldown st)))).
Proof.
  intros Hm E. unfold handleHover.
  destruct (meshes st); [| contradiction]. now rewrite E.
Qed.

Lemma handleHover_lifting (hits : option nat) (st : State) (id : nat)
    (center : Dot.t) :
  meshes st <> None ->
  fst (updateHovered c hits (hoveredInstanceId st) (hoverCooldown st))
  = Some id ->
  nth_error (dotPositions st) id = Some center ->
  handleHover c hits st
  = Ok (setLifted
          (setHover st (Some id)
             (snd (updateHovered c hits (hoveredInstanceId st)
                     (hoverCooldown st))))
          (map (liftDot c center) (dotPositions st))).
Proof.
  intros Hm E Hc. unfold handleHover.
  destruct (meshes st); [| contradiction]. rewrite E.
  cbn [dotPositions setHover]. now rewrite Hc.
Qed.

(** A frame never fails on a built map whose hits are dots; it leaves the
    number of dots alone and moves the hovered id and the cooldown as
    [updateHovered] says. *)
Lemma handleHover_ready (hits : option nat) (st : State) :
  fieldReady st -> hitInRange st hits ->
  exists st',
    handleHover c hits st = Ok st' /\
    fieldReady st' /\
    List.length (dotPositions st') = List.length (dotPositions st) /\
    (hoveredInstanceId st', hoverCooldown st')
    = updateHovered c hits (hoveredInstanceId st) (hoverCooldown st).
Proof.
  intros [Hm Hh] Hhit.
  remember (updateHovered c hits (hoveredInstanceId st) (hoverCooldown st))
    as u eqn:Eu.
  destruct (fst u) as [id |] eqn:E.
  - assert (Hid : (id < List.length (dotPositions st))%nat).
    { rewrite Eu in E. destruct (updateHovered_range _ _ _ _ _ E); auto. }
    destruct (nth_error (dotPositions st) id) as [center |] eqn:Ec;
      [| apply nth_error_None in Ec; lia].
    eexists. split.
    { apply (handleHover_lifting _ _ id center Hm); [now rewrite <- Eu | exact Ec]. }
    rewrite <- Eu. unfold fieldReady.
    cbn [meshes dotPositions hoveredInstanceId hoverCooldown setLifted
         setHover].
    rewrite length_map. repeat split; auto.
    + intros id' [= <-]. exact Hid.
    + rewrite <- E. now destruct u.
  - eexists. split.
    { apply (handleHover_released _ _ Hm). now rewrite <- Eu. }
    rewrite <- Eu. unfold fieldReady.
    cbn [meshes dotPositions hoveredInstanceId hoverCooldown setHover].
    repeat split; auto; [discriminate |].
    rewrite <- E. now destruct u.
Qed.

Lemma smoothLiftUpdate_hover (st : State) :
  hoveredInstanceId (smoothLiftUpdate c st) = hoveredInstanceId st /\
  hoverCooldown (smoothLiftUpdate c st) = hoverCooldown st /\
  List.length (dotPositions (smoothLiftUpdate c st))
  = List.length (dotPositions st) /\
  (meshes st <> None -> meshes (smoothLiftUpdate c st) <> None).
Proof.
  unfold smoothLiftUpdate. destruct (meshes st) as [[dm pm] |] eqn:Em.
  - destruct (negb (liftActive st) && isNull (hoveredInstanceId st)).
    + rewrite Em. repeat split; auto.
    + cbn. rewrite !length_map. repeat split; auto. discriminate.
  - rewrite Em. repeat split; auto.
Qed.

Lemma animate_ready (hits : option nat) (st : State) :
  fieldReady st -> hitInRange st hits ->
  exists st',
    animate c hits st = Ok st' /\
    fieldReady st' /\
    List.length (dotPositions st') = List.length (dotPositions st) /\
    (hoveredInstanceId st', hoverCooldown st')
    = updateHovered c hits (hoveredInstanceId st) (hoverCooldown st).
Proof.
  intros Hr Hhit.
  destruct (handleHover_ready hits st Hr Hhit) as (st1 & E & [Hm Hh] & L & U).
  destruct (smoothLiftUpdate_hover st1) as (Eh & Ec & El & Em).
  exists (smoothLiftUpdate c st1). unfold animate. rewrite E. cbn [Js.bind].
  split; [reflexivity |]. split; [| split].
  - split; [auto |]. rewrite Eh, El. exact Hh.
  - congruence.
  - rewrite Eh, Ec. exact U.
Qed.

Lemma animateFrames_ready (frames : list (option nat)) :
  forall st : State,
  fieldReady st ->
  Forall (hitInRange st) frames ->
  exists st',
    animateFrames c frames st = Ok st' /\
    fieldReady st' /\
    List.length (dotPositions st') = List.length (dotPositions st) /\
    (hoveredInstanceId st', hoverCooldown st')
    = hoverTrace c frames (hoveredInstanceId st, hoverCooldown st).
Proof.
  induction frames as [| hits tl IH]; intros st Hr Hall.
  - exists st. repeat split; auto; apply Hr.
  - destruct (animate_ready hits st Hr (Forall_inv Hall))
      as (st1 & E & Hr1 & L1 & U1).
    destruct (IH st1 Hr1) as (st' & E' & Hr' & L' & U').
    { eapply Forall_impl; [| exact (Forall_inv_tail Hall)].
      intros h Hh id Hid. rewrite L1. now apply Hh. }
    exists st'. cbn [animateFrames]. rewrite E. cbn [Js.bind].
    repeat split; [exact E' | apply Hr' | apply Hr' | congruence |].
    rewrite U'. unfold hoverTrace. cbn [fold_left fst snd].
    now rewrite U1.
Qed.

End HoverFrame.

(** Without hotspots [buildDotsFromFile] builds the dot field and no line. *)
Lemma forEachPair_no_hotspots (c : Config) (st : State)
    (pairs : list ConnectionPair) (acc : list PairLine) :
  hotspotData st = [] -> forEachPair c st pairs acc = Ok acc.
Proof.
  intros E. revert acc. induction pairs as [| p tl IH]; intros acc;
    [reflexivity |].
  cbn [forEachPair]. unfold buildPairConnection. rewrite E.
  replace (findHotspotIndexById [] (fromId p)) with (-1)%Z
    by (unfold findHotspotIndexById; now destruct (falsyId (fromId p))).
  cbn. apply IH.
Qed.

Lemma buildDotsFromFile_no_hotspots (c : Config) (dots : list (R * R)) :
  buildDotsFromFile c [] dots = Ok (dotField c dots).
Proof.
  unfold buildDotsFromFile.
  cbn [groupByType groupFrom objectEntries indexedEntries map filter app
       bindGroups Js.bind].
  unfold buildHotspotConnectionLine. cbn [hotspotData List.length Nat.ltb Nat.leb].
  rewrite orb_true_r. cbn [Js.bind].
  unfold buildHotspotPairConnections.
  destruct (negb (enabled (connectionLine c))); [reflexivity |].
  destruct (connectionPairs c) as [[| p tl] |]; try reflexivity.
  rewrite forEachPair_no_hotspots; reflexivity.
Qed.

(** The id is released only on a frame without a hit that starts with the
    cooldown at zero. *)
Lemma hover_released_only_at_zero (c : Config) (hits : option nat)
    (hovered : option nat) (cooldown : Z) (id : nat) :
  hovered = Some id ->
  fst (updateHovered c hits hovered cooldown) = None ->
  hits = None /\ (cooldown <= 0)%Z.
Proof.
  intros -> H. unfold updateHovered in H. cbn [fst] in H.
  destruct hits as [h |].
  - destruct (negb (isHovered (Some id) h)); discriminate.
  - destruct (Z.leb_spec cooldown 0); [auto | discriminate].
Qed.

(** The cooldown is set when the hovered id changes and then runs down on
    every frame, also on the frames in which the ray still hits the dot. *)
Lemma cooldown_runs_down_while_hit (c : Config) (id : nat) (cooldown : Z) :
  updateHovered c (Some id) (Some id) cooldown
  = (Some id, Z.max (cooldown - 1) 0).
Proof. unfold updateHovered, isHovered. now rewrite Nat.eqb_refl. Qed.

(** A dot left right after it was entered is held: with a cooldown of 3 the
    id survives the first frame without a hit. *)
Lemma hover_held_after_short_visit :
  hoverTrace (exampleConfig 3) [Some 0%nat; None] (None, 0%Z)
  = (Some 0%nat, 1%Z).
Proof. reflexivity. Qed.

(** C2, as the code behaves. Cooldown 3, one dot: the ray hits the dot for
    four frames and then misses. The cooldown has run down to 0 during the
    four frames, so the id is dropped on the very first frame without a hit
    instead of being held for the cooldown. *)
Theorem hover_hold_lost_after_resting :
  exists st0 st4 st5,
    buildDotsFromFile (exampleConfig 3) [] [(0, 0)] = Ok st0 /\
    animateFrames (exampleConfig 3)
      [Some 0%nat; Some 0%nat; Some 0%nat; Some 0%nat] st0 = Ok st4 /\
    hoveredInstanceId st4 = Some 0%nat /\
    hoverCooldown st4 = 0%Z /\
    animate (exampleConfig 3) None st4 = Ok st5 /\
    hoveredInstanceId st5 = None.
Proof.
  eexists.
  assert (Hr : fieldReady (dotField (exampleConfig 3) [(0, 0)]))
    by (split; [discriminate | intros id; discriminate]).
  destruct (animateFrames_ready (exampleConfig 3)
              [Some 0%nat; Some 0%nat; Some 0%nat; Some 0%nat] _ Hr)
    as (st4 & E4 & Hr4 & L4 & U4).
  { repeat (apply Forall_cons; [intros id [= <-]; cbn; lia |]).
    apply Forall_nil. }
  injection U4 as Uh Uc.
  assert (Hhit : hitInRange st4 None) by (intros id; discriminate).
  destruct (animate_ready (exampleConfig 3) None st4 Hr4 Hhit)
    as (st5 & E5 & _ & _ & U5).
  exists st4, st5.
  split; [apply buildDotsFromFile_no_hotspots |].
  split; [exact E4 |].
  split; [exact Uh |].
  split; [exact Uc |].
  split; [exact E5 |].
  rewrite Uh, Uc in U5. injection U5 as U5 _. exact U5.
Qed.

(** ** Influence of a hover event *)

Lemma planarDistance_nonneg (c : Config) (p q : Dot.t) :
  0 <= planarDistance c p q.
Proof. apply sqrt_pos. Qed.

Lemma planarDistance_self (c : Config) (p : Dot.t) : planarDistance c p p = 0.
Proof.
  unfold planarDistance.
  replace (Dot.x p - Dot.x p) with 0 by lra.
  replace (Dot.y p - Dot.y p) with 0 by lra.
  replace (0 * SPACING c * (0 * SPACING c) + 0 * SPACING c * (0 * SPACING c))
    with 0 by lra.
  apply sqrt_0.
Qed.

Section Influence.

Variable c : Config.
Hypothesis radius_pos : 0 < radius (hover c).

(** Inside the outer radius the target lift is raised to the Gaussian
    value, unless it is higher already; from the outer radius on (the
    boundary included) the dot is left as it is. *)
Lemma liftDot_spec (center p : Dot.t) :
  (planarDistance c p center < 1.4 * radius (hover c) ->
   liftDot c center p
   = Dot.setTargetLift p
       (Rmax (Dot.targetLift p)
             (gaussianLift c (planarDistance c p center)))) /\
  (1.4 * radius (hover c) <= planarDistance c p center ->
   liftDot c center p = p).
Proof.
  unfold liftDot, planarDistance, gaussianLift.
  set (r := radius (hover c)) in *.
  set (dx := (Dot.x p - Dot.x center) * SPACING c).
  set (dy := (Dot.y p - Dot.y center) * SPACING c).
  assert (Hd2 : 0 <= dx * dx + dy * dy) by nra.
  set (d2 := dx * dx + dy * dy) in *.
  assert (Hs := sqrt_sqrt d2 Hd2).
  assert (Hp := sqrt_pos d2).
  set (d := sqrt d2) in *.
  split; intros H.
  - assert (Hlt : d * d < 1.4 * r * (1.4 * r))
      by (apply Rmult_le_0_lt_compat; lra).
    rewrite ltb_true by lra.
    f_equal. f_equal.
    replace (- (d * (1 / r)) * (d * (1 / r)))
      with (- (d / r) ^ 2) by (field; lra).
    apply Rmult_comm.
  - assert (Hge : 1.4 * r * (1.4 * r) <= d * d)
      by (apply Rmult_le_compat; lra).
    rewrite ltb_false by lra. reflexivity.
Qed.

Lemma liftDot_center (p : Dot.t) :
  Dot.targetLift p <= maxLift (hover c) ->
  Dot.targetLift (liftDot c p p) = maxLift (hover c).
Proof.
  intros H. destruct (liftDot_spec p p) as [Hin _].
  rewrite Hin by (rewrite planarDistance_self; lra).
  cbn [Dot.targetLift Dot.setTargetLift].
  unfold gaussianLift. rewrite planarDistance_self.
  replace (- (0 / radius (hover c)) ^ 2) with 0 by (field; lra).
  rewrite exp_0, Rmult_1_r. apply Rmax_right. exact H.
Qed.

End Influence.

(** At exactly 1.4 radii from the hovered dot a dot is not lifted: with
    radius 5 and unit spacing, hovering the dot at (0, 0) leaves the target
    lift of the dot at (7, 0) at 0, where the Gaussian value is positive. *)
Lemma hover_boundary_dot_not_lifted :
  exists st0 st1 center p p',
    buildDotsFromFile (exampleConfig 3) [] [(0, 0); (7, 0)] = Ok st0 /\
    handleHover (exampleConfig 3) (Some 0%nat) st0 = Ok st1 /\
    hoveredInstanceId st1 = Some 0%nat /\
    nth_error (dotPositions st0) 0 = Some center /\
    nth_error (dotPositions st0) 1 = Some p /\
    nth_error (dotPositions st1) 1 = Some p' /\
    planarDistance (exampleConfig 3) p center
    <= 1.4 * radius (hover (exampleConfig 3)) /\
    Dot.targetLift p' = 0 /\
    Dot.targetLift p'
    <> Rmax (Dot.targetLift p)
            (maxLift (hover (exampleConfig 3))
             * exp (- (planarDistance (exampleConfig 3) p center
                       / radius (hover (exampleConfig 3))) ^ 2)).
Proof.
  assert (Hr : 0 < radius (hover (exampleConfig 3))) by (cbn; lra).
  assert (Hd : planarDistance (exampleConfig 3) (newDot (7, 0)) (newDot (0, 0))
               = 7).
  { unfold planarDistance. cbn.
    replace ((7 - 0) * 1 * ((7 - 0) * 1) + (0 - 0) * 1 * ((0 - 0) * 1))
      with (7 * 7) by lra.
    apply sqrt_square. lra. }
  assert (Hp : liftDot (exampleConfig 3) (newDot (0, 0)) (newDot (7, 0))
               = newDot (7, 0)).
  { apply (liftDot_spec (exampleConfig 3) Hr). rewrite Hd. cbn. lra. }
  do 2 eexists. exists (newDot (0, 0)), (newDot (7, 0)), (newDot (7, 0)).
  split; [apply buildDotsFromFile_no_hotspots |].
  split.
  { apply (handleHover_lifting _ _ _ 0%nat (newDot (0, 0)));
      [discriminate | reflexivity | reflexivity]. }
  split; [reflexivity |].
  split; [reflexivity |].
  split; [reflexivity |].
  split.
  { cbn [dotPositions setLifted dotField map nth_error]. now rewrite Hp. }
  rewrite Hd. split; [cbn; lra |].
  split; [reflexivity |].
  cbn [Dot.targetLift newDot fst snd].
  assert (He := exp_pos (- (7 / radius (hover (exampleConfig 3))) ^ 2)).
  assert (Hm : maxLift (hover (exampleConfig 3)) = 1) by reflexivity.
  rewrite Hm, Rmult_1_l.
  unfold Rmax. destruct Rle_dec; lra.
Qed.

(** C4, as the code has it. For a positive radius r and a hover event on a
    built map with hovered dot [center]: every dot at planar distance
    d < 1.4 r gets [max(targetLift, maxLift * exp(-(d/r)^2))] as its target
    lift (the hovered dot itself gets exactly [maxLift] when its target lift
    was at most [maxLift]), and every dot at distance d >= 1.4 r is left
    unchanged. *)
Theorem hover_influence (c : Config) (hits : option nat) (st st' : State)
    (id : nat) (center : Dot.t) :
  0 < radius (hover c) ->
  meshes st <> None ->
  handleHover c hits st = Ok st' ->
  hoveredInstanceId st' = Some id ->
  nth_error (dotPositions st) id = Some center ->
  forall (i : nat) (p : Dot.t),
    nth_error (dotPositions st) i = Some p ->
    exists p',
      nth_error (dotPositions st') i = Some p' /\
      (planarDistance c p center < 1.4 * radius (hover c) ->
       p' = Dot.setTargetLift p
              (Rmax (Dot.targetLift p)
                    (maxLift (hover c)
                     * exp (- (planarDistance c p center / radius (hover c))
                              ^ 2)))) /\
      (1.4 * radius (hover c) <= planarDistance c p center -> p' = p) /\
      (i = id -> Dot.targetLift p <= maxLift (hover c) ->
       Dot.targetLift p' = maxLift (hover c)).
Proof.
  intros Hr Hm E Hid Hc i p Hp.
  assert (Eu : fst (updateHovered c hits (hoveredInstanceId st)
                      (hoverCooldown st)) = Some id).
  { destruct (fst (updateHovered c hits (hoveredInstanceId st)
                     (hoverCooldown st))) as [j |] eqn:Ej.
    - destruct (nth_error (dotPositions st) j) as [cj |] eqn:Ecj.
      + rewrite (handleHover_lifting c hits st j cj Hm Ej Ecj) in E.
        injection E as <-. exact Hid.
      + unfold handleHover in E. destruct (meshes st); [| contradiction].
        rewrite Ej in E. cbn [dotPositions setHover] in E. rewrite Ecj in E.
        destruct (dotPositions st); [destruct id; discriminate | discriminate].
    - rewrite (handleHover_released c hits st Hm Ej) in E.
      injection E as <-. discriminate. }
  rewrite (handleHover_lifting c hits st id center Hm Eu Hc) in E.
  injection E as <-. cbn [dotPositions setLifted].
  exists (liftDot c center p).
  split; [now rewrite nth_error_map, Hp |].
  destruct (liftDot_spec c Hr center p) as [Hin Hout].
  split; [exact Hin |]. split; [exact Hout |].
  intros -> Hle. assert (p = center) by congruence. subst p.
  apply liftDot_center; assumption.
Qed.

Lemma hover_influence_witness :
  exists st1 p',
    handleHover (exampleConfig 3) (Some 0%nat)
      (dotField (exampleConfig 3) [(0, 0); (7, 0)]) = Ok st1 /\
    nth_error (dotPositions st1) 0 = Some p' /\
    Dot.targetLift p' = 1.
Proof.
  assert (Hr : 0 < radius (hover (exampleConfig 3))) by (cbn; lra).
  assert (Hm : meshes (dotField (exampleConfig 3) [(0, 0); (7, 0)]) <> None)
    by discriminate.
  assert (E : handleHover (exampleConfig 3) (Some 0%nat)
                (dotField (exampleConfig 3) [(0, 0); (7, 0)])
              = Ok (setLifted
                      (setHover (dotField (exampleConfig 3) [(0, 0); (7, 0)])
                         (Some 0%nat) 2)
                      (map (liftDot (exampleConfig 3) (newDot (0, 0)))
                         [newDot (0, 0); newDot (7, 0)]))).
  { exact (handleHover_lifting (exampleConfig 3) (Some 0%nat)
             (dotField (exampleConfig 3) [(0, 0); (7, 0)]) 0%nat
             (newDot (0, 0)) Hm eq_refl eq_refl). }
  destruct (hover_influence (exampleConfig 3) (Some 0%nat) _ _ 0%nat
              (newDot (0, 0)) Hr Hm E eq_refl eq_refl 0%nat (newDot (0, 0))
              eq_refl)
    as (p' & Hn & _ & _ & Hc).
  eexists. exists p'. split; [exact E |]. split; [exact Hn |].
  apply Hc; [reflexivity | cbn; lra].
Defined.

(** ** Lift easing *)

Section Easing.

Variable c : Config.

Lemma easeDot_still (p : Dot.t) :
  withinThreshold c p ->
  easeDot c p
  = (Dot.setTargetLift p (Dot.targetLift p * hoverFalloff c), false).
Proof.
  intros H. unfold easeDot. cbn [Dot.targetLift Dot.lift Dot.setTargetLift].
  now rewrite gtb_false.
Qed.

Lemma easeDot_moved (p : Dot.t) :
  Rabs (easeDelta c p) > threshold (hover c) ->
  easeDot c p
  = (Dot.setLift
       (Dot.setTargetLift p (Dot.targetLift p * hoverFalloff c))
       (Dot.lift p + easeDelta c p * easing (hover c)),
     true).
Proof.
  intros H. unfold easeDot. cbn [Dot.targetLift Dot.lift Dot.setTargetLift].
  now rewrite gtb_true.
Qed.

(** Whether or not the dot moves, its target lift is multiplied by the
    falloff. *)
Lemma easeDot_target (p : Dot.t) :
  Dot.targetLift (fst (easeDot c p)) = Dot.targetLift p * hoverFalloff c.
Proof.
  unfold easeDot. destruct Js.gtb; reflexivity.
Qed.

Lemma easeDot_nonneg (p : Dot.t) :
  0 <= hoverFalloff c -> 0 <= easing (hover c) <= 1 ->
  0 <= Dot.lift p /\ 0 <= Dot.targetLift p ->
  0 <= Dot.lift (fst (easeDot c p)) /\ 0 <= Dot.targetLift (fst (easeDot c p)).
Proof.
  intros Hf He [Hl Ht]. split; [| rewrite easeDot_target; nra].
  unfold easeDot. destruct Js.gtb; cbn; [| exact Hl].
  assert (0 <= Dot.targetLift p * hoverFalloff c) by nra.
  nra.
Qed.

Lemma liftDot_nonneg (center p : Dot.t) :
  0 <= Dot.lift p /\ 0 <= Dot.targetLift p ->
  0 <= Dot.lift (liftDot c center p)
  /\ 0 <= Dot.targetLift (liftDot c center p).
Proof.
  intros [Hl Ht]. unfold liftDot. destruct Js.ltb; cbn; [| auto].
  split; [exact Hl |].
  eapply Rle_trans; [exact Ht | apply Rmax_l].
Qed.

(** The instance matrix of a dot that did not move is not written. *)
Lemma easeMatrices_nth (eased : list (Dot.t * bool)) :
  forall (matrices : list Vec3.t) (i : nat) (p : Dot.t),
  nth_error eased i = Some (p, false) ->
  nth_error (easeMatrices c eased matrices) i = nth_error matrices i.
Proof.
  induction eased as [| [q moved] tl IH]; intros matrices i p H.
  - destruct i; discriminate.
  - destruct matrices as [| m mtl]; [reflexivity |].
    destruct i as [| j]; cbn in *.
    + injection H as -> ->. reflexivity.
    + eapply IH; eauto.
Qed.

Lemma easeMatrices_still (eased : list (Dot.t * bool)) :
  Forall (fun e => snd e = false) eased ->
  forall matrices, easeMatrices c eased matrices = matrices.
Proof.
  induction 1 as [| [q moved] tl Hq Htl IH]; intros [| m mtl]; cbn in *;
    try reflexivity.
  subst moved. now rewrite IH.
Qed.

Lemma smoothLiftUpdate_quiescent (st : State) :
  liftActive st = false -> hoveredInstanceId st = None ->
  smoothLiftUpdate c st = st.
Proof.
  intros Ha Hh. unfold smoothLiftUpdate. rewrite Ha, Hh.
  now destruct (meshes st) as [[dm pm] |].
Qed.

Lemma smoothLiftUpdate_running (st : State) (dotMesh proxyMesh : list Vec3.t) :
  meshes st = Some (dotMesh, proxyMesh) ->
  negb (liftActive st) && isNull (hoveredInstanceId st) = false ->
  smoothLiftUpdate c st
  = Build_State
      (Some (easeMatrices c (map (easeDot c) (dotPositions st)) dotMesh,
             easeMatrices c (map (easeDot c) (dotPositions st)) proxyMesh))
      (map fst (map (easeDot c) (dotPositions st)))
      (hotspotData st) (hotspotLine st) (hotspotPairLines st)
      (hoveredInstanceId st) (hoverCooldown st)
      (if negb (existsb snd (map (easeDot c) (dotPositions st)))
          && isNull (hoveredInstanceId st)
       then false else liftActive st).
Proof. intros Em E. unfold smoothLiftUpdate. now rewrite Em, E. Qed.

Lemma smoothLiftUpdate_dots (st : State) :
  dotPositions (smoothLiftUpdate c st) = dotPositions st
  \/ dotPositions (smoothLiftUpdate c st)
     = map fst (map (easeDot c) (dotPositions st)).
Proof.
  unfold smoothLiftUpdate. destruct (meshes st) as [[dm pm] |]; [| now left].
  destruct (negb (liftActive st) && isNull (hoveredInstanceId st));
    [now left | now right].
Qed.

(** All dots within the threshold: an easing pass decays the targets,
    moves nothing and, with no dot hovered, puts the engine to rest. *)
Lemma smoothLiftUpdate_all_still (st : State) :
  Forall (withinThreshold c) (dotPositions st) ->
  map Dot.lift (dotPositions (smoothLiftUpdate c st))
  = map Dot.lift (dotPositions st) /\
  meshes (smoothLiftUpdate c st) = meshes st /\
  hoveredInstanceId (smoothLiftUpdate c st) = hoveredInstanceId st /\
  (hoveredInstanceId st = None -> meshes st <> None ->
   liftActive (smoothLiftUpdate c st) = false).
Proof.
  intros Hall.
  assert (Hstill : Forall (fun e => snd e = false)
                     (map (easeDot c) (dotPositions st))).
  { apply Forall_map. eapply Forall_impl; [| exact Hall].
    intros p Hp. now rewrite easeDot_still. }
  assert (Hlift : map Dot.lift (map fst (map (easeDot c) (dotPositions st)))
                  = map Dot.lift (dotPositions st)).
  { rewrite !map_map. apply map_ext_Forall.
    eapply Forall_impl; [| exact Hall].
    intros p Hp. now rewrite easeDot_still. }
  assert (Hdirty : existsb snd (map (easeDot c) (dotPositions st)) = false).
  { clear Hlift. induction Hstill as [| e tl He Htl IH]; [reflexivity |].
    cbn. now rewrite He, IH. }
  destruct (meshes st) as [[dm pm] |] eqn:Em.
  - destruct (negb (liftActive st) && isNull (hoveredInstanceId st)) eqn:E.
    + apply andb_true_iff in E. destruct E as [Ea Eh].
      apply negb_true_iff in Ea.
      assert (Hq : smoothLiftUpdate c st = st).
      { unfold smoothLiftUpdate. now rewrite Em, Ea, Eh. }
      rewrite Hq. repeat split; auto.
    + rewrite (smoothLiftUpdate_running st dm pm Em E).
      cbn [dotPositions meshes hoveredInstanceId liftActive].
      rewrite !(easeMatrices_still _ Hstill), Hdirty.
      repeat split; auto.
      intros -> _. reflexivity.
  - assert (Hq : smoothLiftUpdate c st = st)
      by (unfold smoothLiftUpdate; now rewrite Em).
    rewrite Hq, Em. repeat split; auto. intros _ H. now elim H.
Qed.

End Easing.

(** ** Frames without hover *)

Section IdleFrames.

Variable c : Config.

(** With no dot hovered and no hit, [handleHover] only counts the cooldown
    down. *)
Lemma handleHover_idle (st : State) :
  hoveredInstanceId st = None ->
  exists st1,
    handleHover c None st = Ok st1 /\
    dotPositions st1 = dotPositions st /\
    meshes st1 = meshes st /\
    hoveredInstanceId st1 = None /\
    liftActive st1 = liftActive st.
Proof.
  intros Hh. destruct (meshes st) as [m |] eqn:Em.
  - assert (Hm : meshes st <> None) by congruence.
    assert (E : fst (updateHovered c None (hoveredInstanceId st)
                       (hoverCooldown st)) = None).
    { rewrite Hh. unfold updateHovered.
      now destruct (hoverCooldown st <=? 0)%Z. }
    rewrite (handleHover_released c None st Hm E).
    eexists. split; [reflexivity |]. repeat split. exact Em.
  - rewrite (handleHover_unbuilt c None st Em).
    exists st. repeat split; auto.
Qed.

Lemma animateFrames_idle_step (k : nat) (st st1 : State) :
  handleHover c None st = Ok st1 ->
  animateFrames c (repeat None (S k)) st
  = animateFrames c (repeat None k) (smoothLiftUpdate c st1).
Proof.
  intros E. cbn [repeat animateFrames]. unfold animate. now rewrite E.
Qed.

(** Once at rest, the engine changes no dot on a frame without hover. *)
Lemma idle_frames_at_rest (k : nat) :
  forall st : State,
  hoveredInstanceId st = None -> liftActive st = false ->
  exists st',
    animateFrames c (repeat None k) st = Ok st' /\
    dotPositions st' = dotPositions st /\
    meshes st' = meshes st /\
    hoveredInstanceId st' = None /\
    liftActive st' = false.
Proof.
  induction k as [| k IH]; intros st Hh Ha.
  - exists st. repeat split; auto.
  - destruct (handleHover_idle st Hh) as (st1 & E & Ed & Em & Eh & Ea).
    rewrite (animateFrames_idle_step k st st1 E).
    rewrite smoothLiftUpdate_quiescent by congruence.
    destruct (IH st1 Eh ltac:(congruence)) as (st' & E' & Ed' & Em' & H').
    exists st'. repeat split; try apply H'; congruence.
Qed.



End IdleFrames.


Lemma liftDot_lift (c : Config) (center p : Dot.t) :
  Dot.lift (liftDot c center p) = Dot.lift p.
Proof. unfold liftDot. now destruct Js.ltb. Qed.



(** ** Non-negative lifts *)

Lemma Forall_setAt (A : Type) (P : A -> Prop) (l : list A) (i : nat) (v : A) :
  Forall P l -> P v -> Forall P (Js.setAt l i v).
Proof.
  intros Hl Hv. revert i. induction Hl as [| h tl Hh Htl IH]; intros [| j];
    cbn; auto.
Qed.

Lemma dotField_lifts (c : Config) (dots : list (R * R)) :
  liftsNonNegative (dotField c dots).
Proof.
  unfold liftsNonNegative. cbn [dotPositions dotField].
  apply Forall_map, Forall_forall. intros xy _. cbn. lra.
Qed.

Lemma bindHotspot_dots (hotspotHeight idlePhaseStep : R) (type : string)
    (i : nat) (hs : RawHotspot) (st st' : State) :
  bindHotspot hotspotHeight idlePhaseStep type i hs st = Ok st' ->
  exists (n : nat) (p : Dot.t) (idx : Z),
    In p (dotPositions st) /\
    dotPositions st' = Js.setAt (dotPositions st) n (Dot.setHotspot p idx).
Proof.
  unfold bindHotspot.
  set (best := nearestDot _ _).
  destruct (Js.index (dotPositions st) best) as [p |] eqn:E; [| discriminate].
  intros [= <-]. exists (Z.to_nat best), p, (Z.of_nat (List.length (hotspotData st))).
  split; [| reflexivity].
  unfold Js.index in E. destruct (best <? 0)%Z; [discriminate |].
  eapply nth_error_In; eauto.
Qed.

(** Binding writes the back-reference of a dot and no lift. *)
Lemma bindHotspot_lifts (hotspotHeight idlePhaseStep : R) (type : string)
    (i : nat) (hs : RawHotspot) (st st' : State) :
  bindHotspot hotspotHeight idlePhaseStep type i hs st = Ok st' ->
  liftsNonNegative st -> liftsNonNegative st'.
Proof.
  intros E H.
  destruct (bindHotspot_dots _ _ _ _ _ _ _ E) as (n & p & idx & Hp & Ed).
  unfold liftsNonNegative. rewrite Ed.
  apply Forall_setAt; [exact H |].
  unfold liftsNonNegative in H. rewrite Forall_forall in H. exact (H p Hp).
Qed.

Lemma buildHotspotConnectionLine_dots (c : Config) (st st' : State) :
  buildHotspotConnectionLine c st = Ok st' ->
  dotPositions st' = dotPositions st.
Proof.
  unfold buildHotspotConnectionLine.
  destruct (negb (isSequentialConnectionEnabled c)
            || (List.length (hotspotData st) <? 2)%nat);
    [now intros [= <-] |].
  destruct (collectHotspotArcPoints c (clearHotspotConnectionLine st))
    as [points | e]; [| discriminate].
  cbn [Js.bind]. destruct (List.length points <? 2)%nat; now intros [= <-].
Qed.

Lemma buildHotspotPairConnections_dots (c : Config) (st st' : State) :
  buildHotspotPairConnections c st = Ok st' ->
  dotPositions st' = dotPositions st.
Proof.
  unfold buildHotspotPairConnections.
  destruct (negb (enabled (connectionLine c))); [now intros [= <-] |].
  destruct (connectionPairs c) as [[| p tl] |]; try (now intros [= <-]).
  destruct (forEachPair c (clearHotspotPairConnections st) (p :: tl) [])
    as [lines | e]; [| discriminate].
  now intros [= <-].
Qed.

Lemma handleHover_lifts (c : Config) (hits : option nat) (st st' : State) :
  handleHover c hits st = Ok st' ->
  liftsNonNegative st -> liftsNonNegative st'.
Proof.
  unfold handleHover, liftsNonNegative.
  destruct (meshes st); [| now intros [= <-]].
  destruct (fst (updateHovered c hits (hoveredInstanceId st) (hoverCooldown st)))
    as [id |]; [| now intros [= <-]].
  cbn [dotPositions setHover].
  destruct (nth_error (dotPositions st) id) as [center |].
  - intros [= <-] H. cbn [dotPositions setLifted].
    apply Forall_map. eapply Forall_impl; [| exact H].
    intros q Hq. now apply liftDot_nonneg.
  - destruct (dotPositions st); [| discriminate].
    intros [= <-] _. constructor.
Qed.

Lemma smoothLiftUpdate_lifts (c : Config) (st : State) :
  0 <= hoverFalloff c -> 0 <= easing (hover c) <= 1 ->
  liftsNonNegative st -> liftsNonNegative (smoothLiftUpdate c st).
Proof.
  intros Hf He H. unfold liftsNonNegative in *.
  destruct (smoothLiftUpdate_dots c st) as [-> | ->]; [exact H |].
  rewrite map_map. apply Forall_map. eapply Forall_impl; [| exact H].
  intros p Hp. now apply easeDot_nonneg.
Qed.

(** What [buildDotsFromFile] returns is a reachable state. *)
Lemma bindGroupFrom_reachable (c : Config) (hotspotHeight idlePhaseStep : R)
    (type : string) (list : list RawHotspot) :
  forall (i : nat) (st st' : State),
  reachable c st ->
  bindGroupFrom hotspotHeight idlePhaseStep type i list st = Ok st' ->
  reachable c st'.
Proof.
  induction list as [| hs tl IH]; intros i st st' Hr E; cbn in E.
  - now injection E as <-.
  - destruct (bindHotspot hotspotHeight idlePhaseStep type i hs st)
      as [st1 | e] eqn:E1; [| discriminate].
    cbn [Js.bind] in E. eapply IH; [| exact E].
    eapply reach_bind; eauto.
Qed.

Lemma bindGroups_reachable (c : Config) (hotspotHeight idlePhaseStep : R)
    (grouped : list (string * list RawHotspot)) :
  forall st st' : State,
  reachable c st ->
  bindGroups hotspotHeight idlePhaseStep grouped st = Ok st' ->
  reachable c st'.
Proof.
  induction grouped as [| [type list] tl IH]; intros st st' Hr E; cbn in E.
  - now injection E as <-.
  - destruct (bindGroupFrom hotspotHeight idlePhaseStep type 0 list st)
      as [st1 | e] eqn:E1; [| discriminate].
    cbn [Js.bind] in E. eapply IH; [| exact E].
    eapply bindGroupFrom_reachable; eauto.
Qed.

Lemma buildDotsFromFile_reachable (c : Config) (HOTSPOTS : list RawHotspot)
    (dots : list (R * R)) (st : State) :
  buildDotsFromFile c HOTSPOTS dots = Ok st -> reachable c st.
Proof.
  intros E.
  destruct (buildDotsFromFile_inv c HOTSPOTS dots st E)
    as (st1 & st2 & _ & E1 & E2 & E3).
  eapply reach_pairs; [| exact E3].
  eapply reach_line; [| exact E2].
  eapply bindGroups_reachable; [| exact E1].
  apply reach_dots.
Qed.

(** Every record of [hotspotData] refers to an existing dot, in every
    reachable state: the arc builders never read a missing dot. *)
Lemma boundTo_length (dots dots' : list Dot.t) (hs : HotspotRecord) :
  List.length dots' = List.length dots -> boundTo dots hs -> boundTo dots' hs.
Proof. unfold boundTo. intros ->. auto. Qed.

Lemma bindHotspot_bound (hotspotHeight idlePhaseStep : R) (type : string)
    (i : nat) (hs : RawHotspot) (st st' : State) :
  bindHotspot hotspotHeight idlePhaseStep type i hs st = Ok st' ->
  Forall (boundTo (dotPositions st)) (hotspotData st) ->
  Forall (boundTo (dotPositions st')) (hotspotData st').
Proof.
  unfold bindHotspot.
  set (best := nearestDot _ _).
  destruct (Js.index (dotPositions st) best) as [p |] eqn:E; [| discriminate].
  intros [= <-] H. cbn [dotPositions hotspotData setBinding].
  apply Forall_app. split.
  - eapply Forall_impl; [| exact H].
    intros r Hr. eapply boundTo_length; [apply length_setAt | exact Hr].
  - constructor; [| constructor].
    unfold boundTo. cbn [dotIndex]. rewrite length_setAt.
    exact (index_some_range _ _ _ _ E).
Qed.

Lemma buildHotspotConnectionLine_hotspots (c : Config) (st st' : State) :
  buildHotspotConnectionLine c st = Ok st' ->
  hotspotData st' = hotspotData st.
Proof.
  unfold buildHotspotConnectionLine.
  destruct (negb (isSequentialConnectionEnabled c)
            || (List.length (hotspotData st) <? 2)%nat);
    [now intros [= <-] |].
  destruct (collectHotspotArcPoints c (clearHotspotConnectionLine st))
    as [points | e]; [| discriminate].
  cbn [Js.bind]. destruct (List.length points <? 2)%nat; now intros [= <-].
Qed.

Lemma buildHotspotPairConnections_hotspots (c : Config) (st st' : State) :
  buildHotspotPairConnections c st = Ok st' ->
  hotspotData st' = hotspotData st.
Proof.
  unfold buildHotspotPairConnections.
  destruct (negb (enabled (connectionLine c))); [now intros [= <-] |].
  destruct (connectionPairs c) as [[| p tl] |]; try (now intros [= <-]).
  destruct (forEachPair c (clearHotspotPairConnections st) (p :: tl) [])
    as [lines | e]; [| discriminate].
  now intros [= <-].
Qed.

Lemma handleHover_hotspots (c : Config) (hits : option nat) (st st' : State) :
  handleHover c hits st = Ok st' ->
  hotspotData st' = hotspotData st /\
  List.length (dotPositions st') = List.length (dotPositions st).
Proof.
  unfold handleHover.
  destruct (meshes st); [| now intros [= <-]].
  destruct (fst (updateHovered c hits (hoveredInstanceId st) (hoverCooldown st)))
    as [id |]; [| now intros [= <-]].
  cbn [dotPositions setHover].
  destruct (nth_error (dotPositions st) id) as [center |].
  - intros [= <-]. cbn [dotPositions hotspotData setLifted setHover].
    now rewrite length_map.
  - destruct (dotPositions st) eqn:Ed; [| discriminate].
    intros [= <-]. cbn [dotPositions hotspotData setLifted setHover]. auto.
Qed.

Lemma smoothLiftUpdate_hotspots (c : Config) (st : State) :
  hotspotData (smoothLiftUpdate c st) = hotspotData st.
Proof.
  unfold smoothLiftUpdate. destruct (meshes st) as [[dm pm] |]; [| reflexivity].
  now destruct (negb (liftActive st) && isNull (hoveredInstanceId st)).
Qed.

Lemma reachable_bound (c : Config) (st : State) :
  reachable c st -> Forall (boundTo (dotPositions st)) (hotspotData st).
Proof.
  induction 1 as [| dots | h s t i hs st st' _ IH E | st st' _ IH E
                  | st st' _ IH E | hits st st' _ IH E | st _ IH].
  - constructor.
  - constructor.
  - exact (bindHotspot_bound _ _ _ _ _ _ _ E IH).
  - rewrite (buildHotspotConnectionLine_hotspots _ _ _ E),
      (buildHotspotConnectionLine_dots _ _ _ E). exact IH.
  - rewrite (buildHotspotPairConnections_hotspots _ _ _ E),
      (buildHotspotPairConnections_dots _ _ _ E). exact IH.
  - destruct (handleHover_hotspots _ _ _ _ E) as [-> L].
    eapply Forall_impl; [| exact IH].
    intros r Hr. eapply boundTo_length; eauto.
  - rewrite smoothLiftUpdate_hotspots.
    destruct (smoothLiftUpdate_hover c st) as (_ & _ & L & _).
    eapply Forall_impl; [| exact IH].
    intros r Hr. eapply boundTo_length; eauto.
Qed.

(** C9. With a non-negative [maxLift], a falloff in [0, 1] and an easing in
    [0, 1], the lift and the target lift of every dot are non-negative in
    every state the program reaches: after the dot field is created and
    after every binding, line build, hover pass and easing pass. *)
Theorem lifts_never_negative (c : Config) (st : State) :
  0 <= maxLift (hover c) ->
  0 <= hoverFalloff c <= 1 ->
  0 <= easing (hover c) <= 1 ->
  reachable c st ->
  liftsNonNegative st.
Proof.
  intros _ [Hf _] He Hr.
  induction Hr as [| dots | h s t i hs st st' _ IH E | st st' _ IH E
                   | st st' _ IH E | hits st st' _ IH E | st _ IH].
  - constructor.
  - apply dotField_lifts.
  - exact (bindHotspot_lifts _ _ _ _ _ _ _ E IH).
  - unfold liftsNonNegative.
    now rewrite (buildHotspotConnectionLine_dots _ _ _ E).
  - unfold liftsNonNegative.
    now rewrite (buildHotspotPairConnections_dots _ _ _ E).
  - exact (handleHover_lifts _ _ _ _ E IH).
  - now apply smoothLiftUpdate_lifts.
Qed.

Lemma lifts_never_negative_witness :
  exists st1,
    handleHover (exampleConfig 3) (Some 0%nat)
      (dotField (exampleConfig 3) [(0, 0)]) = Ok st1 /\
    liftsNonNegative (smoothLiftUpdate (exampleConfig 3) st1).
Proof.
  eexists. split.
  - apply (handleHover_lifting _ _ _ 0%nat (newDot (0, 0)));
      [discriminate | reflexivity | reflexivity].
  - apply (lifts_never_negative (exampleConfig 3)).
    + cbn. lra.
    + cbn. lra.
    + cbn. lra.
    + apply reach_ease. eapply reach_hover; [apply reach_dots |].
      apply (handleHover_lifting _ _ _ 0%nat (newDot (0, 0)));
        [discriminate | reflexivity | reflexivity].
Defined.

(** ** Dots within the threshold *)

Lemma animateFrames_unbuilt (c : Config) (frames : list (option nat))
    (st : State) :
  meshes st = None -> animateFrames c frames st = Ok st.
Proof.
  intros Em. induction frames as [| hits tl IH]; [reflexivity |].
  cbn [animateFrames]. unfold animate.
  rewrite (handleHover_unbuilt c hits st Em). cbn [Js.bind].
  replace (smoothLiftUpdate c st) with st
    by (unfold smoothLiftUpdate; now rewrite Em).
  exact IH.
Qed.

Lemma still_dot_frame (c : Config) (st : State) (i : nat) (p : Dot.t) :
  nth_error (dotPositions st) i = Some p ->
  withinThreshold c p ->
  (exists p',
     nth_error (dotPositions (smoothLiftUpdate c st)) i = Some p' /\
     Dot.lift p' = Dot.lift p) /\
  (forall dotMesh proxyMesh,
     meshes st = Some (dotMesh, proxyMesh) ->
     exists dotMesh' proxyMesh',
       meshes (smoothLiftUpdate c st) = Some (dotMesh', proxyMesh') /\
       nth_error dotMesh' i = nth_error dotMesh i /\
       nth_error proxyMesh' i = nth_error proxyMesh i).
Proof.
  intros Hp Hstill.
  assert (He : nth_error (map (easeDot c) (dotPositions st)) i
               = Some (Dot.setTargetLift p (Dot.targetLift p * hoverFalloff c),
                       false)).
  { rewrite nth_error_map, Hp. cbn. now rewrite easeDot_still. }
  destruct (meshes st) as [[dm pm] |] eqn:Em.
  - destruct (negb (liftActive st) && isNull (hoveredInstanceId st)) eqn:E.
    + assert (Hq : smoothLiftUpdate c st = st)
        by (unfold smoothLiftUpdate; now rewrite Em, E).
      rewrite Hq. split; [now exists p |].
      intros dm' pm' [= <- <-]. exists dm, pm. now rewrite Em.
    + rewrite (smoothLiftUpdate_running c st dm pm Em E).
      cbn [dotPositions meshes]. split.
      * eexists. split; [rewrite nth_error_map, He; reflexivity |].
        reflexivity.
      * intros dm' pm' [= <- <-]. do 2 eexists. split; [reflexivity |].
        split; eapply easeMatrices_nth; exact He.
  - assert (Hq : smoothLiftUpdate c st = st)
      by (unfold smoothLiftUpdate; now rewrite Em).
    rewrite Hq. split; [now exists p |]. intros dm pm H. discriminate.
Qed.

Lemma still_field_persists (c : Config) (st : State) (k : nat) :
  hoveredInstanceId st = None ->
  Forall (withinThreshold c) (dotPositions st) ->
  exists st_k,
    animateFrames c (repeat None k) st = Ok st_k /\
    map Dot.lift (dotPositions st_k) = map Dot.lift (dotPositions st) /\
    meshes st_k = meshes st.
Proof.
  intros Hh Hall. destruct k as [| k]; [now exists st |].
  destruct (meshes st) as [m |] eqn:Em.
  - destruct (handleHover_idle c st Hh) as (st1 & E & Ed & Em1 & Eh & Ea).
    rewrite (animateFrames_idle_step c k st st1 E).
    assert (Hall1 : Forall (withinThreshold c) (dotPositions st1))
      by now rewrite Ed.
    destruct (smoothLiftUpdate_all_still c st1 Hall1) as (Hl & Hm & Hh1 & Hrest).
    destruct (idle_frames_at_rest c k (smoothLiftUpdate c st1))
      as (st_k & Ek & Edk & Emk & _).
    + congruence.
    + apply Hrest; congruence.
    + exists st_k. split; [exact Ek |]. split; congruence.
  - exists st. rewrite animateFrames_unbuilt by exact Em. auto.
Qed.

(** C10. On an easing tick, a dot whose difference between the (decayed)
    target lift and the lift is at most the threshold in absolute value keeps
    its lift, and its instance in the dot mesh and in the hover proxy mesh is
    not rewritten. Hence, with no dot hovered and every dot within the
    threshold, the lifts and the instance positions stay as they are on every
    later frame without a hit, whatever the remaining offset is. *)
Theorem still_dot_untouched (c : Config) (st : State) :
  (forall (i : nat) (p : Dot.t),
     nth_error (dotPositions st) i = Some p ->
     Rabs (Dot.targetLift p * hoverFalloff c - Dot.lift p)
     <= threshold (hover c) ->
     (exists p',
        nth_error (dotPositions (smoothLiftUpdate c st)) i = Some p' /\
        Dot.lift p' = Dot.lift p) /\
     (forall dotMesh proxyMesh,
        meshes st = Some (dotMesh, proxyMesh) ->
        exists dotMesh' proxyMesh',
          meshes (smoothLiftUpdate c st) = Some (dotMesh', proxyMesh') /\
          nth_error dotMesh' i = nth_error dotMesh i /\
          nth_error proxyMesh' i = nth_error proxyMesh i)) /\
  (hoveredInstanceId st = None ->
   (forall p, In p (dotPositions st) ->
      Rabs (Dot.targetLift p * hoverFalloff c - Dot.lift p)
      <= threshold (hover c)) ->
   forall k : nat,
   exists st_k,
     animateFrames c (repeat None k) st = Ok st_k /\
     map Dot.lift (dotPositions st_k) = map Dot.lift (dotPositions st) /\
     meshes st_k = meshes st).
Proof.
  split.
  - intros i p Hp Hstill. exact (still_dot_frame c st i p Hp Hstill).
  - intros Hh Hall k. apply still_field_persists; [exact Hh |].
    apply Forall_forall. exact Hall.
Qed.

Lemma still_dot_untouched_witness :
  exists st_k,
    animateFrames (exampleConfig 3) (repeat None 1000) residualField = Ok st_k /\
    map Dot.lift (dotPositions st_k) = [0.25] /\
    meshes st_k = meshes residualField.
Proof.
  destruct (still_dot_untouched (exampleConfig 3) residualField) as [_ H].
  apply H; [reflexivity |].
  intros p [<- | []]. cbn. rewrite Rabs_left; lra.
Defined.

(* ================================================================== *)
(** * Further properties of the binding step                           *)
(* ================================================================== *)



Lemma nth_error_setAt_same (A : Type) (l : list A) (n : nat) (v w : A) :
  nth_error l n = Some w -> nth_error (Js.setAt l n v) n = Some v.
Proof.
  revert n. induction l as [| h tl IH]; intros [| n] H; cbn in *;
    try discriminate; auto.
Qed.

Lemma nth_error_setAt_other (A : Type) (l : list A) (n m : nat) (v : A) :
  n <> m -> nth_error (Js.setAt l n v) m = nth_error l m.
Proof.
  revert n m. induction l as [| h tl IH]; intros [| n] [| m] H; cbn;
    try reflexivity; try congruence.
  apply IH. congruence.
Qed.



(** ** Grouping by type *)

Lemma groupOf_pushGroup (hs : RawHotspot) (k : string)
    (grouped : list (string * list RawHotspot)) :
  groupOf k (pushGroup hs grouped)
  = if typeIs k hs
    then Some (match groupOf k grouped with
               | Some l => l ++ [hs]
               | None => [hs]
               end)
    else groupOf k grouped.
Proof.
  unfold typeIs. induction grouped as [| [k' l] tl IH]; cbn [pushGroup groupOf].
  - rewrite String.eqb_sym. now destruct (String.eqb k (type hs)).
  - destruct (String.eqb_spec k' (type hs)) as [E1 | N1]; cbn [groupOf].
    + destruct (String.eqb_spec k' k) as [E2 | N2].
      * subst. now rewrite String.eqb_refl.
      * destruct (String.eqb_spec k (type hs)); [congruence | reflexivity].
    + destruct (String.eqb_spec k' k) as [E2 | N2]; [| exact IH].
      subst. destruct (String.eqb_spec k (type hs)); [congruence | reflexivity].
Qed.

Lemma keys_pushGroup (hs : RawHotspot)
    (grouped : list (string * list RawHotspot)) :
  map fst (pushGroup hs grouped) = map fst grouped
  \/ (~ In (type hs) (map fst grouped)
      /\ map fst (pushGroup hs grouped) = map fst grouped ++ [type hs]).
Proof.
  induction grouped as [| [k l] tl IH]; cbn [pushGroup map fst].
  - right. split; [intros [] | reflexivity].
  - destruct (String.eqb_spec k (type hs)) as [E | N]; [now left |].
    cbn [map fst]. destruct IH as [-> | [Hn ->]]; [now left |].
    right. split; [| reflexivity]. intros [H | H]; [congruence | auto].
Qed.

Lemma groupOf_in (grouped : list (string * list RawHotspot)) (k : string)
    (l : list RawHotspot) :
  NoDup (map fst grouped) -> In (k, l) grouped -> groupOf k grouped = Some l.
Proof.
  induction grouped as [| [k' l'] tl IH]; intros Hnd Hin; [destruct Hin |].
  cbn [groupOf]. inversion Hnd as [| ? ? Hk Htl]; subst.
  destruct Hin as [[= -> ->] | Hin].
  - now rewrite String.eqb_refl.
  - destruct (String.eqb_spec k' k) as [-> | N]; [| auto].
    elim Hk. apply in_map_iff. now exists (k, l).
Qed.

Lemma groupOf_some (grouped : list (string * list RawHotspot)) (k : string)
    (l : list RawHotspot) :
  groupOf k grouped = Some l -> In (k, l) grouped.
Proof.
  induction grouped as [| [k' l'] tl IH]; cbn [groupOf]; [discriminate |].
  destruct (String.eqb_spec k' k) as [-> | N].
  - intros [= ->]. now left.
  - intros H. right. auto.
Qed.

Lemma groupedFrom_push (P : list RawHotspot) (hs : RawHotspot)
    (grouped : list (string * list RawHotspot)) :
  groupedFrom P grouped -> groupedFrom (P ++ [hs]) (pushGroup hs grouped).
Proof.
  intros [Hnd Hg]. split.
  - destruct (keys_pushGroup hs grouped) as [-> | [Hn ->]]; [exact Hnd |].
    apply NoDup_app; [exact Hnd | repeat constructor; intros [] |].
    intros k Hk [<- | []]. contradiction.
  - intros k. rewrite groupOf_pushGroup, filter_app, Hg. cbn [filter].
    destruct (typeIs k hs).
    + destruct (filter (typeIs k) P) as [| a l]; reflexivity.
    + now rewrite app_nil_r.
Qed.

Lemma groupedFrom_fold (rest : list RawHotspot) :
  forall (P : list RawHotspot) (grouped : list (string * list RawHotspot)),
  groupedFrom P grouped ->
  groupedFrom (P ++ rest)
    (fold_left (fun g hs => pushGroup hs g) rest grouped).
Proof.
  induction rest as [| hs tl IH]; intros P grouped H; cbn [fold_left].
  - now rewrite app_nil_r.
  - replace (P ++ hs :: tl) with ((P ++ [hs]) ++ tl)
      by (now rewrite <- app_assoc).
    apply IH. now apply groupedFrom_push.
Qed.

Lemma groupedOf_groupedFrom (HOTSPOTS : list RawHotspot) :
  groupedFrom HOTSPOTS (groupedOf HOTSPOTS).
Proof.
  apply (groupedFrom_fold HOTSPOTS [] []). split; [constructor | reflexivity].
Qed.

Lemma pushGroup_members (hs : RawHotspot)
    (grouped : list (string * list RawHotspot)) :
  Permutation (List.concat (map snd (pushGroup hs grouped)))
              (List.concat (map snd grouped) ++ [hs]).
Proof.
  induction grouped as [| [k l] tl IH]; cbn [pushGroup map snd List.concat].
  - reflexivity.
  - destruct (String.eqb k (type hs)); cbn [map snd List.concat].
    + rewrite <- !app_assoc. apply Permutation_app_head, Permutation_app_comm.
    + rewrite <- app_assoc. now apply Permutation_app_head.
Qed.

Lemma groupedOf_members (HOTSPOTS : list RawHotspot) :
  Permutation (List.concat (map snd (groupedOf HOTSPOTS))) HOTSPOTS.
Proof.
  unfold groupedOf.
  assert (H : forall rest grouped,
             Permutation
               (List.concat (map snd (fold_left (fun g hs => pushGroup hs g)
                                   rest grouped)))
               (List.concat (map snd grouped) ++ rest)).
  { induction rest as [| hs tl IH]; intros grouped; cbn [fold_left].
    - now rewrite app_nil_r.
    - rewrite IH, pushGroup_members, <- app_assoc. reflexivity. }
  exact (H HOTSPOTS []).
Qed.

(** The groups are a partition of the hotspots by type. *)
Lemma groupedOf_partition (HOTSPOTS : list RawHotspot) :
  NoDup (map fst (groupedOf HOTSPOTS)) /\
  Permutation (List.concat (map snd (groupedOf HOTSPOTS))) HOTSPOTS /\
  (forall k l, In (k, l) (groupedOf HOTSPOTS) ->
     l = filter (typeIs k) HOTSPOTS /\ l <> []) /\
  (forall hs, In hs HOTSPOTS ->
     In (type hs, filter (typeIs (type hs)) HOTSPOTS) (groupedOf HOTSPOTS)).
Proof.
  destruct (groupedOf_groupedFrom HOTSPOTS) as [Hnd Hg].
  split; [exact Hnd |]. split; [apply groupedOf_members |]. split.
  - intros k l Hin. assert (E := groupOf_in _ k l Hnd Hin).
    rewrite Hg in E. destruct (filter (typeIs k) HOTSPOTS); [discriminate |].
    injection E as <-. split; [reflexivity | discriminate].
  - intros hs Hin. apply groupOf_some. rewrite Hg.
    destruct (filter (typeIs (type hs)) HOTSPOTS) eqn:E; [| reflexivity].
    assert (H : In hs (filter (typeIs (type hs)) HOTSPOTS)).
    { apply filter_In. split; [exact Hin |]. apply String.eqb_refl. }
    rewrite E in H. destruct H.
Qed.

(** ** What a binding writes *)

Lemma bindHotspot_inv (hotspotHeight idlePhaseStep : R) (type : string)
    (i : nat) (hs : RawHotspot) (st st' : State) :
  bindHotspot hotspotHeight idlePhaseStep type i hs st = Ok st' ->
  exists (n : nat) (p : Dot.t),
    nth_error (dotPositions st) n = Some p /\
    st' = setBinding st
            (Js.setAt (dotPositions st) n
               (Dot.setHotspot p (Z.of_nat (List.length (hotspotData st)))))
            (hotspotData st
             ++ [boundRecord hotspotHeight idlePhaseStep type i hs n]).
Proof.
  unfold bindHotspot.
  set (best := nearestDot _ _).
  destruct (Js.index (dotPositions st) best) as [p |] eqn:E; [| discriminate].
  intros [= <-].
  assert (Hr := index_some_range _ _ _ _ E).
  unfold Js.index in E. destruct (Z.ltb_spec best 0) as [Hneg | _]; [lia |].
  exists (Z.to_nat best), p. split; [exact E |].
  unfold boundRecord. rewrite Z2Nat.id by lia. reflexivity.
Qed.

Lemma bindHotspot_ok (hotspotHeight idlePhaseStep : R) (type : string)
    (i : nat) (hs : RawHotspot) (st : State) :
  located hs ->
  dotPositions st <> [] ->
  exists (n : nat) (p : Dot.t),
    nth_error (dotPositions st) n = Some p /\
    bindHotspot hotspotHeight idlePhaseStep type i hs st
    = Ok (setBinding st
            (Js.setAt (dotPositions st) n
               (Dot.setHotspot p (Z.of_nat (List.length (hotspotData st)))))
            (hotspotData st
             ++ [boundRecord hotspotHeight idlePhaseStep type i hs n])).
Proof.
  intros Hloc Hne.
  destruct (bindHotspot_succeeds hotspotHeight idlePhaseStep type i hs st
              Hloc Hne) as (st' & E & _).
  destruct (bindHotspot_inv _ _ _ _ _ _ _ E) as (n & p & Hn & ->).
  exists n, p. split; assumption.
Qed.

(** The records a group adds: one per hotspot of the group, in order, in
    the slots [i], [i + 1], ... of the group's type. *)
Lemma bindGroupFrom_records (hotspotHeight idlePhaseStep : R) (type : string)
    (list : list RawHotspot) :
  forall (i : nat) (st st' : State),
  bindGroupFrom hotspotHeight idlePhaseStep type i list st = Ok st' ->
  exists records : List.list HotspotRecord,
    List.length (dotPositions st') = List.length (dotPositions st) /\
    meshes st' = meshes st /\
    hotspotData st' = hotspotData st ++ records /\
    map raw records = list /\
    map slotKey records = map (fun j => (type, j)) (seq i (List.length list)) /\
    Forall (fun r => meshType r = type /\ (i <= meshInstanceId r)%nat /\
                     nth_error list (meshInstanceId r - i) = Some (raw r))
           records.
Proof.
  induction list as [| hs tl IH]; intros i st st' E.
  - injection E as <-. exists []. cbn. rewrite app_nil_r. repeat split; auto.
  - cbn [bindGroupFrom] in E.
    destruct (bindHotspot hotspotHeight idlePhaseStep type i hs st)
      as [st1 | e] eqn:E1; [| discriminate].
    cbn [Js.bind] in E.
    destruct (bindHotspot_inv _ _ _ _ _ _ _ E1) as (n & p & Hn & Est1).
    assert (L1 : List.length (dotPositions st1) = List.length (dotPositions st))
      by (rewrite Est1; apply length_setAt).
    destruct (IH (S i) st1 st' E) as (recs & L & M & Hd & Hraw & Hkey & Hall).
    exists (boundRecord hotspotHeight idlePhaseStep type i hs n :: recs).
    split; [congruence |].
    split; [rewrite M, Est1; reflexivity |].
    split; [rewrite Hd, Est1; cbn [hotspotData setBinding];
            now rewrite <- app_assoc |].
    split; [cbn; now rewrite Hraw |].
    split; [cbn [map List.length seq]; now rewrite Hkey |].
    constructor.
    + cbn. rewrite Nat.sub_diag. repeat split; auto.
    + eapply Forall_impl; [| exact Hall].
      intros r (Ht & Hi & Hr). repeat split; [exact Ht | lia |].
      replace (meshInstanceId r - i)%nat with (S (meshInstanceId r - S i))
        by lia.
      exact Hr.
Qed.

Lemma bindGroupFrom_ok (hotspotHeight idlePhaseStep : R) (type : string)
    (list : list RawHotspot) :
  Forall located list ->
  forall (i : nat) (st : State),
  dotPositions st <> [] ->
  exists st' : State,
    bindGroupFrom hotspotHeight idlePhaseStep type i list st = Ok st' /\
    dotPositions st' <> [].
Proof.
  induction 1 as [| hs tl Hhs _ IH]; intros i st Hne.
  - exists st. now split.
  - destruct (bindHotspot_succeeds hotspotHeight idlePhaseStep type i hs st
                Hhs Hne) as (st1 & E1 & L1).
    assert (Hne1 : dotPositions st1 <> []).
    { intros H. rewrite H in L1.
      destruct (dotPositions st); [auto | discriminate]. }
    destruct (IH (S i) st1 Hne1) as (st' & E' & Hne').
    exists st'. cbn [bindGroupFrom]. rewrite E1. now split.
Qed.

Lemma bindGroups_records (hotspotHeight idlePhaseStep : R)
    (grouped : list (string * list RawHotspot)) :
  forall st st' : State,
  bindGroups hotspotHeight idlePhaseStep grouped st = Ok st' ->
  exists records : list HotspotRecord,
    List.length (dotPositions st') = List.length (dotPositions st) /\
    meshes st' = meshes st /\
    hotspotData st' = hotspotData st ++ records /\
    map raw records = List.concat (map snd grouped) /\
    map slotKey records = groupKeys grouped /\
    Forall (inSlotOf grouped) records.
Proof.
  induction grouped as [| [type list] tl IH]; intros st st' E.
  - injection E as <-. exists []. cbn. rewrite app_nil_r. repeat split; auto.
  - cbn [bindGroups] in E.
    destruct (bindGroupFrom hotspotHeight idlePhaseStep type 0 list st)
      as [st1 | e] eqn:E1; [| discriminate].
    cbn [Js.bind] in E.
    destruct (bindGroupFrom_records _ _ _ _ _ _ _ E1)
      as (recs1 & L1 & M1 & Hd1 & Hraw1 & Hkey1 & Hall1).
    destruct (IH st1 st' E) as (recs & L & M & Hd & Hraw & Hkey & Hall).
    exists (recs1 ++ recs).
    split; [congruence |]. split; [congruence |].
    split; [rewrite Hd, Hd1; now rewrite <- app_assoc |].
    split; [rewrite map_app, Hraw1, Hraw; reflexivity |].
    split; [rewrite map_app, Hkey1, Hkey; reflexivity |].
    apply Forall_app. split.
    + eapply Forall_impl; [| exact Hall1].
      intros r (Ht & _ & Hr). exists list. split; [left; now rewrite Ht |].
      now rewrite Nat.sub_0_r in Hr.
    + eapply Forall_impl; [| exact Hall].
      intros r (l & Hin & Hr). exists l. split; [now right | exact Hr].
Qed.

Lemma bindGroups_ok (hotspotHeight idlePhaseStep : R)
    (grouped : list (string * list RawHotspot)) :
  Forall (fun g => Forall located (snd g)) grouped ->
  forall st : State,
  dotPositions st <> [] ->
  exists st' : State,
    bindGroups hotspotHeight idlePhaseStep grouped st = Ok st'.
Proof.
  induction 1 as [| [type list] tl Hg _ IH]; intros st Hne.
  - now exists st.
  - destruct (bindGroupFrom_ok hotspotHeight idlePhaseStep type list Hg 0 st
                Hne) as (st1 & E1 & Hne1).
    destruct (IH st1 Hne1) as (st' & E').
    exists st'. cbn [bindGroups]. now rewrite E1.
Qed.

Lemma NoDup_groupKeys (grouped : list (string * list RawHotspot)) :
  NoDup (map fst grouped) -> NoDup (groupKeys grouped).
Proof.
  induction grouped as [| [k l] tl IH]; intros Hnd; [constructor |].
  inversion Hnd as [| ? ? Hk Htl]; subst.
  unfold groupKeys. cbn [flat_map fst snd]. apply NoDup_app.
  - apply Finite.Injective_map_NoDup; [| apply seq_NoDup].
    intros a b [= ->]. reflexivity.
  - exact (IH Htl).
  - intros [k' j] H1 H2. apply in_map_iff in H1. destruct H1 as (j' & [= <- <-] & _).
    apply in_flat_map in H2. destruct H2 as ([k2 l2] & Hin & H2).
    apply in_map_iff in H2. destruct H2 as (j2 & [= -> _] & _).
    apply Hk. apply in_map_iff. now exists (k, l2).
Qed.

(** ** The whole binding pass *)

Lemma buildHotspotConnectionLine_ok (c : Config) (st : State) :
  Forall (boundTo (dotPositions st)) (hotspotData st) ->
  exists st', buildHotspotConnectionLine c st = Ok st'.
Proof.
  intros Hb. unfold buildHotspotConnectionLine.
  destruct (negb (isSequentialConnectionEnabled c)
            || (List.length (hotspotData st) <? 2)%nat); [eauto |].
  unfold collectHotspotArcPoints.
  destruct (collectLegsFrom_count c (dotPositions st) (hotspotData st) Hb 0)
    as (points & E & _).
  cbn [dotPositions hotspotData clearHotspotConnectionLine setHotspotLine].
  rewrite E. cbn [Js.bind].
  destruct (List.length points <? 2)%nat; eauto.
Qed.

Lemma buildHotspotPairConnections_ok (c : Config) (st : State) :
  Forall (boundTo (dotPositions st)) (hotspotData st) ->
  exists st', buildHotspotPairConnections c st = Ok st'.
Proof.
  intros Hb. unfold buildHotspotPairConnections.
  destruct (negb (enabled (connectionLine c))); [eauto |].
  destruct (connectionPairs c) as [[| p tl] |]; eauto.
  destruct (forEachPair_lines c (clearHotspotPairConnections st) Hb (p :: tl) [])
    as (lines & E & _).
  rewrite E. cbn [Js.bind]. eauto.
Qed.

Lemma buildDotsFromFile_no_dots (c : Config) (hs : RawHotspot)
    (rest : list RawHotspot) :
  buildDotsFromFile c (hs :: rest) [] = Throw TypeError.
Proof.
  unfold buildDotsFromFile. rewrite groupByType_spec.
  destruct (ownTypes (hs :: rest)); [| reflexivity].
  cbn [Js.bind]. rewrite bindGroups_no_dots; [reflexivity | | | reflexivity].
  - intros H.
    assert (P := objectEntries_perm _ (groupedOf (hs :: rest))).
    rewrite H in P. apply Permutation_nil in P.
    destruct (groupedOf_head hs rest) as (l & tl & E). now rewrite E in P.
  - apply (Permutation_Forall (Permutation_sym (objectEntries_perm _ _))).
    apply groupedOf_nonempty.
Qed.

Lemma buildHotspotConnectionLine_meshes (c : Config) (st st' : State) :
  buildHotspotConnectionLine c st = Ok st' -> meshes st' = meshes st.
Proof.
  unfold buildHotspotConnectionLine.
  destruct (negb (isSequentialConnectionEnabled c)
            || (List.length (hotspotData st) <? 2)%nat);
    [now intros [= <-] |].
  destruct (collectHotspotArcPoints c (clearHotspotConnectionLine st))
    as [points | e]; [| discriminate].
  cbn [Js.bind]. destruct (List.length points <? 2)%nat; now intros [= <-].
Qed.

Lemma buildHotspotPairConnections_meshes (c : Config) (st st' : State) :
  buildHotspotPairConnections c st = Ok st' -> meshes st' = meshes st.
Proof.
  unfold buildHotspotPairConnections.
  destruct (negb (enabled (connectionLine c))); [now intros [= <-] |].
  destruct (connectionPairs c) as [[| p tl] |]; try (now intros [= <-]).
  destruct (forEachPair c (clearHotspotPairConnections st) (p :: tl) [])
    as [lines | e]; [| discriminate].
  now intros [= <-].
Qed.

(** The records [buildDotsFromFile] leaves in [hotspotData], group after
    group in the order of [Object.entries(grouped)]. *)
Lemma buildDotsFromFile_records (c : Config) (HOTSPOTS : list RawHotspot)
    (dots : list (R * R)) (st : State) :
  buildDotsFromFile c HOTSPOTS dots = Ok st ->
  ownTypes HOTSPOTS = true /\
  List.length (dotPositions st) = List.length dots /\
  meshes st <> None /\
  Forall (boundTo (dotPositions st)) (hotspotData st) /\
  map raw (hotspotData st)
  = List.concat (map snd (objectEntries (groupedOf HOTSPOTS))) /\
  map slotKey (hotspotData st)
  = groupKeys (objectEntries (groupedOf HOTSPOTS)) /\
  Forall (inSlotOf (objectEntries (groupedOf HOTSPOTS))) (hotspotData st).
Proof.
  intros E.
  assert (Hb := reachable_bound c st (buildDotsFromFile_reachable _ _ _ _ E)).
  destruct (buildDotsFromFile_inv c HOTSPOTS dots st E)
    as (st1 & st2 & Ho & E1 & E2 & E3).
  destruct (bindGroups_records _ _ _ _ _ E1)
    as (recs & L1 & M1 & Hd1 & Hraw & Hkey & Hslot).
  cbn [hotspotData dotField app] in Hd1.
  assert (Hd2 := buildHotspotConnectionLine_hotspots c st1 st2 E2).
  assert (Hp2 := buildHotspotConnectionLine_dots c st1 st2 E2).
  assert (Hm2 := buildHotspotConnectionLine_meshes c st1 st2 E2).
  assert (Hd3 := buildHotspotPairConnections_hotspots c st2 st E3).
  assert (Hp3 := buildHotspotPairConnections_dots c st2 st E3).
  assert (Hm3 := buildHotspotPairConnections_meshes c st2 st E3).
  split; [exact Ho |].
  split; [rewrite Hp3, Hp2, L1; cbn; now rewrite !length_map |].
  split; [rewrite Hm3, Hm2, M1; discriminate |].
  split; [exact Hb |].
  rewrite Hd3, Hd2, Hd1. repeat split; assumption.
Qed.

Lemma groupedOf_located (HOTSPOTS : list RawHotspot) :
  Forall located HOTSPOTS ->
  Forall (fun g => Forall located (snd g)) (objectEntries (groupedOf HOTSPOTS)).
Proof.
  intros Hloc. apply Forall_forall. intros [k l] Hin.
  apply (proj1 (objectEntries_in _ _ _)) in Hin.
  destruct (groupedOf_partition HOTSPOTS) as (_ & _ & Hgroup & _).
  destruct (Hgroup k l Hin) as [-> _]. cbn [snd].
  apply Forall_forall. intros hs Hhs. apply filter_In in Hhs.
  rewrite Forall_forall in Hloc. apply Hloc, Hhs.
Qed.

(** On a non-empty dot list, with own types and located hotspots,
    [buildDotsFromFile] returns. *)
Lemma buildDotsFromFile_ok (c : Config) (HOTSPOTS : list RawHotspot)
    (dots : list (R * R)) :
  dots <> [] ->
  ownTypes HOTSPOTS = true ->
  Forall located HOTSPOTS ->
  exists st : State, buildDotsFromFile c HOTSPOTS dots = Ok st.
Proof.
  intros Hne Ho Hloc.
  assert (Hne0 : dotPositions (dotField c dots) <> []).
  { cbn. destruct dots; [congruence | discriminate]. }
  destruct (bindGroups_ok (snd (fst (buildHotspotGeometryFromLayout c)))
              (orElse (phaseStep c) 0.55) _ (groupedOf_located _ Hloc)
              (dotField c dots) Hne0) as (st1 & E1).
  assert (Hr1 : reachable c st1)
    by (eapply bindGroups_reachable; [apply reach_dots | exact E1]).
  destruct (buildHotspotConnectionLine_ok c st1 (reachable_bound c st1 Hr1))
    as (st2 & E2).
  assert (Hr2 : reachable c st2) by (eapply reach_line; eauto).
  destruct (buildHotspotPairConnections_ok c st2 (reachable_bound c st2 Hr2))
    as (st3 & E3).
  exists st3. exact (buildDotsFromFile_stages c HOTSPOTS dots _ _ _ Ho E1 E2 E3).
Qed.

Lemma inSlotOf_groupedOf (HOTSPOTS : list RawHotspot) (r : HotspotRecord) :
  inSlotOf (objectEntries (groupedOf HOTSPOTS)) r ->
  meshType r = type (raw r) /\
  nth_error (filter (typeIs (meshType r)) HOTSPOTS) (meshInstanceId r)
  = Some (raw r).
Proof.
  intros (l & Hin & Hn). apply (proj1 (objectEntries_in _ _ _)) in Hin.
  destruct (groupedOf_groupedFrom HOTSPOTS) as [Hnd Hg].
  assert (E := groupOf_in _ _ l Hnd Hin). rewrite Hg in E.
  assert (El : l = filter (typeIs (meshType r)) HOTSPOTS).
  { destruct (filter (typeIs (meshType r)) HOTSPOTS); [discriminate |].
    now injection E as <-. }
  subst l. split; [| exact Hn].
  apply nth_error_In, filter_In in Hn. destruct Hn as [_ Ht].
  now apply String.eqb_eq in Ht.
Qed.

Lemma Permutation_concat (A : Type) (l l' : list (list A)) :
  Permutation l l' -> Permutation (List.concat l) (List.concat l').
Proof.
  induction 1 as [| x l l' _ IH | x y l | l l' l'' _ IH1 _ IH2];
    cbn [List.concat].
  - reflexivity.
  - now apply Permutation_app_head.
  - rewrite !app_assoc. apply Permutation_app_tail, Permutation_app_comm.
  - now rewrite IH1.
Qed.

(** ** The order of the groups *)

Lemma insertIndexed_sorted (A : Type) (v : Z) (entry : A)
    (sorted : list (Z * A)) :
  StronglySorted (fun a b => (fst a <= fst b)%Z) sorted ->
  StronglySorted (fun a b => (fst a <= fst b)%Z)
                 (insertIndexed v entry sorted).
Proof.
  induction 1 as [| [w other] tl Htl IH Hall]; cbn [insertIndexed].
  - constructor; constructor.
  - destruct (Z.ltb_spec v w) as [Hlt | Hge].
    + constructor; [constructor; assumption |].
      constructor; [cbn; lia |].
      eapply Forall_impl; [| exact Hall]. cbn. intros b Hb. lia.
    + constructor; [exact IH |].
      apply (Permutation_Forall
               (Permutation_sym (insertIndexed_perm _ v entry tl))).
      constructor; [cbn; lia | exact Hall].
Qed.

Lemma indexedEntries_sorted (A : Type) (obj : list (string * A)) :
  StronglySorted (fun a b => (fst a <= fst b)%Z) (indexedEntries obj) /\
  Forall (fun p => arrayIndex (fst (snd p)) = Some (fst p))
         (indexedEntries obj).
Proof.
  induction obj as [| entry tl [IHs IHi]]; cbn [indexedEntries].
  - split; constructor.
  - destruct (arrayIndex (fst entry)) as [v |] eqn:Ev; [| now split].
    split; [now apply insertIndexed_sorted |].
    apply (Permutation_Forall
             (Permutation_sym (insertIndexed_perm _ v entry _))).
    constructor; [exact Ev | exact IHi].
Qed.

(** The own properties of [grouped] are created in the order in which the
    types first occur among the hotspots. *)
Lemma pushGroup_keys (hs : RawHotspot)
    (grouped : list (string * list RawHotspot)) :
  map fst (pushGroup hs grouped)
  = if existsb (String.eqb (type hs)) (map fst grouped)
    then map fst grouped
    else map fst grouped ++ [type hs].
Proof.
  induction grouped as [| [k l] tl IH]; cbn [pushGroup map fst existsb app].
  - reflexivity.
  - rewrite (String.eqb_sym (type hs) k).
    destruct (String.eqb k (type hs)); cbn [orb map fst]; [reflexivity |].
    rewrite IH. now destruct (existsb _ _).
Qed.

Lemma filter_filter (A : Type) (f g : A -> bool) (l : list A) :
  filter f (filter g l) = filter (fun x => g x && f x) l.
Proof.
  induction l as [| x tl IH]; cbn [filter]; [reflexivity |].
  destruct (g x); cbn [filter andb]; [destruct (f x) |]; now rewrite ?IH.
Qed.

Lemma groupedFrom_keys (HOTSPOTS : list RawHotspot) :
  forall grouped : list (string * list RawHotspot),
  map fst (fold_left (fun grouped hs => pushGroup hs grouped) HOTSPOTS grouped)
  = map fst grouped
    ++ filter (fun k => negb (existsb (String.eqb k) (map fst grouped)))
         (firstOccurrences (map type HOTSPOTS)).
Proof.
  induction HOTSPOTS as [| hs tl IH]; intros grouped;
    cbn [fold_left map firstOccurrences filter].
  - now rewrite app_nil_r.
  - rewrite IH, pushGroup_keys.
    destruct (existsb (String.eqb (type hs)) (map fst grouped)) eqn:E;
      cbn [negb].
    + f_equal. rewrite filter_filter. apply filter_ext_in. intros k _.
      destruct (String.eqb_spec k (type hs)) as [-> | _]; cbn [negb andb];
        [now rewrite E | reflexivity].
    + rewrite <- app_assoc. cbn [app]. do 2 f_equal.
      rewrite filter_filter. apply filter_ext_in. intros k _.
      rewrite existsb_app. cbn [existsb]. rewrite orb_false_r, negb_orb.
      apply andb_comm.
Qed.

Lemma groupedOf_keys (HOTSPOTS : list RawHotspot) :
  map fst (groupedOf HOTSPOTS) = firstOccurrences (map type HOTSPOTS).
Proof.
  unfold groupedOf. rewrite groupedFrom_keys. cbn [map app existsb negb].
  induction (firstOccurrences (map type HOTSPOTS)) as [| k tl IH];
    cbn [filter]; [reflexivity | now rewrite IH].
Qed.

Lemma map_fst_filter (A B : Type) (f : A -> bool) (l : list (A * B)) :
  map fst (filter (fun entry => f (fst entry)) l) = filter f (map fst l).
Proof.
  induction l as [| x tl IH]; cbn [filter map]; [reflexivity |].
  destruct (f (fst x)); cbn [map]; now rewrite IH.
Qed.

(** X2. Grouping the loaded hotspots by type throws a [TypeError] when a
    hotspot has a type that is the name of a member of [Object.prototype]
    ([constructor], [toString], [__proto__], ...).  Otherwise the groups, as
    [Object.entries] lists them, keep every hotspot exactly once, give every
    type one group, and the group of a type holds exactly the hotspots of
    that type in their loaded order (so no group is empty); the groups whose
    type is an array index come first, by ascending index, and the other
    groups follow in the order in which their types first occur among the
    hotspots. *)
Theorem groupByType_partition (HOTSPOTS : list RawHotspot) :
  (Exists (fun hs => In (type hs) objectPrototypeKeys) HOTSPOTS ->
   groupByType HOTSPOTS = Throw TypeError) /\
  (Forall (fun hs => ~ In (type hs) objectPrototypeKeys) HOTSPOTS ->
   exists grouped,
     groupByType HOTSPOTS = Ok grouped /\
     NoDup (map fst (objectEntries grouped)) /\
     Permutation (List.concat (map snd (objectEntries grouped))) HOTSPOTS /\
     (forall k l, In (k, l) (objectEntries grouped) ->
        l = filter (typeIs k) HOTSPOTS /\ l <> []) /\
     (forall hs, In hs HOTSPOTS ->
        In (type hs, filter (typeIs (type hs)) HOTSPOTS)
           (objectEntries grouped)) /\
     exists indexed others,
       objectEntries grouped = map snd indexed ++ others /\
       Forall (fun p => arrayIndex (fst (snd p)) = Some (fst p)) indexed /\
       StronglySorted (fun a b => (fst a <= fst b)%Z) indexed /\
       Forall (fun entry => arrayIndex (fst entry) = None) others /\
       map fst others
       = filter (fun k => negb (isArrayIndex k))
           (firstOccurrences (map type HOTSPOTS))).
Proof.
  rewrite groupByType_spec. split.
  - intros Hex. apply Exists_exists in Hex. destruct Hex as (hs & Hin & Hk).
    replace (ownTypes HOTSPOTS) with false; [reflexivity |].
    symmetry. apply not_true_is_false. intros Ho.
    unfold ownTypes in Ho. rewrite forallb_forall in Ho.
    specialize (Ho hs Hin). apply negb_true_iff in Ho.
    unfold inheritedKey in Ho.
    assert (H : existsb (String.eqb (type hs)) objectPrototypeKeys = true)
      by (apply existsb_exists; exists (type hs);
          split; [exact Hk | apply String.eqb_refl]).
    congruence.
  - intros Hown.
    replace (ownTypes HOTSPOTS) with true.
    2:{ symmetry. unfold ownTypes. apply forallb_forall. intros hs Hin.
        rewrite Forall_forall in Hown. apply negb_true_iff.
        destruct (inheritedKey (type hs)) eqn:Ek; [| reflexivity].
        exfalso. apply (Hown hs Hin). unfold inheritedKey in Ek.
        apply existsb_exists in Ek. destruct Ek as (k & Hk & Ek).
        apply String.eqb_eq in Ek. now subst k. }
    exists (groupedOf HOTSPOTS). split; [reflexivity |].
    destruct (groupedOf_partition HOTSPOTS) as (Hnd & Hperm & Hgroup & Hall).
    split; [now apply objectEntries_keys |].
    split.
    { rewrite (Permutation_concat _ _ _
                 (Permutation_map snd
                    (objectEntries_perm _ (groupedOf HOTSPOTS)))).
      exact Hperm. }
    split.
    { intros k l Hin. apply Hgroup.
      exact (proj1 (objectEntries_in _ _ _) Hin). }
    split.
    { intros hs Hin. apply objectEntries_in. now apply Hall. }
    exists (indexedEntries (groupedOf HOTSPOTS)),
           (filter (fun entry => negb (isArrayIndex (fst entry)))
                   (groupedOf HOTSPOTS)).
    destruct (indexedEntries_sorted _ (groupedOf HOTSPOTS)) as [Hs Hi].
    split; [reflexivity |]. split; [exact Hi |]. split; [exact Hs |].
    split.
    { apply Forall_forall. intros entry Hin. apply filter_In in Hin.
      destruct Hin as [_ Hn]. unfold isArrayIndex in Hn.
      now destruct (arrayIndex (fst entry)). }
    rewrite (map_fst_filter _ _ (fun k => negb (isArrayIndex k))).
    now rewrite groupedOf_keys.
Qed.

Lemma groupByType_partition_witness :
  groupByType [siteOfType "global"; siteOfType "constructor"]
  = Throw TypeError /\
  groupByType [siteOfType "__proto__"] = Throw TypeError /\
  exists grouped,
    groupByType [siteOfType "global"; siteOfType "10"; siteOfType "9";
                 siteOfType "07"; siteOfType "global"] = Ok grouped /\
    map fst grouped = ["global"; "10"; "9"; "07"]%string /\
    map fst (objectEntries grouped) = ["9"; "10"; "global"; "07"]%string /\
    map (fun g => List.length (snd g)) (objectEntries grouped)
    = [1; 1; 2; 1]%nat.
Proof.
  split; [| split].
  - apply (proj1 (groupByType_partition
                    [siteOfType "global"; siteOfType "constructor"])).
    apply Exists_cons_tl, Exists_cons_hd. cbn. tauto.
  - apply (proj1 (groupByType_partition [siteOfType "__proto__"])).
    apply Exists_cons_hd. cbn. tauto.
  - eexists. split; [reflexivity |]. repeat split.
Defined.

(** Example data used below. *)
Lemma exampleSites_located : Forall located exampleSites.
Proof. repeat (apply Forall_cons; [split; discriminate |]). apply Forall_nil. Qed.



(** X4. After [buildDotsFromFile], no two records share a mesh group and
    instance slot, every record is in the group of its own type, and slot j
    of a type holds the j-th loaded hotspot of that type: a hit on
    (group, slot) names one hotspot. *)
Theorem hotspot_slots_unambiguous (c : Config) (HOTSPOTS : list RawHotspot)
    (dots : list (R * R)) (st : State) :
  buildDotsFromFile c HOTSPOTS dots = Ok st ->
  NoDup (map slotKey (hotspotData st)) /\
  forall r, In r (hotspotData st) ->
    meshType r = type (raw r) /\
    nth_error (filter (typeIs (meshType r)) HOTSPOTS) (meshInstanceId r)
    = Some (raw r).
Proof.
  intros E.
  destruct (buildDotsFromFile_records c HOTSPOTS dots st E)
    as (_ & _ & _ & _ & _ & Hkey & Hslot).
  split.
  - rewrite Hkey. apply NoDup_groupKeys, objectEntries_keys.
    apply groupedOf_groupedFrom.
  - intros r Hr. rewrite Forall_forall in Hslot.
    apply inSlotOf_groupedOf. auto.
Qed.

Lemma hotspot_slots_unambiguous_witness :
  exists st : State,
    buildDotsFromFile (exampleConfig 3) exampleSites exampleGrid = Ok st /\
    NoDup (map slotKey (hotspotData st)) /\
    forall r, In r (hotspotData st) ->
      meshType r = type (raw r) /\
      nth_error (filter (typeIs (meshType r)) exampleSites) (meshInstanceId r)
      = Some (raw r).
Proof.
  destruct (buildDotsFromFile_ok (exampleConfig 3) exampleSites exampleGrid)
    as (st & E); [discriminate | reflexivity | exact exampleSites_located |].
  exists st. split; [exact E |].
  exact (hotspot_slots_unambiguous (exampleConfig 3) exampleSites exampleGrid
           st E).
Defined.

(** ** Back-references of the dots *)

Lemma liftDot_reference (c : Config) (center p : Dot.t) :
  Dot.isHotspot (liftDot c center p) = Dot.isHotspot p /\
  Dot.hotspotIndex (liftDot c center p) = Dot.hotspotIndex p /\
  Dot.x (liftDot c center p) = Dot.x p /\
  Dot.y (liftDot c center p) = Dot.y p.
Proof. unfold liftDot. destruct Js.ltb; repeat split. Qed.

Lemma easeDot_reference (c : Config) (p : Dot.t) :
  Dot.isHotspot (fst (easeDot c p)) = Dot.isHotspot p /\
  Dot.hotspotIndex (fst (easeDot c p)) = Dot.hotspotIndex p /\
  Dot.x (fst (easeDot c p)) = Dot.x p /\
  Dot.y (fst (easeDot c p)) = Dot.y p.
Proof. unfold easeDot. destruct Js.gtb; repeat split. Qed.

(** A hover pass either leaves the dots alone or passes [liftDot] over all
    of them, for one centre. *)
Lemma handleHover_dots (c : Config) (hits : option nat) (st st' : State) :
  handleHover c hits st = Ok st' ->
  hotspotData st' = hotspotData st /\
  meshes st' = meshes st /\
  (dotPositions st' = dotPositions st
   \/ exists center, dotPositions st' = map (liftDot c center) (dotPositions st)).
Proof.
  unfold handleHover.
  destruct (meshes st) eqn:Em; [| intros [= <-]; auto].
  destruct (fst (updateHovered c hits (hoveredInstanceId st) (hoverCooldown st)))
    as [id |]; [| intros [= <-]; cbn; auto].
  cbn [dotPositions setHover].
  destruct (nth_error (dotPositions st) id) as [center |].
  - intros [= <-]. cbn. repeat split; auto. right. now exists center.
  - destruct (dotPositions st) eqn:Ed; [| discriminate].
    intros [= <-]. cbn. auto.
Qed.

Lemma backReferences_map (st st' : State) (f : Dot.t -> Dot.t) :
  hotspotData st' = hotspotData st ->
  dotPositions st' = map f (dotPositions st) ->
  (forall p, Dot.isHotspot (f p) = Dot.isHotspot p
             /\ Dot.hotspotIndex (f p) = Dot.hotspotIndex p) ->
  backReferencesConsistent st -> backReferencesConsistent st'.
Proof.
  intros Hh Hd Hf H n d Hn. rewrite Hd, nth_error_map in Hn.
  destruct (nth_error (dotPositions st) n) as [p |] eqn:Ep; [| discriminate].
  injection Hn as <-. destruct (Hf p) as [-> ->]. rewrite Hh.
  exact (H n p Ep).
Qed.

Lemma backReferences_same (st st' : State) :
  hotspotData st' = hotspotData st ->
  dotPositions st' = dotPositions st ->
  backReferencesConsistent st -> backReferencesConsistent st'.
Proof. intros Hh Hd H n d. rewrite Hh, Hd. apply H. Qed.

Lemma bindHotspot_backReferences (hotspotHeight idlePhaseStep : R)
    (type : string) (i : nat) (hs : RawHotspot) (st st' : State) :
  bindHotspot hotspotHeight idlePhaseStep type i hs st = Ok st' ->
  backReferencesConsistent st -> backReferencesConsistent st'.
Proof.
  intros E H. destruct (bindHotspot_inv _ _ _ _ _ _ _ E) as (m & p & Hm & ->).
  set (rec := boundRecord hotspotHeight idlePhaseStep type i hs m).
  intros n d. cbn [dotPositions hotspotData setBinding]. intros Hn.
  destruct (Nat.eq_dec m n) as [<- | Hne].
  - rewrite (nth_error_setAt_same _ _ _ _ _ Hm) in Hn. injection Hn as <-.
    left. split; [reflexivity |].
    exists (List.length (hotspotData st)). split; [reflexivity |].
    exists rec. split; [| split].
    + rewrite nth_error_app2 by lia. now rewrite Nat.sub_diag.
    + reflexivity.
    + intros j r' Hj Hr'.
      assert (Hlen : nth_error (hotspotData st ++ [rec]) j <> None) by congruence.
      apply nth_error_Some in Hlen. rewrite length_app in Hlen. cbn in Hlen. lia.
  - rewrite nth_error_setAt_other in Hn by exact Hne.
    destruct (H n d Hn) as [(Hf & k & Hk & r & Hr & Hrd & Hlast) | (Hf & Hk & Hnone)].
    + left. split; [exact Hf |]. exists k. split; [exact Hk |].
      exists r. split; [| split; [exact Hrd |]].
      * rewrite nth_error_app1; [exact Hr |].
        apply nth_error_Some. congruence.
      * intros j r' Hj Hr'.
        destruct (Nat.lt_ge_cases j (List.length (hotspotData st))) as [Hlt | Hge].
        -- rewrite nth_error_app1 in Hr' by exact Hlt. eauto.
        -- rewrite nth_error_app2 in Hr' by exact Hge.
           destruct (j - List.length (hotspotData st))%nat as [| q];
             [| destruct q; discriminate].
           injection Hr' as <-. cbn. lia.
    + right. split; [exact Hf |]. split; [exact Hk |].
      intros r Hr. apply in_app_or in Hr. destruct Hr as [Hr | [<- | []]];
        [auto | cbn; lia].
Qed.

(** X5. In every reachable state the back-reference of each dot agrees with
    the hotspot records: a dot some record is bound to has [isHotspot] set
    and its [hotspotIndex] is the index of the last record bound to it; any
    other dot has [isHotspot] unset and [hotspotIndex = -1]. *)
Theorem dot_back_references (c : Config) (st : State) :
  reachable c st -> backReferencesConsistent st.
Proof.
  induction 1 as [| dots | h s t i hs st st' _ IH E | st st' _ IH E
                  | st st' _ IH E | hits st st' _ IH E | st _ IH].
  - intros [| n] d Hn; discriminate.
  - intros n d Hn. right. cbn [dotPositions dotField hotspotData] in *.
    rewrite nth_error_map in Hn.
    destruct (nth_error dots n); [| discriminate]. injection Hn as <-.
    repeat split. intros r [].
  - exact (bindHotspot_backReferences _ _ _ _ _ _ _ E IH).
  - eapply backReferences_same; [| | exact IH].
    + exact (buildHotspotConnectionLine_hotspots _ _ _ E).
    + exact (buildHotspotConnectionLine_dots _ _ _ E).
  - eapply backReferences_same; [| | exact IH].
    + exact (buildHotspotPairConnections_hotspots _ _ _ E).
    + exact (buildHotspotPairConnections_dots _ _ _ E).
  - destruct (handleHover_dots _ _ _ _ E) as (Hh & _ & [Hd | [center Hd]]).
    + eapply backReferences_same; eauto.
    + eapply backReferences_map; [exact Hh | exact Hd | | exact IH].
      intros p. destruct (liftDot_reference c center p) as (H1 & H2 & _). auto.
  - destruct (smoothLiftUpdate_dots c st) as [Hd | Hd].
    + eapply backReferences_same; [apply smoothLiftUpdate_hotspots | exact Hd | exact IH].
    + rewrite map_map in Hd.
      eapply backReferences_map;
        [apply smoothLiftUpdate_hotspots | exact Hd | | exact IH].
      intros p. destruct (easeDot_reference c p) as (H1 & H2 & _). auto.
Qed.

Lemma dot_back_references_witness :
  exists st : State,
    buildDotsFromFile (exampleConfig 3) exampleSites exampleGrid = Ok st /\
    backReferencesConsistent (smoothLiftUpdate (exampleConfig 3) st).
Proof.
  destruct (buildDotsFromFile_ok (exampleConfig 3) exampleSites exampleGrid)
    as (st & E); [discriminate | reflexivity | exact exampleSites_located |].
  exists st. split; [exact E |].
  apply (dot_back_references (exampleConfig 3)).
  apply reach_ease.
  exact (buildDotsFromFile_reachable _ _ _ _ E).
Defined.

(* ================================================================== *)
(** * Further properties of the hover influence engine                 *)
(* ================================================================== *)

(** ** How long a hovered id is held *)

Lemma hoverTrace_app (c : Config) (f1 f2 : list (option nat))
    (s : option nat * Z) :
  hoverTrace c (f1 ++ f2) s = hoverTrace c f2 (hoverTrace c f1 s).
Proof. unfold hoverTrace. apply fold_left_app. Qed.

Lemma hoverTrace_cons (c : Config) (hits : option nat)
    (tl : list (option nat)) (s : option nat * Z) :
  hoverTrace c (hits :: tl) s
  = hoverTrace c tl (updateHovered c hits (fst s) (snd s)).
Proof. reflexivity. Qed.

Lemma hoverTrace_resting (c : Config) (id : nat) (j : nat) :
  forall cd : Z,
  (0 <= cd)%Z ->
  hoverTrace c (repeat (Some id) j) (Some id, cd)
  = (Some id, Z.max (cd - Z.of_nat j) 0).
Proof.
  induction j as [| j IH]; intros cd Hcd.
  - cbn. f_equal. lia.
  - cbn [repeat]. rewrite hoverTrace_cons. cbn [fst snd].
    rewrite cooldown_runs_down_while_hit, IH by lia. f_equal. lia.
Qed.

Lemma hoverTrace_released (c : Config) (k : nat) :
  forall cd : Z, fst (hoverTrace c (repeat None k) (None, cd)) = None.
Proof.
  induction k as [| k IH]; intros cd; [reflexivity |].
  cbn [repeat]. rewrite hoverTrace_cons. cbn [fst snd].
  unfold updateHovered. destruct (cd <=? 0)%Z; cbn [fst snd]; apply IH.
Qed.

Lemma hoverTrace_leaving (c : Config) (id : nat) (k : nat) :
  forall cd : Z,
  (0 <= cd)%Z ->
  fst (hoverTrace c (repeat None k) (Some id, cd)) = Some id
  <-> (Z.of_nat k <= cd)%Z.
Proof.
  induction k as [| k IH]; intros cd Hcd.
  - cbn. split; [lia | reflexivity].
  - cbn [repeat]. rewrite hoverTrace_cons. cbn [fst snd].
    unfold updateHovered. destruct (Z.leb_spec cd 0) as [Hz | Hp]; cbn [fst snd].
    + rewrite hoverTrace_released. split; [discriminate | lia].
    + rewrite IH by lia. lia.
Qed.

Lemma hover_hold_trace (c : Config) (id : nat) (hovered : option nat)
    (cooldown : Z) (m k : nat) :
  hovered <> Some id ->
  (1 <= m)%nat ->
  (1 <= k)%nat ->
  fst (hoverTrace c (repeat (Some id) m ++ repeat None k) (hovered, cooldown))
  = Some id
  <-> (Z.of_nat m + Z.of_nat k <= hoverCooldownFrames c)%Z.
Proof.
  intros Hh Hm Hk. destruct m as [| m]; [lia |].
  rewrite hoverTrace_app. cbn [repeat].
  assert (E : hoverTrace c (Some id :: repeat (Some id) m) (hovered, cooldown)
              = hoverTrace c (repeat (Some id) m)
                  (Some id, Z.max (hoverCooldownFrames c - 1) 0)).
  { rewrite hoverTrace_cons. cbn [fst snd]. f_equal.
    unfold updateHovered.
    assert (Hn : isHovered hovered id = false).
    { destruct hovered as [j |]; [| reflexivity]. cbn.
      apply Nat.eqb_neq. congruence. }
    now rewrite Hn. }
  rewrite E, hoverTrace_resting by lia.
  rewrite hoverTrace_leaving by lia. lia.
Qed.

(** X6. The cooldown counts the frames since the hovered id changed, hits
    included. On a built map, when the ray moves onto a dot, stays on it
    for m >= 1 frames in all and then misses for k >= 1 frames, these frames
    run without error and the id is still held after them exactly when
    [m + k <= hoverCooldownFrames]. *)
Theorem hover_hold_duration (c : Config) (st : State) (id m k : nat) :
  fieldReady st ->
  (id < List.length (dotPositions st))%nat ->
  hoveredInstanceId st <> Some id ->
  (1 <= m)%nat ->
  (1 <= k)%nat ->
  exists st',
    animateFrames c (repeat (Some id) m ++ repeat None k) st = Ok st' /\
    (hoveredInstanceId st' = Some id
     <-> (Z.of_nat m + Z.of_nat k <= hoverCooldownFrames c)%Z).
Proof.
  intros Hr Hid Hh Hm Hk.
  destruct (animateFrames_ready c (repeat (Some id) m ++ repeat None k) st Hr)
    as (st' & E & _ & _ & U).
  { apply Forall_app. split; apply Forall_forall; intros h Hin;
      apply repeat_spec in Hin; subst h; intros j [= <-]; exact Hid. }
  exists st'. split; [exact E |].
  rewrite <- (hover_hold_trace c id (hoveredInstanceId st) (hoverCooldown st)
                m k Hh Hm Hk).
  rewrite <- U. reflexivity.
Qed.

Lemma hover_hold_duration_witness :
  exists st',
    animateFrames (exampleConfig 3) (repeat (Some 0%nat) 1 ++ repeat None 2)
      (dotField (exampleConfig 3) [(0, 0)]) = Ok st' /\
    hoveredInstanceId st' = Some 0%nat.
Proof.
  destruct (hover_hold_duration (exampleConfig 3)
              (dotField (exampleConfig 3) [(0, 0)]) 0 1 2)
    as (st' & E & H).
  - split; [discriminate | intros id; discriminate].
  - cbn. lia.
  - discriminate.
  - lia.
  - lia.
  - exists st'. split; [exact E |]. apply H. cbn. lia.
Defined.

(** ** Bounds on the lifts *)

Lemma exp_nonpos_le_1 (x : R) : x <= 0 -> exp x <= 1.
Proof.
  intros [H | ->]; [| rewrite exp_0; lra].
  rewrite <- exp_0. left. now apply exp_increasing.
Qed.

Lemma liftDot_bounded (c : Config) (center p : Dot.t) :
  0 <= maxLift (hover c) ->
  0 <= Dot.lift p <= maxLift (hover c)
  /\ 0 <= Dot.targetLift p <= maxLift (hover c) ->
  0 <= Dot.lift (liftDot c center p) <= maxLift (hover c)
  /\ 0 <= Dot.targetLift (liftDot c center p) <= maxLift (hover c).
Proof.
  intros Hm [Hl Ht]. unfold liftDot. destruct Js.ltb; cbn; [| auto].
  split; [exact Hl |].
  set (t := sqrt _ * (1 / radius (hover c))).
  assert (He : exp (- t * t) <= 1) by (apply exp_nonpos_le_1; nra).
  assert (Hp := exp_pos (- t * t)).
  unfold Rmax. destruct Rle_dec; nra.
Qed.

Lemma easeDot_bounded (c : Config) (p : Dot.t) :
  0 <= hoverFalloff c <= 1 -> 0 <= easing (hover c) <= 1 ->
  0 <= Dot.lift p <= maxLift (hover c)
  /\ 0 <= Dot.targetLift p <= maxLift (hover c) ->
  0 <= Dot.lift (fst (easeDot c p)) <= maxLift (hover c)
  /\ 0 <= Dot.targetLift (fst (easeDot c p)) <= maxLift (hover c).
Proof.
  intros Hf He [Hl Ht].
  assert (Ht' : 0 <= Dot.targetLift p * hoverFalloff c <= maxLift (hover c))
    by nra.
  split; [| rewrite easeDot_target; exact Ht'].
  unfold easeDot. destruct Js.gtb; cbn; [| exact Hl].
  set (t' := Dot.targetLift p * hoverFalloff c) in *.
  set (e := easing (hover c)) in *. nra.
Qed.

(** X7. With [maxLift >= 0], a falloff in [0, 1] and an easing in [0, 1],
    no lift and no target lift ever exceeds [maxLift] (nor falls below 0),
    in any reachable state. *)
Theorem lifts_never_exceed_maxLift (c : Config) (st : State) :
  0 <= maxLift (hover c) ->
  0 <= hoverFalloff c <= 1 ->
  0 <= easing (hover c) <= 1 ->
  reachable c st ->
  liftsBounded c st.
Proof.
  intros Hm Hf He Hr. unfold liftsBounded.
  induction Hr as [| dots | h s t i hs st st' _ IH E | st st' _ IH E
                   | st st' _ IH E | hits st st' _ IH E | st _ IH].
  - constructor.
  - cbn [dotPositions dotField]. apply Forall_map, Forall_forall.
    intros xy _. cbn. lra.
  - destruct (bindHotspot_inv _ _ _ _ _ _ _ E) as (n & p & Hn & ->).
    cbn [dotPositions setBinding]. apply Forall_setAt; [exact IH |].
    rewrite Forall_forall in IH. apply (IH p). eapply nth_error_In; eauto.
  - now rewrite (buildHotspotConnectionLine_dots _ _ _ E).
  - now rewrite (buildHotspotPairConnections_dots _ _ _ E).
  - destruct (handleHover_dots _ _ _ _ E) as (_ & _ & [-> | [center ->]]);
      [exact IH |].
    apply Forall_map. eapply Forall_impl; [| exact IH].
    intros p Hp. now apply liftDot_bounded.
  - destruct (smoothLiftUpdate_dots c st) as [-> | ->]; [exact IH |].
    rewrite map_map. apply Forall_map. eapply Forall_impl; [| exact IH].
    intros p Hp. now apply easeDot_bounded.
Qed.

Lemma lifts_never_exceed_maxLift_witness :
  exists st1,
    handleHover (exampleConfig 3) (Some 0%nat)
      (dotField (exampleConfig 3) [(0, 0)]) = Ok st1 /\
    liftsBounded (exampleConfig 3) (smoothLiftUpdate (exampleConfig 3) st1).
Proof.
  eexists. split.
  - apply (handleHover_lifting _ _ _ 0%nat (newDot (0, 0)));
      [discriminate | reflexivity | reflexivity].
  - apply (lifts_never_exceed_maxLift (exampleConfig 3)).
    + cbn. lra.
    + cbn. lra.
    + cbn. lra.
    + apply reach_ease. eapply reach_hover; [apply reach_dots |].
      apply (handleHover_lifting _ _ _ 0%nat (newDot (0, 0)));
        [discriminate | reflexivity | reflexivity].
Defined.

(** ** Easing towards the target *)

Lemma easeDot_approach (c : Config) (p : Dot.t) :
  0 <= easing (hover c) <= 1 ->
  let t' := Dot.targetLift p * hoverFalloff c in
  let p' := fst (easeDot c p) in
  Rmin (Dot.lift p) t' <= Dot.lift p' <= Rmax (Dot.lift p) t' /\
  Rabs (Dot.targetLift p' - Dot.lift p') <= Rabs (t' - Dot.lift p) /\
  (snd (easeDot c p) = true ->
   Dot.targetLift p' - Dot.lift p'
   = (1 - easing (hover c)) * (t' - Dot.lift p)).
Proof.
  intros He t' p'. unfold p', easeDot. fold t'.
  cbn [Dot.targetLift Dot.lift Dot.setTargetLift].
  destruct Js.gtb; cbn [fst snd Dot.lift Dot.targetLift Dot.setLift
                        Dot.setTargetLift].
  - set (e := easing (hover c)) in *. set (l := Dot.lift p).
    split; [| split; [| intros _; ring]].
    + unfold Rmin, Rmax. destruct Rle_dec; nra.
    + replace (t' - (l + (t' - l) * e)) with ((1 - e) * (t' - l)) by ring.
      rewrite Rabs_mult, (Rabs_right (1 - e)) by lra.
      assert (H := Rabs_pos (t' - l)). nra.
  - split; [| split; [lra | discriminate]].
    unfold Rmin, Rmax. destruct Rle_dec; lra.
Qed.

(** X8. With an easing in [0, 1], an easing pass never overshoots: the new
    lift of every dot lies between its old lift and its decayed target
    lift, so its distance to the target does not grow; for a dot that moves
    the distance shrinks by the factor [1 - easing]. *)
Theorem easing_never_overshoots (c : Config) (st : State) (i : nat)
    (p : Dot.t) :
  0 <= easing (hover c) <= 1 ->
  meshes st <> None ->
  liftActive st = true \/ hoveredInstanceId st <> None ->
  nth_error (dotPositions st) i = Some p ->
  exists p',
    nth_error (dotPositions (smoothLiftUpdate c st)) i = Some p' /\
    Dot.targetLift p' = Dot.targetLift p * hoverFalloff c /\
    Rmin (Dot.lift p) (Dot.targetLift p') <= Dot.lift p'
      <= Rmax (Dot.lift p) (Dot.targetLift p') /\
    Rabs (Dot.targetLift p' - Dot.lift p')
      <= Rabs (Dot.targetLift p' - Dot.lift p) /\
    (Rabs (Dot.targetLift p' - Dot.lift p) > threshold (hover c) ->
     Dot.targetLift p' - Dot.lift p'
     = (1 - easing (hover c)) * (Dot.targetLift p' - Dot.lift p)).
Proof.
  intros He Hm Hactive Hp.
  destruct (meshes st) as [[dm pm] |] eqn:Em; [| contradiction].
  assert (Hrun : negb (liftActive st) && isNull (hoveredInstanceId st) = false).
  { destruct Hactive as [-> | Hh]; [reflexivity |].
    destruct (hoveredInstanceId st); [apply andb_false_r | contradiction]. }
  rewrite (smoothLiftUpdate_running c st dm pm Em Hrun). cbn [dotPositions].
  exists (fst (easeDot c p)).
  split; [now rewrite map_map, nth_error_map, Hp |].
  destruct (easeDot_approach c p He) as (Hb & Hd & Hs).
  rewrite easeDot_target.
  split; [reflexivity |]. split; [exact Hb |].
  split; [rewrite easeDot_target in Hd; exact Hd |].
  intros Hgt. rewrite easeDot_target in Hs. apply Hs.
  rewrite easeDot_moved; [reflexivity | exact Hgt].
Qed.

Lemma easing_never_overshoots_witness :
  exists p',
    nth_error (dotPositions (smoothLiftUpdate (exampleConfig 3) relaxingField))
              0 = Some p' /\
    Dot.targetLift p' = 0.5 * 0.5.
Proof.
  destruct (easing_never_overshoots (exampleConfig 3) relaxingField 0
              (Dot.mk 0 0 0.5 0.5 false (-1)))
    as (p' & Hn & Ht & _).
  - cbn. lra.
  - discriminate.
  - left. reflexivity.
  - reflexivity.
  - exists p'. split; [exact Hn | exact Ht].
Defined.

(** ** Meshes and dots *)

Lemma dotMatrix_position (c : Config) (p q : Dot.t) :
  Dot.x q = Dot.x p -> Dot.y q = Dot.y p -> Dot.lift q = Dot.lift p ->
  dotMatrix c q = dotMatrix c p.
Proof. unfold dotMatrix. now intros -> -> ->. Qed.

Lemma map_setAt (A B : Type) (f : A -> B) (l : list A) (n : nat) (v w : A) :
  nth_error l n = Some w -> f v = f w ->
  map f (Js.setAt l n v) = map f l.
Proof.
  revert n. induction l as [| h tl IH]; intros [| n] H E; cbn in *;
    try discriminate.
  - injection H as ->. now rewrite E.
  - now rewrite (IH n H E).
Qed.

Lemma easeMatrices_in_sync (c : Config) (dots : list Dot.t) :
  easeMatrices c (map (easeDot c) dots) (map (dotMatrix c) dots)
  = map (dotMatrix c) (map fst (map (easeDot c) dots)).
Proof.
  induction dots as [| p tl IH]; [reflexivity |].
  cbn [map easeMatrices]. destruct (easeDot c p) as [p' moved] eqn:E.
  cbn [fst]. rewrite IH. f_equal.
  destruct moved; [reflexivity |].
  unfold easeDot in E. destruct Js.gtb; [discriminate |].
  injection E as <-. reflexivity.
Qed.

(** X9. From the moment the dot field is built, the dot mesh and the hover
    proxy mesh hold, for every dot, the position computed from the dot's
    current lift: the two meshes never differ and never lag behind a
    lift. *)
Theorem meshes_follow_lifts (c : Config) (st : State) :
  reachable c st ->
  (meshes st = None /\ dotPositions st = []) \/ meshesInSync c st.
Proof.
  unfold meshesInSync.
  induction 1 as [| dots | h s t i hs st st' _ IH E | st st' _ IH E
                  | st st' _ IH E | hits st st' _ IH E | st _ IH].
  - left. split; reflexivity.
  - right. reflexivity.
  - destruct (bindHotspot_inv _ _ _ _ _ _ _ E) as (n & p & Hn & ->).
    cbn [meshes dotPositions setBinding].
    destruct IH as [[_ Hd] | IH].
    + rewrite Hd in Hn. destruct n; discriminate.
    + right. rewrite IH. now rewrite (map_setAt _ _ (dotMatrix c) _ n _ p Hn).
  - assert (Em : meshes st' = meshes st).
    { unfold buildHotspotConnectionLine in E.
      destruct (negb (isSequentialConnectionEnabled c)
                || (List.length (hotspotData st) <? 2)%nat);
        [now injection E as <- |].
      destruct (collectHotspotArcPoints _ _); [| discriminate].
      cbn [Js.bind] in E.
      destruct (List.length a <? 2)%nat; now injection E as <-. }
    rewrite Em, (buildHotspotConnectionLine_dots _ _ _ E). exact IH.
  - assert (Em : meshes st' = meshes st).
    { unfold buildHotspotPairConnections in E.
      destruct (negb (enabled (connectionLine c))); [now injection E as <- |].
      destruct (connectionPairs c) as [[| p tl] |];
        try (now injection E as <-).
      destruct (forEachPair _ _ _ _); [| discriminate].
      now injection E as <-. }
    rewrite Em, (buildHotspotPairConnections_dots _ _ _ E). exact IH.
  - destruct (handleHover_dots _ _ _ _ E) as (_ & Em & [Hd | [center Hd]]).
    + rewrite Em, Hd. exact IH.
    + rewrite Em, Hd. destruct IH as [[Hm Hnil] | IH].
      * left. now rewrite Hnil.
      * right. rewrite IH, map_map.
        assert (Hx : map (fun p => dotMatrix c (liftDot c center p))
                         (dotPositions st)
                     = map (dotMatrix c) (dotPositions st)).
        { apply map_ext. intros p.
          destruct (liftDot_reference c center p) as (_ & _ & Hx & Hy).
          apply dotMatrix_position; auto. apply liftDot_lift. }
        now rewrite Hx.
  - destruct IH as [[Hm Hnil] | IH].
    + left. unfold smoothLiftUpdate. rewrite Hm. auto.
    + right. unfold smoothLiftUpdate. rewrite IH.
      destruct (negb (liftActive st) && isNull (hoveredInstanceId st));
        [exact IH |].
      cbn [meshes dotPositions]. now rewrite easeMatrices_in_sync.
Qed.

Lemma meshes_follow_lifts_witness :
  exists st1,
    handleHover (exampleConfig 3) (Some 0%nat)
      (dotField (exampleConfig 3) [(0, 0)]) = Ok st1 /\
    meshesInSync (exampleConfig 3) (smoothLiftUpdate (exampleConfig 3) st1).
Proof.
  assert (E : handleHover (exampleConfig 3) (Some 0%nat)
                (dotField (exampleConfig 3) [(0, 0)])
              = Ok (setLifted
                      (setHover (dotField (exampleConfig 3) [(0, 0)])
                         (Some 0%nat) 2)
                      (map (liftDot (exampleConfig 3) (newDot (0, 0)))
                         [newDot (0, 0)]))).
  { exact (handleHover_lifting (exampleConfig 3) (Some 0%nat)
             (dotField (exampleConfig 3) [(0, 0)]) 0%nat
             (newDot (0, 0)) ltac:(discriminate) eq_refl eq_refl). }
  eexists. split; [exact E |].
  destruct (meshes_follow_lifts (exampleConfig 3)
              (smoothLiftUpdate (exampleConfig 3)
                 (setLifted
                    (setHover (dotField (exampleConfig 3) [(0, 0)])
                       (Some 0%nat) 2)
                    (map (liftDot (exampleConfig 3) (newDot (0, 0)))
                       [newDot (0, 0)]))))
    as [[Hm _] | H].
  - apply reach_ease. eapply reach_hover; [apply reach_dots | exact E].
  - exfalso. revert Hm. 
    apply (smoothLiftUpdate_hover (exampleConfig 3)). discriminate.
  - exact H.
Defined.

(* ================================================================== *)
(** * Further properties of the geometry factory                       *)
(* ================================================================== *)

Lemma Rmax_floor_pos (floor v : R) : 0 < floor -> 0 < Rmax floor v.
Proof. intros H. assert (Hl := Rmax_l floor v). lra. Qed.

Lemma domed_parts_positive (topRadius bottomRadius height domeHeightRatio : R) :
  0 < topRadius -> 0 < height ->
  let g :=
    createDomedCylinderGeometry topRadius bottomRadius height domeHeightRatio in
  0 < cylinderHeight g /\ 0 < domeHeight g.
Proof.
  intros Hr Hh. cbn. split; [apply Rmax_floor_pos; lra |].
  assert (Hratio : 0.08 <= Rmax 0.08 (Rmin domeHeightRatio 0.7))
    by apply Rmax_l.
  unfold Rmin at 1. destruct Rle_dec; nra.
Qed.

(** An active name that [presets] only inherits from [Object.prototype]
    selects the inherited member, which has none of the fields of a preset,
    and not the [classic] fallback; a name that is not found at all selects
    the fallback. *)
Lemma lookupPreset_inherited (classic : Preset) :
  lookupPreset [("classic"%string, classic)] "toString" = Some emptyPreset /\
  lookupPreset [("classic"%string, classic)] "ring" = None /\
  lookupPreset [("classic"%string, classic)] "classic" = Some classic.
Proof. repeat split. Qed.

(** X10. Whatever the configuration and the active preset are, every
    height and radius that the constructors floor is positive in the solid
    the layout builds: crystal and beacon part heights and radii, the
    cylinder height, dome height and both radii of the domed cylinder, and
    for the orbital solid those of its core and the tube radius of its
    ring.  The major radius of the ring is not floored: it is the larger of
    the two core radii times [ringScale] (1.25 when the preset gives none),
    so it is positive exactly when that scale is, and zero or negative
    otherwise. *)
Theorem layout_solid_non_degenerate (c : Config) :
  let built := buildHotspotGeometryFromLayout c in
  solidNonDegenerate (fst (fst built)) /\
  forall g : Orbital, fst (fst built) = SolidOrbital g ->
    majorRadius g
    = Rmax (dcTopRadius (core g)) (dcBottomRadius (core g))
      * orElse (ringScale (snd built)) 1.25 /\
    (0 < majorRadius g <-> 0 < orElse (ringScale (snd built)) 1.25) /\
    (majorRadius g <= 0 <-> orElse (ringScale (snd built)) 1.25 <= 0).
Proof.
  unfold buildHotspotGeometryFromLayout. cbn zeta. cbn [fst snd].
  set (p := getActiveHotspotLayoutPreset c).
  set (h := Rmax 0.08 _). set (tr := Rmax 0.02 _). set (br := Rmax 0.02 _).
  assert (Hh : 0 < h) by (apply Rmax_floor_pos; lra).
  assert (Htr : 0 < tr) by (apply Rmax_floor_pos; lra).
  assert (Hbr : 0 < br) by (apply Rmax_floor_pos; lra).
  destruct (geometryIs p "crystal").
  { split; [| intros g; discriminate].
    cbn. repeat split; apply Rmax_floor_pos; lra. }
  destruct (geometryIs p "orbital").
  { set (dr := orElse _ _).
    destruct (domed_parts_positive tr br h dr Htr Hh) as [H1 H2].
    split.
    - cbn [solidNonDegenerate core createOrbitalHotspotGeometry tubeRadius].
      repeat split; auto. apply Rmax_floor_pos; lra.
    - intros g [= <-].
      cbn [majorRadius core createOrbitalHotspotGeometry dcTopRadius
           dcBottomRadius createDomedCylinderGeometry].
      assert (Hm : 0 < Rmax tr br)
        by (apply Rlt_le_trans with tr; [exact Htr | apply Rmax_l]).
      set (m := Rmax tr br) in *. set (k := orElse (ringScale p) 1.25).
      split; [reflexivity |]. split; split; intros H; nra. }
  destruct (geometryIs p "beacon").
  { split; [| intros g; discriminate].
    cbn. repeat split; apply Rmax_floor_pos; lra. }
  set (dr := orElse _ _).
  destruct (domed_parts_positive tr br h dr Htr Hh) as [H1 H2].
  split; [| intros g; discriminate].
  cbn [solidNonDegenerate]. repeat split; auto.
Qed.

Lemma layout_solid_non_degenerate_witness :
  let c := orbitalConfig (-1) in
  exists g : Orbital,
    fst (fst (buildHotspotGeometryFromLayout c)) = SolidOrbital g /\
    majorRadius g <= 0 /\ 0 < tubeRadius g.
Proof.
  cbn zeta.
  destruct (layout_solid_non_degenerate (orbitalConfig (-1))) as [Hs Hr].
  eexists. split; [reflexivity |].
  split.
  - apply (Hr _ eq_refl). cbn. lra.
  - cbn [solidNonDegenerate] in Hs. apply Hs.
Defined.

(** X11. For a positive top radius and a positive height, the partial sphere
    of the domed cylinder is a proper cap (polar angle strictly between 0 and
    pi, positive sphere radius) whose rim has exactly the cylinder's top
    radius and whose apex lies exactly [domeHeight] above its rim. *)
Theorem dome_cap_fits_cylinder
    (topRadius bottomRadius height domeHeightRatio : R) :
  0 < topRadius ->
  0 < height ->
  let g :=
    createDomedCylinderGeometry topRadius bottomRadius height domeHeightRatio in
  0 < theta g < PI /\
  0 < sphereRadius g /\
  sphereRadius g * sin (theta g) = topRadius /\
  sphereRadius g - rimY g = domeHeight g.
Proof.
  intros Hr Hh.
  destruct (domed_parts_positive topRadius bottomRadius height domeHeightRatio
              Hr Hh) as [_ Hd].
  cbn in Hd |- *.
  set (dh := Rmin (topRadius * Rmax 0.08 (Rmin domeHeightRatio 0.7))
                  (height * 0.45)) in *.
  set (a := atan (dh / topRadius)).
  assert (Hq : 0 < dh / topRadius) by (apply Rdiv_lt_0_compat; lra).
  assert (Ha0 : 0 < a).
  { unfold a. rewrite <- atan_0. now apply atan_increasing. }
  assert (Ha1 : a < PI / 2) by apply atan_bound.
  assert (Hsin : 0 < sin a) by (apply sin_gt_0; lra).
  assert (Hcos : 0 < cos a) by (apply cos_gt_0; lra).
  assert (Htan : sin a = dh / topRadius * cos a).
  { assert (E := tan_atan (dh / topRadius)). fold a in E.
    unfold tan in E. rewrite <- E. field. lra. }
  assert (Hs2 : 0 < sin (2 * a)) by (rewrite sin_2a; nra).
  split; [lra |].
  split; [apply Rdiv_lt_0_compat; lra |].
  split; [field; lra |].
  rewrite cos_2a_sin, sin_2a.
  replace (topRadius / (2 * sin a * cos a)
           - topRadius / (2 * sin a * cos a) * (1 - 2 * sin a * sin a))
    with (topRadius * (sin a / cos a)) by (field; lra).
  rewrite Htan. field. lra.
Qed.

Lemma dome_cap_fits_cylinder_witness :
  sphereRadius (createDomedCylinderGeometry 0.135 0.135 0.66 0.5)
  * sin (theta (createDomedCylinderGeometry 0.135 0.135 0.66 0.5))
  = 0.135.
Proof.
  apply (dome_cap_fits_cylinder 0.135 0.135 0.66 0.5); lra.
Defined.

(* ================================================================== *)
(** * Further properties of the connection arcs                        *)
(* ================================================================== *)

Lemma sampleIndices_zero (segments : Z) :
  (1 <= segments)%Z ->
  exists middle, sampleIndices 0 segments = (0%Z :: middle) ++ [segments].
Proof.
  intros H. unfold sampleIndices.
  replace (Z.to_nat (segments + 1 - 0)) with (S (Z.to_nat segments - 1) + 1)%nat
    by lia.
  rewrite seq_app, map_app. cbn [seq map].
  exists (map (fun k => (0 + Z.of_nat k)%Z) (seq 1 (Z.to_nat segments - 1))).
  cbn [app]. f_equal. f_equal. f_equal. lia.
Qed.

Lemma arcPoint_on_arc (a b : Vec3.t) (lineCfg : LineCfg) (segments s : Z) :
  (1 <= segments)%Z -> (0 <= s <= segments)%Z ->
  0 <= arcHeight lineCfg ->
  let t := IZR s / IZR segments in
  let q := arcPoint a b lineCfg segments s in
  0 <= t <= 1 /\
  Vec3.x q = Vec3.x a + (Vec3.x b - Vec3.x a) * t /\
  Vec3.z q = Vec3.z a + (Vec3.z b - Vec3.z a) * t /\
  Vec3.y a + (Vec3.y b - Vec3.y a) * t <= Vec3.y q
    <= Vec3.y a + (Vec3.y b - Vec3.y a) * t + arcHeight lineCfg.
Proof.
  intros Hseg Hs Hh t q.
  assert (Hp : 0 < IZR segments) by (apply IZR_lt; lia).
  assert (Hs0 : 0 <= IZR s) by (apply IZR_le; lia).
  assert (Hs1 : IZR s <= IZR segments) by (apply IZR_le; lia).
  assert (Ht : 0 <= t <= 1).
  { unfold t. split.
    - apply Rmult_le_pos; [exact Hs0 |]. left. now apply Rinv_0_lt_compat.
    - apply (Rmult_le_reg_r (IZR segments)); [exact Hp |].
      unfold Rdiv. rewrite Rmult_assoc, Rinv_l by lra. lra. }
  assert (Hpi := PI_RGT_0).
  assert (Hsin0 : 0 <= sin (PI * t)) by (apply sin_ge_0; nra).
  assert (Hsin1 := SIN_bound (PI * t)).
  split; [exact Ht |]. unfold q, arcPoint. fold t.
  cbn [Vec3.x Vec3.y Vec3.z].
  split; [ring |]. split; [ring |]. split; nra.
Qed.

(** X12. The arc between two points always has [segments + 1 >= 2] sample
    points, starts exactly at the first point and ends exactly at the
    second; with a non-negative arc height every sample lies over the
    straight chord, on the chord in plan and at most [arcHeight] above it. *)
Theorem arc_between_spans_endpoints (a b : Vec3.t) (lineCfg : LineCfg) :
  let points := collectArcPointsBetween a b lineCfg in
  Z.of_nat (List.length points) = (effectiveSegments lineCfg + 1)%Z /\
  (2 <= List.length points)%nat /\
  (exists middle, points = (a :: middle) ++ [b]) /\
  (0 <= arcHeight lineCfg ->
   forall q, In q points ->
     exists t, 0 <= t <= 1 /\
       Vec3.x q = Vec3.x a + (Vec3.x b - Vec3.x a) * t /\
       Vec3.z q = Vec3.z a + (Vec3.z b - Vec3.z a) * t /\
       Vec3.y a + (Vec3.y b - Vec3.y a) * t <= Vec3.y q
         <= Vec3.y a + (Vec3.y b - Vec3.y a) * t + arcHeight lineCfg).
Proof.
  cbn zeta. unfold collectArcPointsBetween.
  assert (Hseg := effectiveSegments_pos lineCfg).
  set (segments := effectiveSegments lineCfg) in *.
  rewrite length_map, length_sampleIndices.
  split; [lia |]. split; [lia |]. split.
  - destruct (sampleIndices_zero segments Hseg) as (middle & ->).
    exists (map (arcPoint a b lineCfg segments) middle).
    cbn [app map]. rewrite map_app. cbn [map].
    now rewrite arcPoint_first, arcPoint_last.
  - intros Hh q Hq. apply in_map_iff in Hq. destruct Hq as (s & <- & Hs).
    apply sampleIndices_spec in Hs.
    exists (IZR s / IZR segments).
    exact (arcPoint_on_arc a b lineCfg segments s Hseg Hs Hh).
Qed.

(* ================================================================== *)
(** * Properties of the per-frame synchronisation                      *)
(* ================================================================== *)

(** ** Updating a line is rebuilding it *)

Lemma setHotspotPairLines_same (st : State) :
  setHotspotPairLines st (hotspotPairLines st) = st.
Proof. now destruct st. Qed.

Lemma setHotspotLine_same (st : State) :
  setHotspotLine st (hotspotLine st) = st.
Proof. now destruct st. Qed.

Lemma findIndexFrom_map (A B : Type) (f : A -> B) (pred : B -> bool)
    (l : list A) (k : Z) :
  findIndexFrom (fun v => pred (f v)) l k = findIndexFrom pred (map f l) k.
Proof.
  revert k. induction l as [| h tl IH]; intros k; cbn; [reflexivity |].
  destruct (pred (f h)); [reflexivity | apply IH].
Qed.

(** The lookup reads nothing of the records but their ids. *)
Lemma findHotspotIndexById_ids (hotspots hotspots' : list HotspotRecord)
    (id : option string) :
  map (fun r => rawId (raw r)) hotspots'
  = map (fun r => rawId (raw r)) hotspots ->
  findHotspotIndexById hotspots' id = findHotspotIndexById hotspots id.
Proof.
  intros E. unfold findHotspotIndexById, findIndex.
  destruct (falsyId id); [reflexivity |].
  set (needle := toLowerCase (orElse id ""%string)).
  rewrite (findIndexFrom_map _ _ (fun r => rawId (raw r))
             (fun s => String.eqb (toLowerCase s) needle) hotspots').
  rewrite (findIndexFrom_map _ _ (fun r => rawId (raw r))
             (fun s => String.eqb (toLowerCase s) needle) hotspots).
  now rewrite E.
Qed.

Lemma forEachPair_acc (c : Config) (st : State) (pairs : list ConnectionPair) :
  forall acc : list PairLine,
  forEachPair c st pairs acc
  = (lines <- forEachPair c st pairs [] ;; Ok (acc ++ lines)).
Proof.
  induction pairs as [| p tl IH]; intros acc; cbn [forEachPair Js.bind].
  - now rewrite app_nil_r.
  - destruct (buildPairConnection c st p) as [[e |] | err]; cbn [Js.bind];
      [| apply IH | reflexivity].
    rewrite (IH (acc ++ [e])), (IH ([] ++ [e])).
    destruct (forEachPair c st tl []); cbn [Js.bind]; [| reflexivity].
    now rewrite <- app_assoc.
Qed.

(** Building the line of a pair is updating any entry that carries the
    pair's indices and configuration. *)
Lemma buildPairConnection_as_update (c : Config) (st : State)
    (p : ConnectionPair) (e0 : PairLine) :
  pairResolved (hotspotData st) p = true ->
  fromIndex e0 = findHotspotIndexById (hotspotData st) (fromId p) ->
  toIndex e0 = findHotspotIndexById (hotspotData st) (toId p) ->
  cfgFromId e0 = fromId p -> cfgToId e0 = toId p ->
  cfg e0 = mergePairCfg (connectionLine c) p ->
  material e0 = materialOf (mergePairCfg (connectionLine c) p) ->
  buildPairConnection c st p = (e <- updatePairLine c st e0 ;; Ok (Some e)).
Proof.
  intros R Hf Ht Hfi Hti Hc Hm. unfold pairResolved in R.
  apply andb_true_iff in R. destruct R as [R1 R2]. apply Z.leb_le in R1, R2.
  unfold buildPairConnection, updatePairLine. cbn zeta.
  rewrite (proj2 (Z.ltb_ge _ _) R1), (proj2 (Z.ltb_ge _ _) R2). cbn [orb].
  rewrite Hf, Ht, Hfi, Hti, Hc, Hm.
  destruct (hotspotWorldPositionAt c st _) as [a | err]; [| reflexivity].
  cbn [Js.bind].
  destruct (hotspotWorldPositionAt c st _) as [b | err]; reflexivity.
Qed.

Lemma buildPairConnection_skeleton (c : Config) (st : State)
    (p : ConnectionPair) (r : option PairLine) :
  buildPairConnection c st p = Ok r ->
  match r with
  | None => pairResolved (hotspotData st) p = false
  | Some e =>
      pairResolved (hotspotData st) p = true /\
      fromIndex e = findHotspotIndexById (hotspotData st) (fromId p) /\
      toIndex e = findHotspotIndexById (hotspotData st) (toId p) /\
      cfgFromId e = fromId p /\ cfgToId e = toId p /\
      cfg e = mergePairCfg (connectionLine c) p /\
      material e = materialOf (mergePairCfg (connectionLine c) p)
  end.
Proof.
  unfold buildPairConnection, pairResolved. cbn zeta.
  destruct (Z.ltb_spec (findHotspotIndexById (hotspotData st) (fromId p)) 0)
    as [H1 | H1];
    destruct (Z.ltb_spec (findHotspotIndexById (hotspotData st) (toId p)) 0)
      as [H2 | H2]; cbn [orb];
    try (intros [= <-]; apply andb_false_iff; rewrite !Z.leb_gt; auto; fail).
  destruct (hotspotWorldPositionAt c st _) as [a | err]; [| discriminate].
  cbn [Js.bind].
  destruct (hotspotWorldPositionAt c st _) as [b | err]; [| discriminate].
  cbn [Js.bind]. intros [= <-]. cbn.
  repeat split. apply andb_true_iff. rewrite !Z.leb_le. auto.
Qed.

Lemma pairResolved_ids (hotspots hotspots' : list HotspotRecord)
    (p : ConnectionPair) :
  map (fun r => rawId (raw r)) hotspots'
  = map (fun r => rawId (raw r)) hotspots ->
  pairResolved hotspots' p = pairResolved hotspots p.
Proof.
  intros E. unfold pairResolved.
  now rewrite !(findHotspotIndexById_ids hotspots hotspots' _ E).
Qed.

Lemma forEachPair_as_update (c : Config) (st0 st : State)
    (pairs : list ConnectionPair) :
  sameHotspotIds st0 st ->
  forall lines0 : list PairLine,
  forEachPair c st0 pairs [] = Ok lines0 ->
  forEachPair c st pairs [] = forEachPairLine c st lines0.
Proof.
  intros Hids. induction pairs as [| p tl IH]; intros lines0 E0.
  - cbn in E0. injection E0 as <-. reflexivity.
  - cbn [forEachPair] in E0 |- *.
    destruct (buildPairConnection c st0 p) as [r0 | err] eqn:B0;
      [| discriminate].
    cbn [Js.bind] in E0. apply buildPairConnection_skeleton in B0.
    destruct r0 as [e0 |].
    + destruct B0 as (R0 & Hf & Ht & Hfi & Hti & Hc & Hm).
      rewrite forEachPair_acc in E0.
      destruct (forEachPair c st0 tl []) as [tl0 | err] eqn:T0;
        [| discriminate].
      cbn [Js.bind app] in E0. injection E0 as <-.
      rewrite (buildPairConnection_as_update c st p e0).
      * cbn [forEachPairLine].
        destruct (updatePairLine c st e0) as [e | err]; [| reflexivity].
        cbn [Js.bind]. rewrite forEachPair_acc, (IH tl0 eq_refl).
        destruct (forEachPairLine c st tl0); reflexivity.
      * rewrite <- R0. now apply pairResolved_ids.
      * rewrite Hf. symmetry. now apply findHotspotIndexById_ids.
      * rewrite Ht. symmetry. now apply findHotspotIndexById_ids.
      * exact Hfi.
      * exact Hti.
      * exact Hc.
      * exact Hm.
    + assert (R : pairResolved (hotspotData st) p = false)
        by (rewrite <- B0; now apply pairResolved_ids).
      rewrite (buildPairConnection_dropped c st p R). cbn [Js.bind].
      now apply IH.
Qed.

Lemma forEachPairLine_cleared (c : Config) (st : State)
    (lines : list PairLine) :
  forEachPairLine c (clearHotspotPairConnections st) lines
  = forEachPairLine c st lines.
Proof.
  induction lines as [| e tl IH]; [reflexivity |].
  cbn [forEachPairLine]. rewrite IH. reflexivity.
Qed.

Lemma pair_update_as_build (c : Config) (st0 st0' st : State) :
  buildHotspotPairConnections c st0 = Ok st0' ->
  hotspotPairLines st = hotspotPairLines st0' ->
  sameHotspotIds st0 st ->
  updateHotspotPairConnections c st = buildHotspotPairConnections c st.
Proof.
  intros B0 Hl Hids.
  unfold updateHotspotPairConnections, buildHotspotPairConnections in *.
  destruct (negb (enabled (connectionLine c))); [reflexivity |].
  assert (Hempty : hotspotPairLines st = [] ->
                   Ok st = Ok (clearHotspotPairConnections st)).
  { intros E. f_equal. unfold clearHotspotPairConnections.
    rewrite <- E. symmetry. apply setHotspotPairLines_same. }
  destruct (connectionPairs c) as [[| p tl] |].
  - injection B0 as <-. cbn in Hl. rewrite Hl. now apply Hempty.
  - destruct (forEachPair c (clearHotspotPairConnections st0) (p :: tl) [])
      as [lines0 | err] eqn:F0; [| discriminate].
    injection B0 as <-. cbn [hotspotPairLines setHotspotPairLines] in Hl.
    rewrite (forEachPair_as_update c (clearHotspotPairConnections st0)
               (clearHotspotPairConnections st) (p :: tl) Hids lines0 F0).
    rewrite forEachPairLine_cleared, Hl.
    destruct lines0 as [| e0 tl0]; [| reflexivity].
    cbn [forEachPairLine Js.bind]. now apply Hempty.
  - injection B0 as <-. cbn in Hl. rewrite Hl. now apply Hempty.
Qed.

(** X13. Updating the manual pair lines gives exactly what building them
    from scratch gives (the same state, or the same exception), whenever the
    lines at hand were built for hotspot records with the same ids: after a
    change of lifts no pair line is stale or missing. With every record
    bound to a dot, neither throws. *)
Theorem pair_update_is_rebuild (c : Config) (st0 st0' st : State) :
  buildHotspotPairConnections c st0 = Ok st0' ->
  hotspotPairLines st = hotspotPairLines st0' ->
  sameHotspotIds st0 st ->
  updateHotspotPairConnections c st = buildHotspotPairConnections c st /\
  (Forall (boundTo (dotPositions st)) (hotspotData st) ->
   exists st', updateHotspotPairConnections c st = Ok st').
Proof.
  intros B0 Hl Hids.
  assert (E := pair_update_as_build c st0 st0' st B0 Hl Hids).
  split; [exact E |].
  intros Hb. rewrite E. now apply buildHotspotPairConnections_ok.
Qed.

Lemma pair_update_is_rebuild_witness :
  exists st',
    buildHotspotPairConnections
      (withConnectionPairs (exampleConfig 3) examplePairs) chainField = Ok st' /\
    updateHotspotPairConnections
      (withConnectionPairs (exampleConfig 3) examplePairs) st'
    = buildHotspotPairConnections
        (withConnectionPairs (exampleConfig 3) examplePairs) st'.
Proof.
  destruct (buildHotspotPairConnections_ok
              (withConnectionPairs (exampleConfig 3) examplePairs) chainField
              chainField_bound) as (st' & E).
  exists st'. split; [exact E |].
  apply (pair_update_is_rebuild _ chainField st' st' E eq_refl).
  unfold sameHotspotIds.
  now rewrite (buildHotspotPairConnections_hotspots _ _ _ E).
Defined.


Lemma collectLegsFrom_two_points (c : Config) (dots : list Dot.t)
    (hs : list HotspotRecord) (points : list Vec3.t) :
  (2 <= List.length hs)%nat ->
  collectLegsFrom c dots 0 hs = Ok points ->
  (2 <= List.length points)%nat.
Proof.
  destruct hs as [| h1 [| h2 tl]]; cbn [List.length]; try lia. intros _.
  rewrite collectLegsFrom_leg.
  destruct (getHotspotWorldPosition c dots h1) as [a | err]; [| discriminate].
  destruct (getHotspotWorldPosition c dots h2) as [b | err]; [| discriminate].
  cbn [Js.bind].
  destruct (collectLegsFrom c dots 1 (h2 :: tl)) as [rest | err];
    [| discriminate].
  cbn [Js.bind]. intros [= <-]. rewrite length_app, length_collectLeg.
  assert (H := effectiveSegments_pos (connectionLine c)). lia.
Qed.

Lemma sequential_update_as_build (c : Config) (st : State) :
  hotspotLine st <> None ->
  (2 <= List.length (hotspotData st))%nat ->
  updateHotspotConnectionLine c st = buildHotspotConnectionLine c st.
Proof.
  unfold updateHotspotConnectionLine, buildHotspotConnectionLine.
  intros Hl Hn.
  destruct (negb (isSequentialConnectionEnabled c)); [reflexivity |].
  cbn [orb]. rewrite (proj2 (Nat.ltb_ge _ _) Hn).
  destruct (hotspotLine st) as [t |]; [| contradiction].
  change (collectHotspotArcPoints c (clearHotspotConnectionLine st))
    with (collectHotspotArcPoints c st).
  destruct (collectHotspotArcPoints c st) as [points | err] eqn:E;
    [| reflexivity].
  cbn [Js.bind].
  assert (Hp := collectLegsFrom_two_points c _ _ _ Hn E).
  rewrite (proj2 (Nat.ltb_ge _ _) Hp). reflexivity.
Qed.

(** X14. [updateHotspotConnectionLine] never creates a sequential line: with
    none at hand it leaves the state alone. With a line at hand and at least
    two hotspot records it gives exactly what building the line from scratch
    gives (the same state, or the same exception). *)
Theorem sequential_update_is_rebuild (c : Config) (st : State) :
  (hotspotLine st = None ->
   isSequentialConnectionEnabled c = true ->
   updateHotspotConnectionLine c st = Ok st) /\
  (hotspotLine st <> None ->
   (2 <= List.length (hotspotData st))%nat ->
   updateHotspotConnectionLine c st = buildHotspotConnectionLine c st).
Proof.
  split.
  - unfold updateHotspotConnectionLine. intros -> ->. reflexivity.
  - apply sequential_update_as_build.
Qed.

(** ** What the arc builders read *)

Lemma index_samePlace (dots dots' : list Dot.t) (i : Z) :
  Forall2 samePlace dots dots' ->
  match Js.index dots i, Js.index dots' i with
  | Some p, Some q => samePlace p q
  | None, None => True
  | _, _ => False
  end.
Proof.
  intros H. unfold Js.index. destruct (i <? 0)%Z; [exact I |].
  generalize (Z.to_nat i). induction H as [| p q tl tl' Hpq Htl IH];
    intros [| n]; cbn; auto.
  apply IH.
Qed.

Lemma getHotspotWorldPosition_samePlace (c : Config) (dots dots' : list Dot.t)
    (hs : HotspotRecord) :
  Forall2 samePlace dots dots' ->
  getHotspotWorldPosition c dots' hs = getHotspotWorldPosition c dots hs.
Proof.
  intros H. unfold getHotspotWorldPosition.
  assert (Hi := index_samePlace dots dots' (dotIndex hs) H).
  destruct (Js.index dots (dotIndex hs)) as [p |],
           (Js.index dots' (dotIndex hs)) as [q |]; try contradiction;
    [| reflexivity].
  destruct Hi as (-> & -> & ->). reflexivity.
Qed.

Lemma collectLegsFrom_samePlace (c : Config) (dots dots' : list Dot.t)
    (hs : list HotspotRecord) :
  Forall2 samePlace dots dots' ->
  forall i, collectLegsFrom c dots' i hs = collectLegsFrom c dots i hs.
Proof.
  intros H. induction hs as [| h1 tl IH]; intros i; [reflexivity |].
  destruct tl as [| h2 tl']; [reflexivity |].
  rewrite !collectLegsFrom_leg, IH,
    !(getHotspotWorldPosition_samePlace c dots dots' _ H).
  reflexivity.
Qed.

Lemma forEachPair_samePlace (c : Config) (st st' : State)
    (pairs : list ConnectionPair) :
  hotspotData st' = hotspotData st ->
  Forall2 samePlace (dotPositions st) (dotPositions st') ->
  forall acc, forEachPair c st' pairs acc = forEachPair c st pairs acc.
Proof.
  intros Hh Hd. induction pairs as [| p tl IH]; intros acc; [reflexivity |].
  cbn [forEachPair].
  assert (E : buildPairConnection c st' p = buildPairConnection c st p).
  { unfold buildPairConnection, hotspotWorldPositionAt. rewrite Hh. cbn zeta.
    destruct (_ || _); [reflexivity |].
    destruct (Js.index (hotspotData st) _) as [hf |]; [| reflexivity].
    rewrite (getHotspotWorldPosition_samePlace c _ _ hf Hd).
    destruct (getHotspotWorldPosition c (dotPositions st) hf); [| reflexivity].
    cbn [Js.bind].
    destruct (Js.index (hotspotData st) _) as [ht |]; [| reflexivity].
    now rewrite (getHotspotWorldPosition_samePlace c _ _ ht Hd). }
  rewrite E. destruct (buildPairConnection c st p) as [[e |] | err];
    cbn [Js.bind]; auto.
Qed.

Lemma setHotspotLine_clear (st : State) (l : option Tube) :
  setHotspotLine (clearHotspotConnectionLine st) l = setHotspotLine st l.
Proof. reflexivity. Qed.

Lemma setHotspotPairLines_clear (st : State) (l : list PairLine) :
  setHotspotPairLines (clearHotspotPairConnections st) l
  = setHotspotPairLines st l.
Proof. reflexivity. Qed.

(** A state whose arcs are current stays so when nothing the builders read
    changes: the records, the places of the dots, the lines at hand. *)
Lemma arcsCurrent_transfer (c : Config) (st st' : State) :
  hotspotData st' = hotspotData st ->
  Forall2 samePlace (dotPositions st) (dotPositions st') ->
  hotspotLine st' = hotspotLine st ->
  hotspotPairLines st' = hotspotPairLines st ->
  arcsCurrent c st -> arcsCurrent c st'.
Proof.
  intros Hh Hd Hl Hp [Bl Bp]. split.
  - unfold buildHotspotConnectionLine in *. rewrite Hh.
    destruct (_ || _).
    + injection Bl as Bl. f_equal.
      assert (E : hotspotLine st = None) by (rewrite <- Bl at 1; reflexivity).
      unfold clearHotspotConnectionLine. rewrite <- E, <- Hl.
      apply setHotspotLine_same.
    + unfold collectHotspotArcPoints in *.
      cbn [dotPositions hotspotData clearHotspotConnectionLine setHotspotLine]
        in *.
      rewrite Hh, (collectLegsFrom_samePlace c _ _ _ Hd).
      destruct (collectLegsFrom c (dotPositions st) 0 (hotspotData st))
        as [points | err]; [| discriminate].
      cbn [Js.bind] in *. destruct (List.length points <? 2)%nat.
      * injection Bl as Bl. f_equal.
        assert (E : hotspotLine st = None) by (rewrite <- Bl at 1; reflexivity).
        unfold clearHotspotConnectionLine. rewrite <- E, <- Hl.
        apply setHotspotLine_same.
      * injection Bl as Bl. f_equal.
        assert (E : hotspotLine st
                    = Some (buildArcTubeGeometry points (connectionLine c)))
          by (rewrite <- Bl at 1; reflexivity).
        rewrite <- E, <- Hl.
        rewrite setHotspotLine_clear. apply setHotspotLine_same.
  - unfold buildHotspotPairConnections in *.
    assert (Hempty : Ok (clearHotspotPairConnections st) = Ok st ->
                     Ok (clearHotspotPairConnections st') = Ok st').
    { intros [= E]. f_equal.
      assert (E' : hotspotPairLines st = []) by (rewrite <- E at 1; reflexivity).
      unfold clearHotspotPairConnections. rewrite <- E', <- Hp.
      apply setHotspotPairLines_same. }
    destruct (negb (enabled (connectionLine c))); [auto |].
    destruct (connectionPairs c) as [[| p tl] |]; auto.
    rewrite (forEachPair_samePlace c (clearHotspotPairConnections st)
               (clearHotspotPairConnections st') (p :: tl) Hh Hd).
    destruct (forEachPair c (clearHotspotPairConnections st) (p :: tl) [])
      as [lines | err]; [| discriminate].
    cbn [Js.bind] in *. injection Bp as Bp. f_equal.
    assert (E : hotspotPairLines st = lines) by (rewrite <- Bp at 1; reflexivity).
    rewrite <- E, <- Hp.
    rewrite setHotspotPairLines_clear. apply setHotspotPairLines_same.
Qed.

Lemma buildHotspotConnectionLine_form (c : Config) (st st' : State) :
  buildHotspotConnectionLine c st = Ok st' ->
  forall st2,
  hotspotData st2 = hotspotData st ->
  Forall2 samePlace (dotPositions st) (dotPositions st2) ->
  buildHotspotConnectionLine c st2
  = Ok (setHotspotLine st2 (hotspotLine st')).
Proof.
  intros B st2 Hh Hd. unfold buildHotspotConnectionLine in *. rewrite Hh.
  destruct (_ || _); [now injection B as <- |].
  unfold collectHotspotArcPoints in *.
  cbn [dotPositions hotspotData clearHotspotConnectionLine setHotspotLine] in *.
  rewrite Hh, (collectLegsFrom_samePlace c _ _ _ Hd).
  destruct (collectLegsFrom c (dotPositions st) 0 (hotspotData st))
    as [points | err]; [| discriminate].
  cbn [Js.bind] in *.
  destruct (List.length points <? 2)%nat; now injection B as <-.
Qed.

Lemma buildHotspotPairConnections_form (c : Config) (st st' : State) :
  buildHotspotPairConnections c st = Ok st' ->
  forall st2,
  hotspotData st2 = hotspotData st ->
  Forall2 samePlace (dotPositions st) (dotPositions st2) ->
  buildHotspotPairConnections c st2
  = Ok (setHotspotPairLines st2 (hotspotPairLines st')).
Proof.
  intros B st2 Hh Hd. unfold buildHotspotPairConnections in *.
  destruct (negb (enabled (connectionLine c))); [now injection B as <- |].
  destruct (connectionPairs c) as [[| p tl] |]; try (now injection B as <-).
  rewrite (forEachPair_samePlace c (clearHotspotPairConnections st)
             (clearHotspotPairConnections st2) (p :: tl) Hh Hd).
  destruct (forEachPair c (clearHotspotPairConnections st) (p :: tl) [])
    as [lines | err]; [| discriminate].
  cbn [Js.bind] in *. now injection B as <-.
Qed.

Lemma Forall2_samePlace_refl (dots : list Dot.t) :
  Forall2 samePlace dots dots.
Proof. induction dots; constructor; [repeat split | assumption]. Qed.

Lemma Forall2_samePlace_map (f : Dot.t -> Dot.t) (dots : list Dot.t) :
  (forall p, samePlace p (f p)) -> Forall2 samePlace dots (map f dots).
Proof. intros H. induction dots; constructor; auto. Qed.

(** Building a line changes nothing but that line. *)
Lemma buildHotspotConnectionLine_only (c : Config) (st st' : State) :
  buildHotspotConnectionLine c st = Ok st' ->
  st' = setHotspotLine st (hotspotLine st').
Proof.
  intros B.
  assert (E := buildHotspotConnectionLine_form c st st' B st eq_refl
                 (Forall2_samePlace_refl _)).
  congruence.
Qed.

Lemma buildHotspotPairConnections_only (c : Config) (st st' : State) :
  buildHotspotPairConnections c st = Ok st' ->
  st' = setHotspotPairLines st (hotspotPairLines st').
Proof.
  intros B.
  assert (E := buildHotspotPairConnections_form c st st' B st eq_refl
                 (Forall2_samePlace_refl _)).
  congruence.
Qed.

(** Both builders in a row leave the arcs current. *)
Lemma arcsCurrent_after_builds (c : Config) (st1 st2 st3 : State) :
  buildHotspotConnectionLine c st1 = Ok st2 ->
  buildHotspotPairConnections c st2 = Ok st3 ->
  arcsCurrent c st3.
Proof.
  intros Bl Bp.
  assert (E2 := buildHotspotConnectionLine_only c st1 st2 Bl).
  assert (E3 := buildHotspotPairConnections_only c st2 st3 Bp).
  split.
  - rewrite (buildHotspotConnectionLine_form c st1 st2 Bl st3).
    + f_equal.
      assert (H : hotspotLine st3 = hotspotLine st2)
        by (rewrite E3; reflexivity).
      rewrite <- H. apply setHotspotLine_same.
    + rewrite E3, E2. reflexivity.
    + rewrite E3, E2. apply Forall2_samePlace_refl.
  - rewrite (buildHotspotPairConnections_form c st2 st3 Bp st3).
    + f_equal. apply setHotspotPairLines_same.
    + rewrite E3. reflexivity.
    + rewrite E3. apply Forall2_samePlace_refl.
Qed.

(** ** Synchronising the hotspots *)

Lemma getHotspotIdleLift_bound (fx : option EffectsCfg) (hs : HotspotRecord)
    (elapsedTime : R) :
  (isIdleEnabled fx = false -> getHotspotIdleLift fx hs elapsedTime = 0) /\
  (forall idleCfg, idleOf fx = Some idleCfg ->
     Rabs (getHotspotIdleLift fx hs elapsedTime)
     <= Rabs (idleAmplitude idleCfg)).
Proof.
  unfold getHotspotIdleLift, isIdleEnabled. split.
  - destruct (idleOf fx) as [i |]; [| reflexivity]. now intros ->.
  - intros i ->. destruct (idleEnabled i).
    + rewrite Rabs_mult.
      assert (Hs := SIN_bound (elapsedTime * idleSpeed i + animationPhase hs)).
      assert (Ha := Rabs_pos (idleAmplitude i)).
      assert (Hb : Rabs (sin (elapsedTime * idleSpeed i + animationPhase hs))
                   <= 1) by (apply Rabs_le; lra).
      assert (Hp := Rabs_pos
                      (sin (elapsedTime * idleSpeed i + animationPhase hs))).
      nra.
    + rewrite Rabs_R0. apply Rabs_pos.
Qed.

Lemma syncHotspot_bound (c : Config) (fx : option EffectsCfg) (elapsedTime : R)
    (dots : list Dot.t) (hs : HotspotRecord) :
  boundTo dots hs ->
  exists tr,
    syncHotspot c fx elapsedTime dots hs
    = Ok (syncedRecord fx elapsedTime hs, tr) /\
    ridesDot c fx elapsedTime dots hs tr.
Proof.
  intros Hb. unfold syncHotspot.
  destruct (index_in_range _ dots (dotIndex hs) Hb) as [p Ep]. rewrite Ep.
  eexists. split; [reflexivity |].
  exists p. cbn. unfold getCylinderCenterY.
  repeat split; auto. lra.
Qed.

Lemma syncHotspots_bound (c : Config) (fx : option EffectsCfg)
    (elapsedTime : R) (dots : list Dot.t) (hotspots : list HotspotRecord) :
  Forall (boundTo dots) hotspots ->
  exists transforms,
    syncHotspots c fx elapsedTime dots hotspots
    = Ok (map (syncedRecord fx elapsedTime) hotspots, transforms) /\
    Forall2 (ridesDot c fx elapsedTime dots) hotspots transforms.
Proof.
  induction 1 as [| hs tl Hhs Htl IH].
  - exists []. split; [reflexivity | constructor].
  - destruct (syncHotspot_bound c fx elapsedTime dots hs Hhs) as (tr & E & Hr).
    destruct IH as (trs & E' & Hrs).
    exists (tr :: trs). cbn [syncHotspots map]. rewrite E, E'.
    split; [reflexivity | now constructor].
Qed.

Lemma syncedRecord_fields (fx : option EffectsCfg) (elapsedTime : R)
    (hs : HotspotRecord) :
  raw (syncedRecord fx elapsedTime hs) = raw hs /\
  dotIndex (syncedRecord fx elapsedTime hs) = dotIndex hs /\
  meshType (syncedRecord fx elapsedTime hs) = meshType hs /\
  meshInstanceId (syncedRecord fx elapsedTime hs) = meshInstanceId hs /\
  idleLift (syncedRecord fx elapsedTime hs)
  = getHotspotIdleLift fx hs elapsedTime.
Proof. repeat split. Qed.

(** The sequential line at hand is there exactly when a build makes one. *)
Lemma line_at_hand (c : Config) (st : State) :
  buildHotspotConnectionLine c st = Ok st ->
  (hotspotLine st = None
   <-> negb (isSequentialConnectionEnabled c)
       || (List.length (hotspotData st) <? 2)%nat = true).
Proof.
  unfold buildHotspotConnectionLine.
  destruct (negb (isSequentialConnectionEnabled c)
            || (List.length (hotspotData st) <? 2)%nat) eqn:Ec.
  - intros [= E]. split; [reflexivity |]. intros _.
    rewrite <- E. reflexivity.
  - apply orb_false_iff in Ec. destruct Ec as [_ Hn].
    apply Nat.ltb_ge in Hn.
    destruct (collectHotspotArcPoints c (clearHotspotConnectionLine st))
      as [points | err] eqn:Ep; [| discriminate].
    cbn [Js.bind].
    assert (Hp := collectLegsFrom_two_points c _ _ _ Hn Ep).
    rewrite (proj2 (Nat.ltb_ge _ _) Hp). intros [= E].
    split; [| discriminate]. rewrite <- E. discriminate.
Qed.

Lemma update_line_at_hand (c : Config) (st : State) :
  (hotspotLine st = None
   <-> negb (isSequentialConnectionEnabled c)
       || (List.length (hotspotData st) <? 2)%nat = true) ->
  updateHotspotConnectionLine c st = buildHotspotConnectionLine c st.
Proof.
  intros H.
  destruct (hotspotLine st) as [t |] eqn:El.
  - destruct (negb (isSequentialConnectionEnabled c)
              || (List.length (hotspotData st) <? 2)%nat) eqn:Ec.
    + destruct H as [_ H]. discriminate (H eq_refl).
    + apply orb_false_iff in Ec. destruct Ec as [_ Hn].
      apply Nat.ltb_ge in Hn.
      apply sequential_update_as_build; [congruence | exact Hn].
  - destruct H as [H _]. specialize (H eq_refl).
    unfold updateHotspotConnectionLine, buildHotspotConnectionLine.
    rewrite H, El.
    destruct (negb (isSequentialConnectionEnabled c)); [reflexivity |].
    f_equal. unfold clearHotspotConnectionLine. rewrite <- El.
    symmetry. apply setHotspotLine_same.
Qed.

(** The heart of the rebuild policy: on a state whose lines were current
    before the lifts moved, [syncHotspotLift] runs without exception and
    leaves the arcs current for the new lifts and idle lifts. *)
Lemma syncHotspotLift_current (c : Config) (fx : option EffectsCfg)
    (elapsedTime : R) (before st : State) :
  arcsCurrent c before ->
  hotspotData st = hotspotData before ->
  hotspotLine st = hotspotLine before ->
  hotspotPairLines st = hotspotPairLines before ->
  Forall (boundTo (dotPositions st)) (hotspotData st) ->
  exists (st' : State) (transforms : list HotspotTransform),
    syncHotspotLift c fx elapsedTime st = Ok (st', transforms) /\
    arcsCurrent c st' /\
    st' = setHotspotPairLines
            (setHotspotLine
               (setHotspotData st
                  (map (syncedRecord fx elapsedTime) (hotspotData st)))
               (hotspotLine st'))
            (hotspotPairLines st') /\
    Forall2 (ridesDot c fx elapsedTime (dotPositions st)) (hotspotData st)
            transforms.
Proof.
  intros [Bl Bp] Hh Hl Hp Hb.
  destruct (syncHotspots_bound c fx elapsedTime _ _ Hb) as (trs & Es & Hr).
  set (hd' := map (syncedRecord fx elapsedTime) (hotspotData st)) in *.
  set (st3 := setHotspotData st hd').
  assert (Hb3 : Forall (boundTo (dotPositions st3)) (hotspotData st3)).
  { cbn [dotPositions hotspotData st3 setHotspotData]. unfold hd'.
    apply Forall_map. eapply Forall_impl; [| exact Hb].
    intros hs H. exact H. }
  assert (Hlen : List.length (hotspotData st3) = List.length (hotspotData before)).
  { cbn [hotspotData st3 setHotspotData]. unfold hd'.
    now rewrite length_map, Hh. }
  assert (Eu : updateHotspotConnectionLine c st3
               = buildHotspotConnectionLine c st3).
  { apply update_line_at_hand.
    change (hotspotLine st3) with (hotspotLine st).
    rewrite Hl, Hlen. now apply line_at_hand. }
  destruct (buildHotspotConnectionLine_ok c st3 Hb3) as (st4 & B4).
  assert (E4 := buildHotspotConnectionLine_only c st3 st4 B4).
  assert (Hb4 : Forall (boundTo (dotPositions st4)) (hotspotData st4))
    by (rewrite E4; exact Hb3).
  assert (Ep : updateHotspotPairConnections c st4
               = buildHotspotPairConnections c st4).
  { apply (pair_update_as_build c before before st4 Bp).
    - rewrite E4. cbn. exact Hp.
    - unfold sameHotspotIds. rewrite E4.
      cbn [hotspotData setHotspotLine st3 setHotspotData]. unfold hd'.
      rewrite map_map, <- Hh. reflexivity. }
  destruct (buildHotspotPairConnections_ok c st4 Hb4) as (st5 & B5).
  assert (E5 := buildHotspotPairConnections_only c st4 st5 B5).
  exists st5, trs. split; [| split; [| split]].
  - unfold syncHotspotLift. rewrite Es. cbn [Js.bind fst snd].
    fold hd'. fold st3. rewrite Eu, B4. cbn [Js.bind]. rewrite Ep, B5.
    reflexivity.
  - exact (arcsCurrent_after_builds c st3 st4 st5 B4 B5).
  - rewrite E5 at 1. rewrite E4 at 1.
    assert (H : hotspotLine st5 = hotspotLine st4) by (rewrite E5; reflexivity).
    now rewrite H.
  - exact Hr.
Qed.

Lemma updateHotspotConnectionLine_only (c : Config) (st st' : State) :
  updateHotspotConnectionLine c st = Ok st' ->
  st' = setHotspotLine st (hotspotLine st').
Proof.
  unfold updateHotspotConnectionLine, clearHotspotConnectionLine.
  destruct (negb (isSequentialConnectionEnabled c)).
  - intros [= <-]. reflexivity.
  - destruct (hotspotLine st) as [t |] eqn:El.
    + destruct (collectHotspotArcPoints c st) as [points | err];
        [| discriminate].
      cbn [Js.bind].
      destruct (List.length points <? 2)%nat; intros [= <-].
      * symmetry. apply setHotspotLine_same.
      * reflexivity.
    + intros [= <-]. symmetry. apply setHotspotLine_same.
Qed.

Lemma updateHotspotPairConnections_only (c : Config) (st st' : State) :
  updateHotspotPairConnections c st = Ok st' ->
  st' = setHotspotPairLines st (hotspotPairLines st').
Proof.
  unfold updateHotspotPairConnections, clearHotspotPairConnections.
  destruct (negb (enabled (connectionLine c))).
  - intros [= <-]. reflexivity.
  - destruct (hotspotPairLines st) as [| l ls] eqn:Ep.
    + intros [= <-]. symmetry. apply setHotspotPairLines_same.
    + destruct (forEachPairLine c st (l :: ls)) as [lines1 | err];
        [| discriminate].
      intros [= <-]. reflexivity.
Qed.

(** X15. When [syncHotspotLift] returns, it has left the dots, the meshes
    and the hover state alone; every record has the idle lift of this
    instant, which is zero with the idle effect off and never larger in size
    than the configured amplitude; and the transform written for a hotspot
    puts it on its dot: over the dot in plan, and above the dot's own
    instance by half the difference of the two heights plus the idle
    lift. *)
Theorem hotspots_ride_their_dots (c : Config) (fx : option EffectsCfg)
    (elapsedTime : R) (st st' : State) (transforms : list HotspotTransform) :
  syncHotspotLift c fx elapsedTime st = Ok (st', transforms) ->
  dotPositions st' = dotPositions st /\
  meshes st' = meshes st /\
  hoveredInstanceId st' = hoveredInstanceId st /\
  hoverCooldown st' = hoverCooldown st /\
  liftActive st' = liftActive st /\
  hotspotData st' = map (syncedRecord fx elapsedTime) (hotspotData st) /\
  Forall2 (ridesDot c fx elapsedTime (dotPositions st)) (hotspotData st)
          transforms /\
  (forall hs, In hs (hotspotData st') ->
     (isIdleEnabled fx = false -> idleLift hs = 0) /\
     (forall idleCfg, idleOf fx = Some idleCfg ->
        Rabs (idleLift hs) <= Rabs (idleAmplitude idleCfg))).
Proof.
  unfold syncHotspotLift. intros E.
  destruct (syncHotspots c fx elapsedTime (dotPositions st) (hotspotData st))
    as [[hd' trs] | err] eqn:Es; [| discriminate].
  cbn [Js.bind fst snd] in E.
  assert (Hsync : hd' = map (syncedRecord fx elapsedTime) (hotspotData st) /\
                  Forall2 (ridesDot c fx elapsedTime (dotPositions st))
                          (hotspotData st) trs).
  { clear E. revert hd' trs Es.
    induction (hotspotData st) as [| hs tl IH]; intros hd' trs Es.
    - cbn in Es. injection Es as <- <-. split; [reflexivity | constructor].
    - cbn [syncHotspots] in Es.
      destruct (syncHotspot c fx elapsedTime (dotPositions st) hs)
        as [[hs1 tr] | err] eqn:E1; [| discriminate].
      cbn [Js.bind] in Es.
      destruct (syncHotspots c fx elapsedTime (dotPositions st) tl)
        as [[tl1 trs1] | err] eqn:E2; [| discriminate].
      cbn [Js.bind fst snd] in Es. injection Es as <- <-.
      destruct (IH tl1 trs1 eq_refl) as [-> Hrs].
      unfold syncHotspot in E1.
      destruct (Js.index (dotPositions st) (dotIndex hs)) as [p |] eqn:Ep;
        [| discriminate].
      injection E1 as <- <-. split; [reflexivity |].
      constructor; [| exact Hrs].
      exists p. cbn. unfold getCylinderCenterY. repeat split; auto. lra. }
  destruct Hsync as [-> Hr].
  destruct (updateHotspotConnectionLine c _) as [st1 | err] eqn:E1;
    [| discriminate].
  cbn [Js.bind] in E.
  destruct (updateHotspotPairConnections c st1) as [st2 | err] eqn:E2;
    [| discriminate].
  cbn [Js.bind] in E. injection E as <- <-.
  assert (F1 := updateHotspotConnectionLine_only c _ _ E1).
  assert (F2 := updateHotspotPairConnections_only c _ _ E2).
  rewrite F2, F1. cbn [dotPositions meshes hoveredInstanceId hoverCooldown
                       liftActive hotspotData setHotspotPairLines
                       setHotspotLine setHotspotData].
  repeat split; auto.
  - apply in_map_iff in H. destruct H as (hs0 & <- & _). intros Hoff.
    apply (getHotspotIdleLift_bound fx hs0 elapsedTime). exact Hoff.
  - apply in_map_iff in H. destruct H as (hs0 & <- & _).
    apply (getHotspotIdleLift_bound fx hs0 elapsedTime).
Qed.

(** ** Whole frames *)

Lemma Forall2_samePlace_trans (l1 l2 l3 : list Dot.t) :
  Forall2 samePlace l1 l2 -> Forall2 samePlace l2 l3 ->
  Forall2 samePlace l1 l3.
Proof.
  intros H. revert l3. induction H as [| p q l1 l2 Hpq _ IH]; intros l3 H3.
  - inversion H3. constructor.
  - inversion H3 as [| q' r l2' l3' Hqr Htl]; subst.
    constructor; [| now apply IH].
    destruct Hpq as (? & ? & ?), Hqr as (? & ? & ?).
    repeat split; congruence.
Qed.

Lemma Forall2_samePlace_length (l1 l2 : list Dot.t) :
  Forall2 samePlace l1 l2 -> List.length l2 = List.length l1.
Proof. induction 1; cbn; congruence. Qed.

Lemma boundTo_same_length (dots dots' : list Dot.t)
    (hotspots : list HotspotRecord) :
  List.length dots' = List.length dots ->
  Forall (boundTo dots) hotspots -> Forall (boundTo dots') hotspots.
Proof.
  intros L H. eapply Forall_impl; [| exact H].
  intros hs. unfold boundTo. now rewrite L.
Qed.

(** [handleHover] leaves the arcs alone, moves no dot, and has the engine
    running whenever it leaves a dot hovered. *)
Lemma handleHover_frame (c : Config) (hits : option nat) (st st' : State) :
  handleHover c hits st = Ok st' ->
  hotspotLine st' = hotspotLine st /\
  hotspotPairLines st' = hotspotPairLines st /\
  Forall2 samePlace (dotPositions st) (dotPositions st') /\
  (meshes st <> None -> hoveredInstanceId st' <> None ->
   liftActive st' = true).
Proof.
  unfold handleHover.
  destruct (meshes st) as [m |] eqn:Em.
  - set (next := updateHovered c hits (hoveredInstanceId st) (hoverCooldown st)).
    destruct (fst next) as [id |] eqn:En.
    + cbn [dotPositions setHover].
      destruct (nth_error (dotPositions st) id) as [center |] eqn:Ec.
      * intros [= <-]. cbn. repeat split; auto.
        apply Forall2_samePlace_map. intros p.
        destruct (liftDot_reference c center p) as (_ & _ & Hx & Hy).
        repeat split; auto. apply liftDot_lift.
      * destruct (dotPositions st) eqn:Ed; [| discriminate].
        intros [= <-]. cbn. repeat split; auto.
    + intros [= <-]. cbn [hotspotLine hotspotPairLines dotPositions
                          hoveredInstanceId liftActive setHover].
      split; [reflexivity | split; [reflexivity | split]].
      * apply Forall2_samePlace_refl.
      * intros _ H. now elim H.
  - intros [= <-].
    split; [reflexivity | split; [reflexivity | split]].
    + apply Forall2_samePlace_refl.
    + intros H. now elim H.
Qed.

Lemma easeDot_samePlace (c : Config) (p : Dot.t) :
  snd (easeDot c p) = false -> samePlace p (fst (easeDot c p)).
Proof.
  unfold easeDot. destruct Js.gtb; [discriminate |].
  intros _. repeat split.
Qed.

Lemma Forall2_samePlace_map_in (f : Dot.t -> Dot.t) (dots : list Dot.t) :
  (forall p, In p dots -> samePlace p (f p)) ->
  Forall2 samePlace dots (map f dots).
Proof.
  induction dots as [| p tl IH]; intros H; constructor.
  - apply H. now left.
  - apply IH. intros q Hq. apply H. now right.
Qed.

(** [smoothLiftUpdate] leaves the arcs and the records alone; it keeps the
    engine running while a dot is hovered; and when it leaves the engine at
    rest, no dot has moved in this tick. *)
Lemma smoothLiftUpdate_frame (c : Config) (st : State) :
  (hoveredInstanceId st <> None -> liftActive st = true) ->
  hotspotLine (smoothLiftUpdate c st) = hotspotLine st /\
  hotspotPairLines (smoothLiftUpdate c st) = hotspotPairLines st /\
  (hoveredInstanceId (smoothLiftUpdate c st) <> None ->
   liftActive (smoothLiftUpdate c st) = true) /\
  (liftActive (smoothLiftUpdate c st) = false ->
   Forall2 samePlace (dotPositions st) (dotPositions (smoothLiftUpdate c st))).
Proof.
  intros Hh. unfold smoothLiftUpdate.
  destruct (meshes st) as [[dotMesh proxyMesh] |].
  2:{ repeat split; auto. intros _. apply Forall2_samePlace_refl. }
  destruct (negb (liftActive st) && isNull (hoveredInstanceId st)) eqn:Eq.
  { repeat split; auto. intros _. apply Forall2_samePlace_refl. }
  cbn [hotspotLine hotspotPairLines hoveredInstanceId liftActive dotPositions].
  repeat split; auto.
  - intros Hn.
    destruct (hoveredInstanceId st); [| now elim Hn].
    cbn [isNull]. rewrite andb_false_r. apply Hh. discriminate.
  - destruct (negb (existsb snd (map (easeDot c) (dotPositions st)))
              && isNull (hoveredInstanceId st)) eqn:Ed.
    + intros _. apply andb_true_iff in Ed. destruct Ed as [Ed _].
      apply negb_true_iff in Ed. rewrite map_map.
      apply Forall2_samePlace_map_in. intros p Hp.
      apply easeDot_samePlace.
      destruct (snd (easeDot c p)) eqn:Es; [| reflexivity].
      assert (Hex : existsb snd (map (easeDot c) (dotPositions st)) = true).
      { apply existsb_exists. exists (easeDot c p). split; [| exact Es].
        now apply in_map. }
      congruence.
    + intros Hl. rewrite Hl in Eq. cbn [negb andb] in Eq.
      destruct (hoveredInstanceId st); [| discriminate].
      rewrite Hh in Hl; discriminate.
Qed.

(** One whole frame keeps the frame invariant and never throws. *)
Lemma animateFrame_invariant (c : Config) (fx : option EffectsCfg)
    (elapsedTime : R) (hits : option nat) (st : State) :
  frameInvariant c st -> hitInRange st hits ->
  exists (st' : State) (transforms : list HotspotTransform),
    animateFrame c fx elapsedTime hits st = Ok (st', transforms) /\
    frameInvariant c st' /\
    List.length (dotPositions st') = List.length (dotPositions st) /\
    map raw (hotspotData st') = map raw (hotspotData st).
Proof.
  intros (Hready & Hbound & Harcs & Hrun) Hhit.
  destruct (handleHover_ready c hits st Hready Hhit)
    as (st1 & E1 & Hready1 & L1 & _).
  destruct (handleHover_dots c hits st st1 E1) as (Hd1 & Hm1 & _).
  destruct (handleHover_frame c hits st st1 E1) as (Hl1 & Hp1 & Hs1 & Hrun1).
  specialize (Hrun1 (proj1 Hready)).
  destruct (smoothLiftUpdate_frame c st1 Hrun1) as (Hl2 & Hp2 & Hrun2 & Hs2).
  destruct (smoothLiftUpdate_hover c st1) as (Hh2 & _ & L2 & Hm2).
  assert (Hd2 := smoothLiftUpdate_hotspots c st1).
  set (st2 := smoothLiftUpdate c st1) in *.
  assert (Hready2 : fieldReady st2).
  { split; [exact (Hm2 (proj1 Hready1)) |].
    intros id Hid. rewrite L2. apply (proj2 Hready1). congruence. }
  assert (Hbound2 : Forall (boundTo (dotPositions st2)) (hotspotData st2)).
  { rewrite Hd2, Hd1. apply (boundTo_same_length (dotPositions st)); auto.
    congruence. }
  unfold animateFrame. rewrite E1. cbn [Js.bind]. fold st2.
  destruct (liftActive st2 || isIdleEnabled fx || isGlowEnabled fx) eqn:Ec.
  - destruct (syncHotspotLift_current c fx elapsedTime st st2 Harcs)
      as (st' & trs & Es & Harcs' & Est' & _); try congruence.
    exists st', trs. split; [exact Es |].
    assert (Hdots : dotPositions st' = dotPositions st2)
      by (rewrite Est'; reflexivity).
    assert (Hhov : hoveredInstanceId st' = hoveredInstanceId st2)
      by (rewrite Est'; reflexivity).
    assert (Hact : liftActive st' = liftActive st2)
      by (rewrite Est'; reflexivity).
    assert (Hmesh : meshes st' = meshes st2)
      by (rewrite Est'; reflexivity).
    assert (Hdata : hotspotData st'
                    = map (syncedRecord fx elapsedTime) (hotspotData st2))
      by (rewrite Est'; reflexivity).
    split; [| split].
    + split; [| split; [| split]].
      * split; [rewrite Hmesh; exact (proj1 Hready2) |].
        intros id Hid. rewrite Hdots. apply (proj2 Hready2). congruence.
      * rewrite Hdots, Hdata. apply Forall_map.
        eapply Forall_impl; [| exact Hbound2]. intros hs H. exact H.
      * exact Harcs'.
      * rewrite Hhov, Hact. exact Hrun2.
    + congruence.
    + rewrite Hdata, map_map, Hd2, Hd1. reflexivity.
  - apply orb_false_iff in Ec. destruct Ec as [Ec _].
    apply orb_false_iff in Ec. destruct Ec as [Ec _].
    exists st2, []. split; [reflexivity |]. split; [| split].
    + split; [exact Hready2 | split; [exact Hbound2 | split; [| exact Hrun2]]].
      apply (arcsCurrent_transfer c st st2); try congruence.
      apply (Forall2_samePlace_trans _ (dotPositions st1)); auto.
    + congruence.
    + congruence.
Qed.

Lemma animateFrameSeq_invariant (c : Config) (fx : option EffectsCfg)
    (frames : list (R * option nat)) :
  forall st : State,
  frameInvariant c st ->
  Forall (fun frame => hitInRange st (snd frame)) frames ->
  exists st' : State,
    animateFrameSeq c fx frames st = Ok st' /\
    frameInvariant c st' /\
    List.length (dotPositions st') = List.length (dotPositions st) /\
    map raw (hotspotData st') = map raw (hotspotData st).
Proof.
  induction frames as [| [elapsedTime hits] tl IH]; intros st Hinv Hhits.
  - exists st. repeat split; auto; apply Hinv.
  - inversion Hhits as [| ? ? Hhit Htl]; subst.
    destruct (animateFrame_invariant c fx elapsedTime hits st Hinv Hhit)
      as (st1 & trs & E1 & Hinv1 & L1 & R1).
    destruct (IH st1 Hinv1) as (st' & E' & Hinv' & L' & R').
    { eapply Forall_impl; [| exact Htl].
      intros frame H id Hid. rewrite L1. now apply H. }
    exists st'. cbn [animateFrameSeq]. rewrite E1. cbn [Js.bind fst].
    repeat split; try apply Hinv'; congruence.
Qed.

Lemma bindHotspot_fields (hotspotHeight idlePhaseStep : R) (type : string)
    (i : nat) (hs : RawHotspot) (st st' : State) :
  bindHotspot hotspotHeight idlePhaseStep type i hs st = Ok st' ->
  meshes st' = meshes st /\
  hotspotLine st' = hotspotLine st /\
  hotspotPairLines st' = hotspotPairLines st /\
  hoveredInstanceId st' = hoveredInstanceId st /\
  liftActive st' = liftActive st.
Proof.
  intros E. destruct (bindHotspot_inv _ _ _ _ _ _ _ E) as (n & p & _ & ->).
  repeat split.
Qed.

Lemma bindGroupFrom_fields (hotspotHeight idlePhaseStep : R) (type : string)
    (hotspots : list RawHotspot) :
  forall (i : nat) (st st' : State),
  bindGroupFrom hotspotHeight idlePhaseStep type i hotspots st = Ok st' ->
  meshes st' = meshes st /\
  hoveredInstanceId st' = hoveredInstanceId st.
Proof.
  induction hotspots as [| hs tl IH]; intros i st st' E.
  - injection E as <-. split; reflexivity.
  - cbn [bindGroupFrom] in E.
    destruct (bindHotspot hotspotHeight idlePhaseStep type i hs st)
      as [st1 | err] eqn:E1; [| discriminate].
    cbn [Js.bind] in E.
    destruct (bindHotspot_fields _ _ _ _ _ _ _ E1) as (Hm & _ & _ & Hh & _).
    destruct (IH _ _ _ E) as (Hm' & Hh'). split; congruence.
Qed.

Lemma bindGroups_fields (hotspotHeight idlePhaseStep : R)
    (grouped : list (string * list RawHotspot)) :
  forall st st' : State,
  bindGroups hotspotHeight idlePhaseStep grouped st = Ok st' ->
  meshes st' = meshes st /\
  hoveredInstanceId st' = hoveredInstanceId st.
Proof.
  induction grouped as [| [type hotspots] tl IH]; intros st st' E.
  - injection E as <-. split; reflexivity.
  - cbn [bindGroups] in E.
    destruct (bindGroupFrom hotspotHeight idlePhaseStep type 0 hotspots st)
      as [st1 | err] eqn:E1; [| discriminate].
    cbn [Js.bind] in E.
    destruct (bindGroupFrom_fields _ _ _ _ _ _ _ E1) as (Hm & Hh).
    destruct (IH _ _ E) as (Hm' & Hh'). split; congruence.
Qed.

(** The state [buildDotsFromFile] returns is one the frames can start
    from. *)
Lemma buildDotsFromFile_frameInvariant (c : Config)
    (HOTSPOTS : list RawHotspot) (dots : list (R * R)) (st : State) :
  buildDotsFromFile c HOTSPOTS dots = Ok st -> frameInvariant c st.
Proof.
  intros E.
  assert (Hb := reachable_bound c st (buildDotsFromFile_reachable _ _ _ _ E)).
  destruct (buildDotsFromFile_inv c HOTSPOTS dots st E)
    as (st1 & st2 & _ & E1 & E2 & E3).
  destruct (bindGroups_fields _ _ _ _ _ E1) as (Hm & Hh).
  assert (F2 := buildHotspotConnectionLine_only c st1 st2 E2).
  assert (F3 := buildHotspotPairConnections_only c st2 st E3).
  assert (Hmesh : meshes st = meshes (dotField c dots))
    by (rewrite F3, F2; cbn; exact Hm).
  assert (Hhov : hoveredInstanceId st = None)
    by (rewrite F3, F2; cbn; rewrite Hh; reflexivity).
  split; [| split; [exact Hb | split]].
  - split; [rewrite Hmesh; discriminate |].
    intros id Hid. congruence.
  - exact (arcsCurrent_after_builds c st1 st2 st E2 E3).
  - intros H. now elim H.
Qed.


Lemma hotspots_ride_their_dots_witness :
  exists (st' : State) (transforms : list HotspotTransform),
    syncHotspotLift (exampleConfig 3) exampleEffects 2 chainField
    = Ok (st', transforms) /\
    dotPositions st' = dotPositions chainField /\
    Forall2 (ridesDot (exampleConfig 3) exampleEffects 2
               (dotPositions chainField))
            (hotspotData chainField) transforms.
Proof.
  destruct (syncHotspots_bound (exampleConfig 3) exampleEffects 2
              (dotPositions chainField) (hotspotData chainField)
              chainField_bound) as (trs & Es & _).
  assert (E : syncHotspotLift (exampleConfig 3) exampleEffects 2 chainField
              = Ok (setHotspotData chainField
                      (map (syncedRecord exampleEffects 2)
                           (hotspotData chainField)), trs)).
  { unfold syncHotspotLift. rewrite Es. reflexivity. }
  eexists. eexists. split; [exact E |].
  destruct (hotspots_ride_their_dots _ _ _ _ _ _ E)
    as (Hd & _ & _ & _ & _ & _ & Hr & _).
  split; [exact Hd | exact Hr].
Defined.

Lemma buildDotsFromFile_length (c : Config) (HOTSPOTS : list RawHotspot)
    (dots : list (R * R)) (st : State) :
  buildDotsFromFile c HOTSPOTS dots = Ok st ->
  List.length (dotPositions st) = List.length dots.
Proof. intros E. apply (buildDotsFromFile_records c HOTSPOTS dots st E). Qed.

(** X16. From the state [buildDotsFromFile] returns, any number of whole
    frames ([handleHover], [smoothLiftUpdate] and, when the engine runs or
    an effect is on, [syncHotspotLift]) run without an exception as long as
    every ray hit is a dot.  After them the dots and the raw hotspots of the
    records are in number and order as built, every record is bound to an
    existing dot, and the sequential line and the pair lines are the ones a
    build from scratch would give for the lifts and idle lifts of that
    moment: no frame leaves a stale arc behind, also the frames on which the
    synchronisation is skipped. *)
Theorem frames_keep_arcs_current (c : Config) (fx : option EffectsCfg)
    (HOTSPOTS : list RawHotspot) (dots : list (R * R))
    (frames : list (R * option nat)) (st0 : State) :
  buildDotsFromFile c HOTSPOTS dots = Ok st0 ->
  Forall (fun frame => forall id, snd frame = Some id ->
                                  (id < List.length dots)%nat) frames ->
  exists st : State,
    animateFrameSeq c fx frames st0 = Ok st /\
    arcsCurrent c st /\
    List.length (dotPositions st) = List.length dots /\
    map raw (hotspotData st) = map raw (hotspotData st0) /\
    Forall (boundTo (dotPositions st)) (hotspotData st).
Proof.
  intros E Hhits.
  assert (L0 := buildDotsFromFile_length c HOTSPOTS dots st0 E).
  destruct (animateFrameSeq_invariant c fx frames st0
              (buildDotsFromFile_frameInvariant c HOTSPOTS dots st0 E))
    as (st & Es & (_ & Hb & Ha & _) & L & Hr).
  { eapply Forall_impl; [| exact Hhits].
    intros frame H id Hid. rewrite L0. now apply H. }
  exists st. repeat split; try assumption; try apply Ha. congruence.
Qed.

Lemma frames_keep_arcs_current_witness :
  exists st0 st : State,
    buildDotsFromFile (exampleConfig 3) exampleSites exampleGrid = Ok st0 /\
    animateFrameSeq (exampleConfig 3) exampleEffects
      [(0, None); (0.1, Some 1%nat); (0.2, Some 1%nat); (0.3, None)] st0
    = Ok st /\
    arcsCurrent (exampleConfig 3) st.
Proof.
  destruct (buildDotsFromFile_ok (exampleConfig 3) exampleSites exampleGrid)
    as (st0 & E); [discriminate | reflexivity | exact exampleSites_located |].
  destruct (frames_keep_arcs_current (exampleConfig 3) exampleEffects
              exampleSites exampleGrid
              [(0, None); (0.1, Some 1%nat); (0.2, Some 1%nat); (0.3, None)]
              st0 E) as (st & Es & Ha & _).
  - repeat (apply Forall_cons; [intros id [= <-] || intros id [=]; cbn; lia |]).
    apply Forall_nil.
  - exists st0, st. repeat split; try assumption; apply Ha.
Defined.


(** ** The sequential chain passes through the hotspots *)

(** From the second leg on, every leg ends at the position of its second
    hotspot, and the legs follow one another without a gap. *)
Lemma collectLegsFrom_junctions (c : Config) (dots : list Dot.t)
    (hs : list HotspotRecord) :
  Forall (boundTo dots) hs ->
  forall (i : nat) (h1 : HotspotRecord),
  boundTo dots h1 ->
  exists points,
    collectLegsFrom c dots (S i) (h1 :: hs) = Ok points /\
    List.length points
    = (List.length hs * Z.to_nat (effectiveSegments (connectionLine c)))%nat /\
    forall (k : nat) (h : HotspotRecord),
      nth_error hs k = Some h ->
      exists w,
        getHotspotWorldPosition c dots h = Ok w /\
        nth_error points
          (k * Z.to_nat (effectiveSegments (connectionLine c))
           + Z.to_nat (effectiveSegments (connectionLine c)) - 1)
        = Some w.
Proof.
  assert (Hn := effectiveSegments_pos (connectionLine c)).
  set (n := Z.to_nat (effectiveSegments (connectionLine c))).
  assert (Hn1 : (1 <= n)%nat) by (unfold n; lia).
  induction 1 as [| h2 tl Hh2 Htl IH]; intros i h1 Hh1.
  - exists []. repeat split. intros [| k] h; discriminate.
  - destruct (world_position_defined c dots h1 Hh1) as (a & Ea).
    destruct (world_position_defined c dots h2 Hh2) as (b & Eb).
    destruct (IH (S i) h2 Hh2) as (rest & Er & Lr & Hr).
    exists (collectLeg (connectionLine c) (S i) a b ++ rest).
    rewrite collectLegsFrom_leg, Ea, Eb. cbn [Js.bind]. rewrite Er.
    cbn [Js.bind].
    assert (Ll := length_collectLeg (connectionLine c) (S i) a b).
    fold n in Ll. rewrite Nat.add_0_r in Ll.
    split; [reflexivity | split].
    + rewrite length_app, Ll, Lr. cbn [List.length]. lia.
    + intros [| k] h Hk.
      * injection Hk as <-. exists b. split; [exact Eb |].
        rewrite nth_error_app1 by lia.
        replace (0 * n + n - 1)%nat with
          (List.length (collectLeg (connectionLine c) (S i) a b) - 1)%nat
          by lia.
        apply collectLeg_last.
      * cbn [nth_error] in Hk. destruct (Hr k h Hk) as (w & Ew & Hw).
        exists w. split; [exact Ew |].
        rewrite nth_error_app2 by lia.
        rewrite Ll.
        replace (S k * n + n - 1 - n)%nat with (k * n + n - 1)%nat by lia.
        exact Hw.
Qed.

(** X17. With every record bound to a dot, the sequential chain runs
    through the hotspots in their order: the sample at position [k * S] of
    the point list, [S] being the effective number of segments of a leg, is
    the world position of the [k]-th record, so the line starts at the first
    hotspot, ends at the last and meets every one between. *)
Theorem sequential_chain_visits_hotspots (c : Config) (st : State) :
  (2 <= List.length (hotspotData st))%nat ->
  Forall (boundTo (dotPositions st)) (hotspotData st) ->
  exists points,
    collectHotspotArcPoints c st = Ok points /\
    forall (k : nat) (hs : HotspotRecord),
      nth_error (hotspotData st) k = Some hs ->
      exists w,
        getHotspotWorldPosition c (dotPositions st) hs = Ok w /\
        nth_error points
          (k * Z.to_nat (effectiveSegments (connectionLine c)))
        = Some w.
Proof.
  unfold collectHotspotArcPoints.
  assert (Hn := effectiveSegments_pos (connectionLine c)).
  set (n := Z.to_nat (effectiveSegments (connectionLine c))).
  assert (Hn1 : (1 <= n)%nat) by (unfold n; lia).
  destruct (hotspotData st) as [| h1 [| h2 tl]]; cbn [List.length];
    try lia.
  intros _ Hb.
  apply Forall_cons_iff in Hb. destruct Hb as [Hh1 Hb'].
  apply Forall_cons_iff in Hb'. destruct Hb' as [Hh2 Htl].
  destruct (world_position_defined c (dotPositions st) h1 Hh1) as (a & Ea).
  destruct (world_position_defined c (dotPositions st) h2 Hh2) as (b & Eb).
  destruct (collectLegsFrom_junctions c (dotPositions st) tl Htl 0%nat h2 Hh2)
    as (rest & Er & Lr & Hr).
  fold n in Lr, Hr.
  exists (collectLeg (connectionLine c) 0 a b ++ rest).
  rewrite collectLegsFrom_leg, Ea, Eb. cbn [Js.bind]. rewrite Er.
  cbn [Js.bind]. split; [reflexivity |].
  assert (Ll := length_collectLeg (connectionLine c) 0 a b).
  fold n in Ll. cbn iota in Ll.
  intros [| [| k]] hs Hk; cbn [nth_error] in Hk.
  - injection Hk as <-. exists a. split; [exact Ea |].
    rewrite nth_error_app1 by lia. apply collectLeg_first.
  - injection Hk as <-. exists b. split; [exact Eb |].
    rewrite nth_error_app1 by lia.
    replace (1 * n)%nat with
      (List.length (collectLeg (connectionLine c) 0 a b) - 1)%nat by lia.
    apply collectLeg_last.
  - destruct (Hr k hs Hk) as (w & Ew & Hw).
    exists w. split; [exact Ew |].
    rewrite nth_error_app2 by lia. rewrite Ll.
    replace (S (S k) * n - (n + 1))%nat with (k * n + n - 1)%nat by lia.
    exact Hw.
Qed.

Lemma sequential_chain_visits_hotspots_witness :
  exists points,
    collectHotspotArcPoints (exampleConfig 3) chainField = Ok points /\
    exists w,
      getHotspotWorldPosition (exampleConfig 3) (dotPositions chainField)
        (exampleHotspot "Tok" 2 2) = Ok w /\
      nth_error points
        (2 * Z.to_nat (effectiveSegments (connectionLine (exampleConfig 3))))
      = Some w.
Proof.
  destruct (sequential_chain_visits_hotspots (exampleConfig 3) chainField)
    as (points & E & H).
  - cbn. lia.
  - exact chainField_bound.
  - exists points. split; [exact E |].
    exact (H 2%nat (exampleHotspot "Tok" 2 2) eq_refl).
Defined.


(* ================================================================== *)
(** * Properties of loading, picking and the tooltip                   *)
(* ================================================================== *)

Lemma filter_loadHotspots (t t' : string) (data : list RawHotspot) :
  filter (typeIs t) (loadHotspots t' data)
  = if String.eqb t t' then loadHotspots t' data else [].
Proof.
  unfold loadHotspots.
  induction data as [| h tl IH]; cbn [map filter].
  - now destruct (String.eqb t t').
  - unfold typeIs at 1. cbn [type withType]. rewrite IH.
    now destruct (String.eqb t t').
Qed.

Lemma filter_loadedHotspots_other (t : string)
    (sources : list (string * list RawHotspot)) :
  ~ In t (map fst sources) ->
  filter (typeIs t) (loadedHotspots sources) = [].
Proof.
  unfold loadedHotspots.
  induction sources as [| [t' d] tl IH]; intros Hn; [reflexivity |].
  cbn [map List.concat fst snd]. rewrite filter_app, filter_loadHotspots.
  destruct (String.eqb_spec t t') as [-> | _].
  - elim Hn. now left.
  - rewrite IH; [reflexivity |]. intros H. apply Hn. now right.
Qed.

(** With one source per type, the hotspots of a type are the entries of
    its file, in the order of the file. *)
Lemma filter_loadedHotspots (t : string) (data : list RawHotspot)
    (sources : list (string * list RawHotspot)) :
  NoDup (map fst sources) -> In (t, data) sources ->
  filter (typeIs t) (loadedHotspots sources) = loadHotspots t data.
Proof.
  unfold loadedHotspots.
  induction sources as [| [t' d] tl IH]; intros Hnd Hin; [destruct Hin |].
  cbn [map fst] in Hnd. apply NoDup_cons_iff in Hnd.
  destruct Hnd as [Hfresh Hnd].
  cbn [map List.concat fst snd]. rewrite filter_app, filter_loadHotspots.
  destruct Hin as [[= -> ->] | Hin].
  - rewrite String.eqb_refl.
    fold (loadedHotspots tl).
    rewrite filter_loadedHotspots_other by exact Hfresh.
    apply app_nil_r.
  - destruct (String.eqb_spec t t') as [-> | _].
    + elim Hfresh. apply in_map_iff. exists (t', data). now split.
    + now apply IH.
Qed.


(** A slot that was handed out has its record: the record of the hotspot
    that sits at that place among the hotspots of its type. *)
Lemma slot_has_record (c : Config) (HOTSPOTS : list RawHotspot)
    (dots : list (R * R)) (st : State) (T : string) (j : nat)
    (h : RawHotspot) :
  buildDotsFromFile c HOTSPOTS dots = Ok st ->
  nth_error (filter (typeIs T) HOTSPOTS) j = Some h ->
  (exists r, In r (hotspotData st) /\ slotKey r = (T, j)) /\
  (forall r, In r (hotspotData st) -> slotKey r = (T, j) -> raw r = h).
Proof.
  intros E Hj.
  destruct (buildDotsFromFile_records c HOTSPOTS dots st E)
    as (_ & _ & _ & _ & _ & Hkey & Hslot).
  destruct (groupedOf_groupedFrom HOTSPOTS) as [Hnd Hgroup].
  split.
  - assert (Hin : In (T, j)
                     (groupKeys (objectEntries (groupedOf HOTSPOTS)))).
    { unfold groupKeys. apply in_flat_map.
      exists (T, filter (typeIs T) HOTSPOTS). split.
      - apply objectEntries_in. apply groupOf_some. rewrite Hgroup.
        destruct (filter (typeIs T) HOTSPOTS); [destruct j; discriminate |].
        reflexivity.
      - cbn [fst snd]. apply in_map_iff. exists j. split; [reflexivity |].
        apply in_seq. split; [lia |]. cbn.
        apply nth_error_Some. congruence. }
    rewrite <- Hkey in Hin. apply in_map_iff in Hin.
    destruct Hin as (r & Hr & Hin). now exists r.
  - intros r Hr Hk. rewrite Forall_forall in Hslot.
    destruct (inSlotOf_groupedOf HOTSPOTS r (Hslot r Hr)) as [_ Hn].
    unfold slotKey in Hk. injection Hk as Ht Hi. rewrite Ht, Hi in Hn.
    congruence.
Qed.

(** X18. With one data source per type, entry [j] of the file of the type
    [t] becomes instance [j] of the mesh of that type: after
    [buildDotsFromFile] some record sits in the slot [(t, j)], and every
    record in that slot is the entry itself with [type] set to the type of
    its source. *)
Theorem source_entry_gets_its_slot (c : Config)
    (sources : list (string * list RawHotspot)) (dots : list (R * R))
    (st : State) (t : string) (data : list RawHotspot) (j : nat)
    (h : RawHotspot) :
  NoDup (map fst sources) ->
  In (t, data) sources ->
  nth_error data j = Some h ->
  buildDotsFromFile c (loadedHotspots sources) dots = Ok st ->
  (exists r, In r (hotspotData st) /\ slotKey r = (t, j)) /\
  (forall r, In r (hotspotData st) -> slotKey r = (t, j) ->
     raw r = withType h t).
Proof.
  intros Hnd Hin Hj E.
  apply (slot_has_record c (loadedHotspots sources) dots st t j _ E).
  rewrite (filter_loadedHotspots t data sources Hnd Hin).
  unfold loadHotspots. rewrite nth_error_map, Hj. reflexivity.
Qed.




Lemma source_entry_gets_its_slot_witness :
  exists st : State,
    buildDotsFromFile (exampleConfig 3) (loadedHotspots exampleSources)
      exampleGrid = Ok st /\
    (exists r, In r (hotspotData st) /\ slotKey r = ("global"%string, 1%nat)) /\
    (forall r, In r (hotspotData st) ->
       slotKey r = ("global"%string, 1%nat) ->
       rawId (raw r) = "TOK"%string /\ type (raw r) = "global"%string).
Proof.
  destruct (buildDotsFromFile_ok (exampleConfig 3)
              (loadedHotspots exampleSources) exampleGrid)
    as (st & E);
    [discriminate | reflexivity
     | repeat (apply Forall_cons; [split; discriminate |]); apply Forall_nil |].
  exists st. split; [exact E |].
  destruct (source_entry_gets_its_slot (exampleConfig 3) exampleSources
              exampleGrid st "global"
              (snd (nth 1 exampleSources (EmptyString, []))) 1
              {| rawId := "TOK"; lat := Some 35.7; lon := Some 139.7; label := "Tokyo";
                 message := "Sales"; type := "" |})
    as [Hex Hraw].
  - apply NoDup_cons; [intros [H | []]; discriminate |].
    apply NoDup_cons; [intros [] | apply NoDup_nil].
  - right. left. reflexivity.
  - reflexivity.
  - exact E.
  - split; [exact Hex |].
    intros r Hr Hk. rewrite (Hraw r Hr Hk). split; reflexivity.
Defined.


(** ** The tooltip stays in the window *)

Lemma mathRound_le (x y : R) : x <= y -> (mathRound x <= mathRound y)%Z.
Proof. intros H. apply Zfloor_le. lra. Qed.

Lemma mathRound_IZR (z : Z) : mathRound (IZR z) = z.
Proof. apply Zfloor_eq. lra. Qed.

Lemma mathRound_near (x : R) : x - 1 / 2 < IZR (mathRound x) <= x + 1 / 2.
Proof.
  unfold mathRound. destruct (Zfloor_bound (x + 1 / 2)). lra.
Qed.

(** The clamp of [positionTooltip], for one coordinate. *)
Lemma clamped_coordinate (wanted limit : R) :
  let v := Rmin (Rmax wanted TOOLTIP_MARGIN) (Rmax TOOLTIP_MARGIN limit) in
  (12 <= mathRound v)%Z /\
  (12 <= limit -> IZR (mathRound v) <= limit + 1 / 2) /\
  (forall n : Z, limit = IZR n -> (12 <= n)%Z -> (mathRound v <= n)%Z) /\
  (limit <= 12 -> mathRound v = 12%Z).
Proof.
  intros v.
  assert (Hlo : 12 <= v).
  { unfold v, TOOLTIP_MARGIN. apply Rmin_glb; [apply Rmax_r | apply Rmax_l]. }
  assert (Hhi : v <= Rmax 12 limit).
  { unfold v, TOOLTIP_MARGIN. apply Rmin_r. }
  split; [| split; [| split]].
  - rewrite <- (mathRound_IZR 12). now apply mathRound_le.
  - intros Hl. rewrite Rmax_right in Hhi by exact Hl.
    destruct (mathRound_near v). lra.
  - intros n -> Hn. rewrite <- (mathRound_IZR n). apply mathRound_le.
    apply IZR_le in Hn. rewrite Rmax_right in Hhi by lra. exact Hhi.
  - intros Hl. rewrite Rmax_left in Hhi by lra.
    assert (v = 12) by lra.
    replace v with (IZR 12) by lra. apply mathRound_IZR.
Qed.

(** X20. Wherever the pointer is and whatever the sizes are, the tooltip is
    placed at least 12 px from the left and from the top of the window.
    When it fits between the margins, its right and bottom edges stay
    within 12 px of the window's right and bottom edges, up to the half
    pixel of the rounding, and exactly when the free room is a whole number
    of pixels; when it does not fit, it is pinned at 12 px. *)
Theorem tooltip_stays_in_view (page : Page) (rect : Rect)
    (clientX clientY : R) :
  let left := fst (positionTooltip page rect clientX clientY) in
  let top := snd (positionTooltip page rect clientX clientY) in
  (12 <= left)%Z /\ (12 <= top)%Z /\
  (24 + rectWidth rect <= innerWidth page ->
   IZR left + rectWidth rect <= innerWidth page - 12 + 1 / 2) /\
  (24 + rectHeight rect <= innerHeight page ->
   IZR top + rectHeight rect <= innerHeight page - 12 + 1 / 2) /\
  (forall n : Z, innerWidth page - rectWidth rect = IZR n -> (24 <= n)%Z ->
     IZR left + rectWidth rect <= innerWidth page - 12) /\
  (forall n : Z, innerHeight page - rectHeight rect = IZR n -> (24 <= n)%Z ->
     IZR top + rectHeight rect <= innerHeight page - 12) /\
  (innerWidth page <= 24 + rectWidth rect -> left = 12%Z) /\
  (innerHeight page <= 24 + rectHeight rect -> top = 12%Z).
Proof.
  unfold positionTooltip. cbn [fst snd].
  set (wantedTop :=
         if Js.ltb (clientY - rectHeight rect - TOOLTIP_CURSOR_OFFSET)
                   TOOLTIP_MARGIN
         then clientY + TOOLTIP_CURSOR_OFFSET
         else clientY - rectHeight rect - TOOLTIP_CURSOR_OFFSET).
  destruct (clamped_coordinate (clientX + TOOLTIP_CURSOR_OFFSET)
              (innerWidth page - rectWidth rect - TOOLTIP_MARGIN))
    as (L1 & L2 & L3 & L4).
  destruct (clamped_coordinate wantedTop
              (innerHeight page - rectHeight rect - TOOLTIP_MARGIN))
    as (T1 & T2 & T3 & T4).
  unfold TOOLTIP_MARGIN in *.
  split; [exact L1 | split; [exact T1 |]].
  split; [| split; [| split; [| split; [| split]]]].
  - intros H. assert (H' := L2 ltac:(lra)). lra.
  - intros H. assert (H' := T2 ltac:(lra)). lra.
  - intros n Hn H24.
    assert (H := L3 (n - 12)%Z). rewrite minus_IZR in H.
    assert (H' := H ltac:(lra) ltac:(lia)).
    apply IZR_le in H'. rewrite minus_IZR in H'. lra.
  - intros n Hn H24.
    assert (H := T3 (n - 12)%Z). rewrite minus_IZR in H.
    assert (H' := H ltac:(lra) ltac:(lia)).
    apply IZR_le in H'. rewrite minus_IZR in H'. lra.
  - intros H. apply L4. lra.
  - intros H. apply T4. lra.
Qed.


(* ================================================================== *)
(** * Properties of the settings revival                               *)
(* ================================================================== *)














(* ================================================================== *)
(** * Properties of the map focus                                      *)
(* ================================================================== *)

Lemma dispatch_coherent (s : MapFocus) (e : FocusEvent) :
  focusCoherent s -> focusCoherent (dispatch s e).
Proof.
  intros [H1 H2]. unfold focusCoherent.
  destruct e as [| | | | | key]; cbn [dispatch].
  - now split.
  - now split.
  - destruct (isPointerDown s); now split.
  - now split.
  - now split.
  - destruct (String.eqb key "Escape" && mapActive s); now split.
Qed.

Lemma dispatch_activation (s : MapFocus) (e : FocusEvent) :
  mapActive (dispatch s e) = true ->
  mapActive s = true \/ isActivation e = true.
Proof.
  destruct e as [| | | | | key]; cbn [dispatch isActivation]; auto.
  - destruct (isPointerDown s); cbn; auto.
  - destruct (String.eqb key "Escape" && mapActive s); cbn; auto.
Qed.

Lemma dispatchAll_from (events : list FocusEvent) :
  forall s : MapFocus,
  focusCoherent s ->
  focusCoherent (dispatchAll events s) /\
  (mapActive (dispatchAll events s) = true ->
   mapActive s = true \/ existsb isActivation events = true).
Proof.
  unfold dispatchAll.
  induction events as [| e tl IH]; intros s Hs; cbn [fold_left existsb].
  - split; [exact Hs | auto].
  - destruct (IH (dispatch s e) (dispatch_coherent s e Hs)) as [Hc Ha].
    split; [exact Hc |]. intros H.
    destruct (Ha H) as [H' | H']; [| right; rewrite H'; apply orb_true_r].
    destruct (dispatch_activation s e H') as [H'' | H''];
      [now left | right; now rewrite H''].
Qed.


(** X22. After any sequence of events, the orbit controls are enabled
    exactly when the map is active and exactly when the overlay is hidden;
    the map is active only if the overlay was clicked or tapped before: no
    other event hands the wheel and the drag to the map.  An active map is
    released only by the Escape key or by the pointer leaving the container
    while no button is held; a pointer that leaves in the middle of a drag
    releases nothing. *)
Theorem map_focus_needs_activation (events : list FocusEvent) :
  let s := dispatchAll events initialFocus in
  controlsEnabled s = mapActive s /\
  overlayHidden s = mapActive s /\
  (mapActive s = true -> existsb isActivation events = true) /\
  (forall e, mapActive s = true -> mapActive (dispatch s e) = false ->
     e = KeyDown "Escape"
     \/ (e = ContainerPointerLeave /\ isPointerDown s = false)) /\
  (isPointerDown s = true -> dispatch s ContainerPointerLeave = s).
Proof.
  intros s.
  destruct (dispatchAll_from events initialFocus) as [[H1 H2] Ha];
    [now split |].
  fold s in H1, H2, Ha.
  split; [exact H1 | split; [exact H2 | split; [| split]]].
  - intros H. destruct (Ha H) as [H' | H']; [discriminate | exact H'].
  - intros e Hact Hoff.
    destruct e as [| | | | | key]; cbn [dispatch] in Hoff;
      try (cbn in Hoff; congruence).
    + right. destruct (isPointerDown s); [congruence | now split].
    + left. destruct (String.eqb_spec key "Escape") as [-> | _];
        [reflexivity |].
      cbn [andb] in Hoff. congruence.
  - intros H. cbn [dispatch]. now rewrite H.
Qed.
